(** * Order ranking and the duo-noodle bot: a shallow embedding

    This development embeds the two Python modules of the repository,
    [src/order_priority.py] and [bots/duo_noodle_bot.py], and states the
    properties of their specification over the embedding.

    Conventions of the embedding.
    - Python [int] is [Z].  Python [float] is idealised as an exact rational
      [Q]: rounding, infinities and NaN are not modelled.
    - [dict] used as a table is a [gmap]; [set] is a [gset].
    - An order snapshot is a record.  A key that the source reads with
      [order[k]] is a plain field; a key that it only reads with
      [order.get(k, d)] is an [option] field and [d] is applied where the
      source applies it.
    - The same snapshot as the engine hands it out is a dictionary
      ([OrderDict]): every key may be absent and the amounts are Python
      integers.  On dictionaries the ranking pass can raise; that reading of
      the source is the module [dicts].
    - The engine modules [game_constants], [item] and [robot_controller] are
      not part of the repository: their constants are parameters
      ([GameConstants]) and the controller is an interface
      ([RobotController]) over an abstract world. *)

From Stdlib Require Import ZArith QArith Qminmax Lia.
From stdpp Require Import gmap strings list fin_maps sorting.

Set Warnings "-clear-no-such-hyp".

Local Open Scope Z_scope.

(** ** game_constants (parameters) *)

Record FoodType := {
  food_name : string;
  can_chop : bool;
  can_cook : bool;
  buy_cost : Z }.

Record GameConstants := {
  food_types : list FoodType;      (* iteration order of [for food_type in FoodType] *)
  COOK_PROGRESS : Z;
  MEAT : FoodType;
  NOODLES : FoodType;
  PAN_buy_cost : Z;                (* ShopCosts.PAN.buy_cost *)
  PLATE_buy_cost : Z }.            (* ShopCosts.PLATE.buy_cost *)

(** ** Python built-ins used by the source *)

(** [max(a, b)] keeps [a] unless [b] is strictly greater. *)
Definition py_maxQ (a b : Q) : Q :=
  match (a ?= b)%Q with Lt => b | _ => a end.

Definition py_maxZ (a b : Z) : Z :=
  match (a ?= b)%Z with Lt => b | _ => a end.

(** Comparison of tuples: the first component that differs decides. *)
Definition lex (c1 c2 : comparison) : comparison :=
  match c1 with Eq => c2 | _ => c1 end.

(** * src/order_priority.py *)

Module order_priority.

Record Order := {
  order_id : Z;
  required : option (list string);
  reward : option Q;
  penalty : option Q;
  created_turn : option Z;
  expires_turn : Z;
  is_active : option bool;
  claimed_by : option Z;
  completed_turn : option Z }.

(** The dictionary appended to [prioritized]: [**order] plus four keys. *)
Record ScoredOrder := {
  so_order : Order;
  priority_score : Q;
  turns_left : Z;
  estimated_prep : Q;
  slack : Q }.

(** [prep_time] of one food type, as both copies of the loop compute it. *)
Definition prep_time_of (gc : GameConstants) (ft : FoodType) : Z :=
  (if can_chop ft then 1 else 0) + (if can_cook ft then COOK_PROGRESS gc else 0).

Definition add_prep_time (gc : GameConstants)
    (tbl : gmap string Q) (ft : FoodType) : gmap string Q :=
  let tbl1 := <[food_name ft := inject_Z (prep_time_of gc ft)]> tbl in
  if String.eqb (food_name ft) "ONIONS"
  then <["ONION" := inject_Z (prep_time_of gc ft)]> tbl1
  else tbl1.

Definition _build_default_prep_time_by_food (gc : GameConstants) : gmap string Q :=
  foldl (add_prep_time gc) ∅ (food_types gc).

Definition sumQ (l : list Q) : Q := foldl Qplus (inject_Z 0) l.

Definition _estimate_prep_turns (gc : GameConstants) (required : list string)
    (prep_time_by_food : option (gmap string Q)) (default_prep_time : Q) : Q :=
  let tbl := match prep_time_by_food with
             | None => _build_default_prep_time_by_food gc
             | Some t => t
             end in
  sumQ (map (fun food => default default_prep_time (tbl !! food)) required).

(** The keyword arguments of [build_order_priority_queue]. *)
Record Weights := {
  prep_time_by_food : option (gmap string Q);
  default_prep_time : Q;
  value_weight : Q;
  urgency_weight : Q;
  slack_weight : Q;
  activation_weight : Q;
  allow_inactive : bool;
  allow_claimed : bool }.

Definition default_weights : Weights :=
  {| prep_time_by_food := None; default_prep_time := 1;
     value_weight := 1; urgency_weight := 1; slack_weight := 1;
     activation_weight := 1; allow_inactive := false; allow_claimed := false |}.

(** One iteration of the [for order in orders] loop: [None] is [continue],
    [Some s] is the dictionary appended. *)
Definition score_order (gc : GameConstants) (wt : Weights) (current_turn : Z)
    (order : Order) : option ScoredOrder :=
  if bool_decide (completed_turn order ≠ None) then None else
  let active := default false (is_active order) in
  if negb (allow_inactive wt) && negb active then None else
  if negb (allow_claimed wt) && bool_decide (claimed_by order ≠ None) then None else
  let time_left := expires_turn order - current_turn in
  if time_left <? 0 then None else
  let req := default [] (required order) in
  let est := _estimate_prep_turns gc req (prep_time_by_food wt) (default_prep_time wt) in
  let slk := (inject_Z time_left - est)%Q in
  let value := (default 0 (reward order) + default 0 (penalty order))%Q in
  let value_rate := (value / py_maxQ est 1)%Q in
  let urgency := (1 / inject_Z (py_maxZ time_left 1))%Q in
  let slack_score := (1 / (1 + py_maxQ slk 0))%Q in
  let overdue_penalty := py_maxQ 0 (- slk)%Q in
  let score :=
    if active then
      (value_weight wt * value_rate + urgency_weight wt * urgency
       + slack_weight wt * slack_score - overdue_penalty)%Q
    else
      let turns_until_active :=
        py_maxZ 0 (default current_turn (created_turn order) - current_turn) in
      (- activation_weight wt * inject_Z turns_until_active)%Q in
  Some {| so_order := order; priority_score := score; turns_left := time_left;
          estimated_prep := est; slack := slk |}.

Fixpoint prioritize (gc : GameConstants) (wt : Weights) (current_turn : Z)
    (orders : list Order) : list ScoredOrder :=
  match orders with
  | [] => []
  | order :: rest =>
      match score_order gc wt current_turn order with
      | None => prioritize gc wt current_turn rest
      | Some s => s :: prioritize gc wt current_turn rest
      end
  end.

(** The sort key [(priority_score, -turns_left, created_turn, order_id)]. *)
Definition sort_key (o : ScoredOrder) : Q * Z * Z * Z :=
  (priority_score o, - turns_left o,
   default 0 (created_turn (so_order o)), order_id (so_order o)).

Definition key_compare (a b : Q * Z * Z * Z) : comparison :=
  let '(s1, t1, c1, i1) := a in
  let '(s2, t2, c2, i2) := b in
  lex (s1 ?= s2)%Q (lex (t1 ?= t2) (lex (c1 ?= c2) (i1 ?= i2))).

(** [list.sort(key=..., reverse=True)] is a stable sort in descending key
    order: entries with equal keys keep their input order.  It is modelled by
    stable insertion, which computes the same list for a total preorder. *)
Fixpoint insert_desc (x : ScoredOrder) (l : list ScoredOrder) : list ScoredOrder :=
  match l with
  | [] => [x]
  | y :: l' =>
      match key_compare (sort_key y) (sort_key x) with
      | Gt => y :: insert_desc x l'
      | _ => x :: y :: l'
      end
  end.

Definition sort_desc (l : list ScoredOrder) : list ScoredOrder :=
  foldr insert_desc [] l.

Definition build_order_priority_queue (gc : GameConstants) (orders : list Order)
    (current_turn : Z) (wt : Weights) : list ScoredOrder :=
  sort_desc (prioritize gc wt current_turn orders).

(** ** Orders as dictionaries

    An element of [controller.get_orders()]: a [dict] in which any key may
    be absent.  A key that is present holds a value of the engine's type:
    an [int] for ids, turns and amounts, a list of names, a [bool]. *)
Record OrderDict := {
  od_order_id : option Z;
  od_required : option (list string);
  od_reward : option Z;
  od_penalty : option Z;
  od_created_turn : option Z;
  od_expires_turn : option Z;
  od_is_active : option bool;
  od_claimed_by : option Z;
  od_completed_turn : option Z }.

(** The dictionary appended to [prioritized]: [**order] plus four keys. *)
Record ScoredDict := {
  sd_order : OrderDict;
  sd_priority_score : Q;
  sd_turns_left : Z;
  sd_estimated_prep : Q;
  sd_slack : Q }.

End order_priority.

(** * bots/duo_noodle_bot.py *)

Module duo_noodle_bot.
Import order_priority.

(** ** item, map and controller (engine side, interface only) *)

Record Food := { cooked_stage : Z }.

Inductive Item :=
| Pan (food : option Food)
| Plate
| FoodItem (f : Food).

Record Tile := { tile_name : string; item : option Item }.

Record Map := {
  width : Z;
  height : Z;
  tiles : Z -> Z -> Tile;                 (* [m.tiles[x][y]], read inside the grid only *)
  is_tile_walkable : Z -> Z -> bool }.

(** [controller.get_bot_state(bot_id)]: the keys ['x'], ['y'], ['holding']. *)
Record BotState := { bot_x : Z; bot_y : Z; holding : option Item }.

Inductive ShopItem :=
| ShopPan                                  (* ShopCosts.PAN *)
| ShopPlate                                (* ShopCosts.PLATE *)
| ShopFood (ft : FoodType).                (* FoodType.MEAT, FoodType.NOODLES *)

(** The mutating calls of the controller, with their arguments. *)
Inductive Action :=
| move (bot_id dx dy : Z)
| buy (bot_id : Z) (it : ShopItem) (x y : Z)
| place (bot_id x y : Z)
| chop (bot_id x y : Z)
| pickup (bot_id x y : Z)
| add_food_to_plate (bot_id x y : Z)
| take_from_pan (bot_id x y : Z)
| submit (bot_id x y : Z)
| trash (bot_id x y : Z).

(** The controller over a world [W] owned by the engine: queries read the
    world, a mutating call answers success or failure and yields the next
    world. *)
Record RobotController (W : Type) := {
  get_team_bot_ids : W -> list Z;
  get_orders : W -> list Order;
  get_turn : W -> Z;
  get_bot_state : W -> Z -> BotState;
  get_tile : W -> Z -> Z -> option Tile;  (* [get_tile(get_team(), x, y)] *)
  get_map : W -> Map;
  get_team_money : W -> Z;
  perform : Action -> W -> bool * W }.

Arguments get_team_bot_ids {W}.
Arguments get_orders {W}.
Arguments get_turn {W}.
Arguments get_bot_state {W}.
Arguments get_tile {W}.
Arguments get_map {W}.
Arguments get_team_money {W}.
Arguments perform {W}.

(** The same controller answering [get_orders] with [f]. *)
Definition with_orders {W} (f : W -> list Order) (ctl : RobotController W)
    : RobotController W :=
  {| get_team_bot_ids := get_team_bot_ids ctl; get_orders := f;
     get_turn := get_turn ctl; get_bot_state := get_bot_state ctl;
     get_tile := get_tile ctl; get_map := get_map ctl;
     get_team_money := get_team_money ctl; perform := perform ctl |}.

(** ** BotPlayer: the fields set by [__init__] *)

Record BotPlayer := {
  map : Map;
  assembly_counter : option (Z * Z);
  cooker_loc : option (Z * Z);
  my_bot_id : option Z;
  current_order_id : option Z;
  has_printed_priority : bool;
  seen_order_ids : gset Z;
  seen_active_order_ids : gset Z;
  state : Z }.

Definition __init__ (map_copy : Map) : BotPlayer :=
  {| map := map_copy; assembly_counter := None; cooker_loc := None;
     my_bot_id := None; current_order_id := None;
     has_printed_priority := false; seen_order_ids := ∅;
     seen_active_order_ids := ∅; state := 0 |}.

Definition set_state (n : Z) (b : BotPlayer) : BotPlayer :=
  {| map := map b; assembly_counter := assembly_counter b;
     cooker_loc := cooker_loc b; my_bot_id := my_bot_id b;
     current_order_id := current_order_id b;
     has_printed_priority := has_printed_priority b;
     seen_order_ids := seen_order_ids b;
     seen_active_order_ids := seen_active_order_ids b; state := n |}.

Definition set_locations (c k : option (Z * Z)) (b : BotPlayer) : BotPlayer :=
  {| map := map b; assembly_counter := c; cooker_loc := k;
     my_bot_id := my_bot_id b; current_order_id := current_order_id b;
     has_printed_priority := has_printed_priority b;
     seen_order_ids := seen_order_ids b;
     seen_active_order_ids := seen_active_order_ids b; state := state b |}.

Definition set_my_bot_id (i : Z) (b : BotPlayer) : BotPlayer :=
  {| map := map b; assembly_counter := assembly_counter b;
     cooker_loc := cooker_loc b; my_bot_id := Some i;
     current_order_id := current_order_id b;
     has_printed_priority := has_printed_priority b;
     seen_order_ids := seen_order_ids b;
     seen_active_order_ids := seen_active_order_ids b; state := state b |}.

(** The order bookkeeping fields, written together by lines 137-142. *)
Definition set_order_fields (printed : bool) (seen seen_active : gset Z)
    (cur : option Z) (b : BotPlayer) : BotPlayer :=
  {| map := map b; assembly_counter := assembly_counter b;
     cooker_loc := cooker_loc b; my_bot_id := my_bot_id b;
     current_order_id := cur; has_printed_priority := printed;
     seen_order_ids := seen; seen_active_order_ids := seen_active;
     state := state b |}.

(** ** Pathfinding *)

Abbreviation Cell := (Z * Z)%type.

Definition DIRS : list Cell := [(1, 0); (-1, 0); (0, 1); (0, -1)].

Definition in_bounds (w h : Z) (c : Cell) : bool :=
  (0 <=? fst c) && (fst c <? w) && (0 <=? snd c) && (snd c <? h).

Section bfs.
Variables (w h : Z).
Variable walkable : Z -> Z -> bool.               (* get_map().is_tile_walkable *)
Variable tile_at : Z -> Z -> option Tile.         (* get_tile(get_team(), x, y) *)
Variable target_predicate : Z -> Z -> option Tile -> bool.

(** One iteration of [for dx, dy in [...]]. *)
Definition visit_neighbour (c : Cell) (path : list Cell)
    (acc : list (Cell * list Cell) * gset Cell) (d : Cell)
    : list (Cell * list Cell) * gset Cell :=
  let n : Cell := (fst c + fst d, snd c + snd d) in
  if in_bounds w h n && bool_decide (n ∉ acc.2) then
    if walkable (fst n) (snd n)
    then (acc.1 ++ [(n, path ++ [d])], {[n]} ∪ acc.2)
    else acc
  else acc.

(** The [while queue] loop; [None] means the fuel ran out. *)
Fixpoint bfs_while (fuel : nat) (queue : list (Cell * list Cell))
    (visited : gset Cell) : option (option Cell) :=
  match fuel with
  | O => None
  | S fuel' =>
      match queue with
      | [] => Some None                                   (* return None *)
      | (c, path) :: queue' =>
          if target_predicate (fst c) (snd c) (tile_at (fst c) (snd c))
          then Some (Some (match path with [] => (0, 0) | d :: _ => d end))
          else
            let acc := foldl (visit_neighbour c path) (queue', visited) DIRS in
            bfs_while fuel' acc.1 acc.2
      end
  end.

(** Every grid cell is queued at most once, so this many iterations are
    enough (lemma [bfs_while_terminates]). *)
Definition bfs_fuel : nat := S (S (Z.to_nat w * Z.to_nat h)).

Definition get_bfs_path_fuel (fuel : nat) (start : Cell) : option (option Cell) :=
  bfs_while fuel [(start, [])] {[start]}.

Definition get_bfs_path (start : Cell) : option Cell :=
  match get_bfs_path_fuel bfs_fuel start with
  | Some r => r
  | None => None
  end.
End bfs.

Definition chebyshev (x y tx ty : Z) : Z :=
  py_maxZ (Z.abs (x - tx)) (Z.abs (y - ty)).

(** ** Tile search *)

Definition nearest_step (m : Map) (bx by_ : Z) (name : string) (x : Z)
    (acc : option Cell * Z) (y : Z) : option Cell * Z :=
  if String.eqb (tile_name (tiles m x y)) name then
    let d := chebyshev bx by_ x y in
    if d <? acc.2 then (Some (x, y), d) else acc
  else acc.

Definition find_nearest_tile (m : Map) (bx by_ : Z) (name : string) : option Cell :=
  (foldl (fun acc x => foldl (nearest_step m bx by_ name x) acc (seqZ 0 (height m)))
         (None, 9999) (seqZ 0 (width m))).1.

(** ** One turn, as a computation

    [play_turn] runs against the bot's own fields, the engine's world, the
    record of the mutating calls made (each with the answer received), and
    the lines printed.  A computation either completes or raises. *)

Inductive exn :=
| TypeError                        (* unpacking [None] into [sx, sy] *)
| KeyError (key : string)          (* [d[key]] on a dictionary without [key] *)
| OverflowError.                   (* an [int] too large to convert to [float] *)

Inductive res (A : Type) :=
| Ok (a : A)
| Raise (e : exn).
Arguments Ok {A}.
Arguments Raise {A}.

Inductive Line :=
| queue_header (first : bool) (turn : Z)   (* "Initial"/"Updated priority queue (turn ..)" *)
| queue_entry (o : ScoredOrder)
| queue_dict_entry (o : ScoredDict).       (* the same line, for a dictionary *)

Record Run (W : Type) := {
  self : BotPlayer;
  world : W;
  trace : list (Action * bool);
  stdout : list Line }.
Arguments self {W}.
Arguments world {W}.
Arguments trace {W}.
Arguments stdout {W}.

Definition M (W A : Type) : Type := Run W -> res A * Run W.

Definition ret {W A} (a : A) : M W A := fun r => (Ok a, r).

Definition raise {W A} (e : exn) : M W A := fun r => (Raise e, r).

Definition bind {W A B} (m : M W A) (k : A -> M W B) : M W B :=
  fun r => match m r with
           | (Ok a, r') => k a r'
           | (Raise e, r') => (Raise e, r')
           end.

(** The turn computations form a monad; stdpp's notations [x ← m; k] and
    [m;; k] are used for sequencing. *)
#[global] Instance turn_ret {W} : MRet (M W) := @ret W.
#[global] Instance turn_bind {W} : MBind (M W) := fun A B k m => bind m k.

Definition get_self {W} : M W BotPlayer := fun r => (Ok (self r), r).

Definition modify_self {W} (f : BotPlayer -> BotPlayer) : M W unit :=
  fun r => (Ok tt, {| self := f (self r); world := world r;
                      trace := trace r; stdout := stdout r |}).

Definition query {W A} (f : W -> A) : M W A := fun r => (Ok (f (world r)), r).

Definition print {W} (ls : list Line) : M W unit :=
  fun r => (Ok tt, {| self := self r; world := world r;
                      trace := trace r; stdout := stdout r ++ ls |}).

(** A mutating call: the engine answers and moves to its next world. *)
Definition act {W} (ctl : RobotController W) (a : Action) : M W bool :=
  fun r => let ans := perform ctl a (world r) in
           (Ok ans.1, {| self := self r; world := ans.2;
                         trace := trace r ++ [(a, ans.1)]; stdout := stdout r |}).

(** [sx, sy = ...]: unpacking [None] raises [TypeError]. *)
Definition unpack {W} (o : option Cell) : M W Cell :=
  match o with
  | Some c => ret c
  | None => raise TypeError
  end.

(** [tile and isinstance(tile.item, Pan)] *)
Definition holds_pan (t : option Tile) : bool :=
  match t with
  | Some tile => match item tile with Some (Pan _) => true | _ => false end
  | None => false
  end.

(** [tile and isinstance(tile.item, Pan) and tile.item.food]: the food. *)
Definition pan_food (t : option Tile) : option Food :=
  match t with
  | Some tile => match item tile with Some (Pan f) => f | _ => None end
  | None => None
  end.

(** [tile and tile.item] *)
Definition holds_item (t : option Tile) : bool :=
  match t with
  | Some tile => match item tile with Some _ => true | None => false end
  | None => false
  end.

(** [o.get("is_active")] in a condition. *)
Definition active_flag (o : ScoredOrder) : bool :=
  default false (is_active (so_order o)).

Definition scored_id (o : ScoredOrder) : Z := order_id (so_order o).

(** The keyword arguments passed at lines 104-115; the table is the one
    built by the loop at lines 94-103. *)
Definition bot_weights (gc : GameConstants) : Weights :=
  {| prep_time_by_food := Some (foldl (add_prep_time gc) ∅ (food_types gc));
     default_prep_time := 1; value_weight := 2; urgency_weight := 2;
     slack_weight := 3 # 2; activation_weight := 1;
     allow_inactive := true; allow_claimed := false |}.

Section turn.
Context {W : Type}.
Variable gc : GameConstants.
Variable ctl : RobotController W.

Definition move_towards (bot_id tx ty : Z) : M W bool :=
  st ← query (fun w => get_bot_state ctl w bot_id);
  let bx := bot_x st in
  let by_ := bot_y st in
  if chebyshev bx by_ tx ty <=? 1 then ret true else
  b ← get_self;
  step ← query (fun w =>
            get_bfs_path (width (map b)) (height (map b))
              (is_tile_walkable (get_map ctl w)) (get_tile ctl w)
              (fun x y _ => chebyshev x y tx ty <=? 1) (bx, by_));
  match step with
  | Some (dx, dy) =>
      if bool_decide ((dx, dy) ≠ (0, 0))
      then _ ← act ctl (move bot_id dx dy); ret false
      else ret false
  | None => ret false
  end.

Definition nearest (bx by_ : Z) (name : string) : M W (option Cell) :=
  query (fun w => find_nearest_tile (get_map ctl w) bx by_ name).

(** Lines 93-142: rank the orders, print the queue when it changed, and
    record which order is current.  On records nothing here can raise; the
    same lines on dictionaries, where they can, are [dicts.rank_and_log]. *)
Definition rank_and_log : M W unit :=
  orders ← query (get_orders ctl);
  turn ← query (get_turn ctl);
  b ← get_self;
  let prioritized := build_order_priority_queue gc orders turn (bot_weights gc) in
  let current_ids : gset Z := list_to_set (scored_id <$> prioritized) in
  let current_active_ids : gset Z :=
    list_to_set (scored_id <$> List.filter active_flag prioritized) in
  let is_first_print := negb (has_printed_priority b) in
  let has_new_orders := bool_decide (current_ids ∖ seen_order_ids b ≠ ∅) in
  let has_new_active :=
    bool_decide (current_active_ids ∖ seen_active_order_ids b ≠ ∅) in
  let printing :=
    is_first_print || (has_new_orders && (0 <? turn)) || has_new_active in
  (if printing
   then print (queue_header is_first_print turn :: (queue_entry <$> prioritized))
   else ret tt);;
  let active_order := List.find active_flag prioritized in
  let selected := match active_order with
                  | Some o => Some o
                  | None => head prioritized
                  end in
  modify_self (set_order_fields
                 (if printing then true else has_printed_priority b)
                 (seen_order_ids b ∪ current_ids)
                 (seen_active_order_ids b ∪ current_active_ids)
                 (scored_id <$> selected)).

(** Lines 166-298: the [if self.state == ...] chain. *)
Definition fsm (bot_id bx by_ : Z) (holding : option Item)
    (cx cy kx ky : Z) : M W unit :=
  b ← get_self;
  let st := state b in
  if st =? 0 then
    tile ← query (fun w => get_tile ctl w kx ky);
    modify_self (set_state (if holds_pan tile then 2 else 1))
  else if st =? 1 then
    match holding with
    | Some _ =>
        arrived ← move_towards bot_id kx ky;
        if arrived : bool then
          _ ← act ctl (place bot_id kx ky); modify_self (set_state 2)
        else ret tt
    | None =>
        shop ← nearest bx by_ "SHOP";
        s ← unpack shop;
        arrived ← move_towards bot_id s.1 s.2;
        if arrived : bool then
          money ← query (get_team_money ctl);
          if PAN_buy_cost gc <=? money
          then _ ← act ctl (buy bot_id ShopPan s.1 s.2); ret tt
          else ret tt
        else ret tt
    end
  else if st =? 2 then
    shop ← nearest bx by_ "SHOP";
    s ← unpack shop;
    arrived ← move_towards bot_id s.1 s.2;
    if arrived : bool then
      money ← query (get_team_money ctl);
      if buy_cost (MEAT gc) <=? money then
        ok ← act ctl (buy bot_id (ShopFood (MEAT gc)) s.1 s.2);
        if ok : bool then modify_self (set_state 3) else ret tt
      else ret tt
    else ret tt
  else if st =? 3 then
    arrived ← move_towards bot_id cx cy;
    if arrived : bool then
      _ ← act ctl (place bot_id cx cy); modify_self (set_state 4)
    else ret tt
  else if st =? 4 then
    arrived ← move_towards bot_id cx cy;
    if arrived : bool then
      ok ← act ctl (chop bot_id cx cy);
      if ok : bool then modify_self (set_state 5) else ret tt
    else ret tt
  else if st =? 5 then
    arrived ← move_towards bot_id cx cy;
    if arrived : bool then
      ok ← act ctl (pickup bot_id cx cy);
      if ok : bool then modify_self (set_state 6) else ret tt
    else ret tt
  else if st =? 6 then
    arrived ← move_towards bot_id kx ky;
    if arrived : bool then
      _ ← act ctl (place bot_id kx ky); modify_self (set_state 8)
    else ret tt
  else if st =? 8 then
    shop ← nearest bx by_ "SHOP";
    s ← unpack shop;
    arrived ← move_towards bot_id s.1 s.2;
    if arrived : bool then
      money ← query (get_team_money ctl);
      if PLATE_buy_cost gc <=? money then
        ok ← act ctl (buy bot_id ShopPlate s.1 s.2);
        if ok : bool then modify_self (set_state 9) else ret tt
      else ret tt
    else ret tt
  else if st =? 9 then
    arrived ← move_towards bot_id cx cy;
    if arrived : bool then
      _ ← act ctl (place bot_id cx cy); modify_self (set_state 10)
    else ret tt
  else if st =? 10 then
    shop ← nearest bx by_ "SHOP";
    s ← unpack shop;
    arrived ← move_towards bot_id s.1 s.2;
    if arrived : bool then
      money ← query (get_team_money ctl);
      if buy_cost (NOODLES gc) <=? money then
        ok ← act ctl (buy bot_id (ShopFood (NOODLES gc)) s.1 s.2);
        if ok : bool then modify_self (set_state 11) else ret tt
      else ret tt
    else ret tt
  else if st =? 11 then
    arrived ← move_towards bot_id cx cy;
    if arrived : bool then
      ok ← act ctl (add_food_to_plate bot_id cx cy);
      if ok : bool then modify_self (set_state 12) else ret tt
    else ret tt
  else if st =? 12 then
    arrived ← move_towards bot_id kx ky;
    if arrived : bool then
      tile ← query (fun w => get_tile ctl w kx ky);
      match pan_food tile with
      | Some f =>
          if cooked_stage f =? 1 then
            _ ← act ctl (take_from_pan bot_id kx ky); modify_self (set_state 13)
          else ret tt
      | None => ret tt
      end
    else ret tt
  else if st =? 13 then
    arrived ← move_towards bot_id cx cy;
    if arrived : bool then
      ok ← act ctl (add_food_to_plate bot_id cx cy);
      if ok : bool then modify_self (set_state 14) else ret tt
    else ret tt
  else if st =? 14 then
    arrived ← move_towards bot_id cx cy;
    if arrived : bool then
      ok ← act ctl (pickup bot_id cx cy);
      if ok : bool then modify_self (set_state 15) else ret tt
    else ret tt
  else if st =? 15 then
    sub ← nearest bx by_ "SUBMIT";
    u ← unpack sub;
    arrived ← move_towards bot_id u.1 u.2;
    if arrived : bool then
      ok ← act ctl (submit bot_id u.1 u.2);
      if ok : bool then modify_self (set_state 17) else ret tt
    else ret tt
  else if st =? 17 then
    match holding with
    | Some (Pan _) =>
        arrived ← move_towards bot_id kx ky;
        if arrived : bool
        then _ ← act ctl (place bot_id kx ky); ret tt
        else ret tt
    | Some _ =>
        bin ← nearest bx by_ "TRASH";
        t ← unpack bin;
        arrived ← move_towards bot_id t.1 t.2;
        if arrived : bool
        then _ ← act ctl (trash bot_id t.1 t.2); ret tt
        else ret tt
    | None =>
        tile ← query (fun w => get_tile ctl w kx ky);
        match pan_food tile with
        | Some _ => _ ← act ctl (take_from_pan bot_id kx ky); ret tt
        | None =>
            tile ← query (fun w => get_tile ctl w cx cy);
            if holds_item tile
            then _ ← act ctl (pickup bot_id cx cy); ret tt
            else modify_self (set_state 0)
        end
    end
  else ret tt.

Definition play_turn : M W unit :=
  bots ← query (get_team_bot_ids ctl);
  match bots with
  | [] => ret tt
  | bot_id :: _ =>
      rank_and_log;;
      modify_self (set_my_bot_id bot_id);;
      bot ← query (fun w => get_bot_state ctl w bot_id);
      let bx := bot_x bot in
      let by_ := bot_y bot in
      b ← get_self;
      counter ← match assembly_counter b with
                 | None => nearest bx by_ "COUNTER"
                 | Some c => ret (Some c)
                 end;
      cooker ← match cooker_loc b with
                | None => nearest bx by_ "COOKER"
                | Some k => ret (Some k)
                end;
      modify_self (set_locations counter cooker);;
      match counter, cooker with
      | Some c, Some k => fsm bot_id bx by_ (holding bot) c.1 c.2 k.1 k.2
      | _, _ => ret tt
      end
  end.
End turn.

(** A turn started with an empty record of calls and output. *)
Definition start_turn {W} (b : BotPlayer) (w : W) : Run W :=
  {| self := b; world := w; trace := []; stdout := [] |}.

End duo_noodle_bot.

(** * Specification-side definitions

    What the specification says, in its own words, to be compared with the
    embedding of the source above. *)

Module spec.
Import order_priority.

(** A three-way comparison that behaves as a total preorder. *)
Record total_cmp {A : Type} (cmp : A -> A -> comparison) : Prop := {
  cmp_antisym : forall a b, cmp b a = CompOpp (cmp a b);
  cmp_eq_l : forall a b c, cmp a b = Eq -> cmp a c = cmp b c;
  cmp_lt_trans : forall a b c, cmp a b = Lt -> cmp b c = Lt -> cmp a c = Lt }.

(** ** Ranking *)

(** An order passes the four filters of the specification. *)
Definition eligible (wt : Weights) (current_turn : Z) (o : Order) : bool :=
  bool_decide (completed_turn o = None)
  && (allow_inactive wt || default false (is_active o))
  && (allow_claimed wt || bool_decide (claimed_by o = None))
  && (0 <=? expires_turn o - current_turn).

(** The score of the specification, with the mathematical [max]. *)
Definition spec_score (gc : GameConstants) (wt : Weights) (current_turn : Z)
    (o : Order) : Q :=
  let turns_left := expires_turn o - current_turn in
  let estimated_prep :=
    _estimate_prep_turns gc (default [] (required o))
      (prep_time_by_food wt) (default_prep_time wt) in
  let slack := (inject_Z turns_left - estimated_prep)%Q in
  let value := (default 0 (reward o) + default 0 (penalty o))%Q in
  let value_rate := (value / Qmax estimated_prep 1)%Q in
  let urgency := (1 / inject_Z (Z.max turns_left 1))%Q in
  let slack_score := (1 / (1 + Qmax slack 0))%Q in
  let overdue_penalty := Qmax 0 (- slack)%Q in
  if default false (is_active o) then
    (value_weight wt * value_rate + urgency_weight wt * urgency
     + slack_weight wt * slack_score - overdue_penalty)%Q
  else
    (- activation_weight wt
     * inject_Z (Z.max 0 (default current_turn (created_turn o) - current_turn)))%Q.

(** The order on sort keys: [a] is lexicographically greater than [b], and
    greater or equal. *)
Definition key_gt (a b : Q * Z * Z * Z) : Prop := key_compare a b = Gt.
Definition key_ge (a b : Q * Z * Z * Z) : Prop := key_compare a b ≠ Lt.

Definition ge_order (a b : ScoredOrder) : Prop :=
  key_ge (sort_key a) (sort_key b).

(** ** Routing *)

Import duo_noodle_bot.

Definition shift (c d : Cell) : Cell := (c.1 + d.1, c.2 + d.2).

Section routing.
Variables (w h : Z).
Variable walkable : Z -> Z -> bool.
Variable tile_at : Z -> Z -> option Tile.
Variable target_predicate : Z -> Z -> option Tile -> bool.
Variable start : Cell.

(** A cell that a route may enter: inside the bounds and walkable. *)
Definition enterable (c : Cell) : Prop :=
  in_bounds w h c = true /\ walkable c.1 c.2 = true.

(** The cells reachable from [start] by unit moves through enterable
    cells; [start] itself is reachable whatever it is. *)
Inductive reachable : Cell -> Prop :=
| reach_start : reachable start
| reach_move c d :
    reachable c -> d ∈ DIRS -> enterable (shift c d) -> reachable (shift c d).

Definition is_goal (c : Cell) : Prop :=
  target_predicate c.1 c.2 (tile_at c.1 c.2) = true.

(** *** The loop invariant of the search *)

(** The first move recorded for a queued cell. *)
Definition first_move_ok (c : Cell) (path : list Cell) : Prop :=
  match path with
  | [] => c = start
  | d :: _ => d ∈ DIRS /\ enterable (shift start d)
  end.

Record bfs_inv (queue : list (Cell * list Cell)) (visited : gset Cell) : Prop := {
  inv_start : start ∈ visited;
  inv_reach : forall c, c ∈ visited -> reachable c;
  inv_closed : forall c, c ∈ visited ->
    c ∈ queue.*1 \/
    (~ is_goal c /\ forall d, d ∈ DIRS -> enterable (shift c d) -> shift c d ∈ visited);
  inv_queue : forall c p, (c, p) ∈ queue -> c ∈ visited /\ first_move_ok c p }.

(** The grid cells, and how many of them are not visited yet. *)
Definition grid_cells : list Cell := list_prod (seqZ 0 w) (seqZ 0 h).

Definition unvisited (visited : gset Cell) : nat :=
  length (filter (fun c => c ∉ visited) grid_cells).
End routing.

(** ** The state machine *)

(** The calls whose answer the pipeline states do not look at. *)
Definition ignores_answer (a : Action) : bool :=
  match a with
  | place _ _ _ | take_from_pan _ _ _ => true
  | _ => false
  end.

(** Where the state stands after such a call. *)
Definition after_unchecked (st : Z) : Z :=
  if st =? 1 then 2 else if st =? 3 then 4 else if st =? 6 then 8
  else if st =? 9 then 10 else if st =? 12 then 13 else st.

(** Two bots agree on every field except the order bookkeeping
    ([current_order_id] and the two sets of seen ids). *)
Definition same_pipeline (b1 b2 : BotPlayer) : Prop :=
  state b1 = state b2 /\ map b1 = map b2 /\
  assembly_counter b1 = assembly_counter b2 /\ cooker_loc b1 = cooker_loc b2 /\
  my_bot_id b1 = my_bot_id b2 /\
  has_printed_priority b1 = has_printed_priority b2.

End spec.

(** * Sample data

    Concrete constants, orders and kitchens on which the definitions are
    evaluated. *)

Module sample.
Import order_priority duo_noodle_bot.

Definition food (name : string) (chop cook : bool) (cost : Z) : FoodType :=
  {| food_name := name; can_chop := chop; can_cook := cook; buy_cost := cost |}.

Definition constants : GameConstants :=
  {| food_types := [food "EGG" false true 20; food "ONIONS" true false 30;
                    food "MEAT" true true 80; food "NOODLES" false false 40;
                    food "SAUCE" false false 10];
     COOK_PROGRESS := 20;
     MEAT := food "MEAT" true true 80;
     NOODLES := food "NOODLES" false false 40;
     PAN_buy_cost := 4;
     PLATE_buy_cost := 2 |}.

(** An order active from its creation, unclaimed and not completed. *)
Definition order (id : Z) (req : list string) (rew pen : Q) (created expires : Z)
    (active : bool) : Order :=
  {| order_id := id; required := Some req; reward := Some rew;
     penalty := Some pen; created_turn := Some created; expires_turn := expires;
     is_active := Some active; claimed_by := None; completed_turn := None |}.

Definition noodles_order : Order := order 1 ["NOODLES"; "MEAT"] 100 10 0 60 true.
Definition sauce_order : Order := order 2 ["SAUCE"] 20 5 0 30 true.
Definition later_order : Order := order 3 ["EGG"] 50 5 15 90 false.

Definition done_order : Order :=
  {| order_id := 4; required := Some ["EGG"]; reward := Some 50%Q;
     penalty := Some 5%Q; created_turn := Some 0; expires_turn := 40;
     is_active := Some true; claimed_by := None; completed_turn := Some 3 |}.

(** Two snapshots of one pending order (same id, same turns): their sort
    keys are equal. *)
Definition pending_a : Order := order 7 ["EGG"] 50 5 12 90 false.
Definition pending_b : Order := order 7 ["EGG"] 60 5 12 90 false.

Definition weights_all : Weights :=
  {| prep_time_by_food := None; default_prep_time := 1;
     value_weight := 1; urgency_weight := 1; slack_weight := 1;
     activation_weight := 1; allow_inactive := true; allow_claimed := false |}.

(** The same, with a negative activation weight. *)
Definition weights_negative : Weights :=
  {| prep_time_by_food := None; default_prep_time := 1;
     value_weight := 1; urgency_weight := 1; slack_weight := 1;
     activation_weight := (-1); allow_inactive := true; allow_claimed := false |}.

(** ** A kitchen

    A 5 x 3 grid.  The top row holds the stations, the two rows below are
    floor: only floor is walkable.

      y = 0 :  COUNTER  COOKER  SHOP  SUBMIT  TRASH
      y = 1 :  floor ...
      y = 2 :  floor ...

    [kitchen_map false] is the same grid with a wall in place of the shop. *)

Definition station (shop : bool) (x : Z) : string :=
  if x =? 0 then "COUNTER"
  else if x =? 1 then "COOKER"
  else if x =? 2 then (if shop then "SHOP" else "WALL")
  else if x =? 3 then "SUBMIT"
  else "TRASH".

Definition kitchen_map (shop : bool) : Map :=
  {| width := 5; height := 3;
     tiles := fun x y =>
       {| tile_name := if y =? 0 then station shop x else "FLOOR"; item := None |};
     is_tile_walkable := fun x y => 1 <=? y |}.

(** The world of a small engine: one bot (id 0), the items lying on the
    tiles, and the answers it will give to the mutating calls. *)
Record Kitchen := {
  k_map : Map;
  k_bot : BotState;
  k_money : Z;
  k_turn : Z;
  k_orders : list Order;
  k_items : Z -> Z -> option Item;
  k_answer : Action -> bool }.

Definition move_bot (dx dy : Z) (k : Kitchen) : Kitchen :=
  {| k_map := k_map k;
     k_bot := {| bot_x := bot_x (k_bot k) + dx; bot_y := bot_y (k_bot k) + dy;
                 holding := holding (k_bot k) |};
     k_money := k_money k; k_turn := k_turn k; k_orders := k_orders k;
     k_items := k_items k; k_answer := k_answer k |}.

(** A successful move displaces the bot; the other calls only answer. *)
Definition engine : RobotController Kitchen :=
  {| get_team_bot_ids := fun _ => [0];
     get_orders := k_orders;
     get_turn := k_turn;
     get_bot_state := fun k _ => k_bot k;
     get_tile := fun k x y =>
       if in_bounds (width (k_map k)) (height (k_map k)) (x, y)
       then Some {| tile_name := tile_name (tiles (k_map k) x y);
                    item := k_items k x y |}
       else None;
     get_map := k_map;
     get_team_money := k_money;
     perform := fun a k =>
       match a with
       | move _ dx dy => (k_answer k a, if k_answer k a then move_bot dx dy k else k)
       | _ => (k_answer k a, k)
       end |}.

Definition kitchen (shop : bool) (x y : Z) (held : option Item)
    (items : Z -> Z -> option Item) (answer : Action -> bool) : Kitchen :=
  {| k_map := kitchen_map shop;
     k_bot := {| bot_x := x; bot_y := y; holding := held |};
     k_money := 200; k_turn := 10;
     k_orders := [noodles_order; later_order; done_order];
     k_items := items; k_answer := answer |}.

Definition nothing : Z -> Z -> option Item := fun _ _ => None.

(** A pan on the cooker holding food at the given cooked stage. *)
Definition pan_on_cooker (stage : Z) : Z -> Z -> option Item :=
  fun x y => if (x =? 1) && (y =? 0)
             then Some (Pan (Some {| cooked_stage := stage |}))
             else None.

Definition yes : Action -> bool := fun _ => true.
Definition no : Action -> bool := fun _ => false.

(** A bot that has resolved its two stations and is in state [n]. *)
Definition bot_in_state (shop : bool) (n : Z) : BotPlayer :=
  set_state n (set_locations (Some (0, 0)) (Some (1, 0)) (__init__ (kitchen_map shop))).

End sample.


(** * Further specification-side definitions *)

Module props.
Import order_priority duo_noodle_bot spec.

(** ** Ranking *)

(** The entries whose sort key equals [k]. *)
Definition key_eqb (k : Q * Z * Z * Z) (s : ScoredOrder) : bool :=
  match key_compare (sort_key s) k with
  | Eq => true
  | _ => false
  end.

(** ** Routing *)

Section routes.
Variables (w h : Z).
Variable walkable : Z -> Z -> bool.
Variable start : Cell.

(** [walk c p]: the moves [p], made one after the other from [start], pass
    through enterable cells only and end in [c]. *)
Inductive walk : Cell -> list Cell -> Prop :=
| walk_nil : walk start []
| walk_snoc c p d :
    walk c p -> d ∈ DIRS -> enterable w h walkable (shift c d) ->
    walk (shift c d) (p ++ [d]).

(** The queue holds shortest routes, ordered by length, of the length of its
    first entry or one more; every cell that a route of at most that length
    reaches has been visited. *)
Record bfs_level (queue : list (Cell * list Cell)) (visited : gset Cell) : Prop := {
  lvl_walk : forall c p, (c, p) ∈ queue -> walk c p;
  lvl_short : forall c p p', (c, p) ∈ queue -> walk c p' ->
    (length p <= length p')%nat;
  lvl_sorted : forall c p rest, queue = (c, p) :: rest ->
    exists q1 q2, rest = q1 ++ q2 /\
      Forall (fun e => length e.2 = length p) q1 /\
      Forall (fun e => length e.2 = S (length p)) q2;
  lvl_seen : forall c p rest, queue = (c, p) :: rest ->
    forall c' p', walk c' p' -> (length p' <= length p)%nat -> c' ∈ visited }.
End routes.

(** ** The state machine *)

(** What a shop item costs. *)
Definition item_cost (gc : GameConstants) (it : ShopItem) : Z :=
  match it with
  | ShopPan => PAN_buy_cost gc
  | ShopPlate => PLATE_buy_cost gc
  | ShopFood ft => buy_cost ft
  end.

(** The tile a call acts on; a move has none. *)
Definition target (a : Action) : option Cell :=
  match a with
  | move _ _ _ => None
  | buy _ _ x y | place _ x y | chop _ x y | pickup _ x y
  | add_food_to_plate _ x y | take_from_pan _ x y | submit _ x y
  | trash _ x y => Some (x, y)
  end.

(** The bot a call is made for. *)
Definition actor (a : Action) : Z :=
  match a with
  | move i _ _ | buy i _ _ _ | place i _ _ | chop i _ _ | pickup i _ _
  | add_food_to_plate i _ _ | take_from_pan i _ _ | submit i _ _
  | trash i _ _ => i
  end.

(** The calls after whose success a pipeline state moves on. *)
Definition advancing (a : Action) : bool :=
  match a with
  | buy _ _ _ _ | chop _ _ _ | pickup _ _ _ | add_food_to_plate _ _ _
  | submit _ _ _ => true
  | _ => false
  end.

(** The sixteen states of the chain; 7 and 16 are not among them. *)
Definition pipeline_states : list Z :=
  [0; 1; 2; 3; 4; 5; 6; 8; 9; 10; 11; 12; 13; 14; 15; 17].

(** The states that can follow a state within one turn, besides itself. *)
Definition successors (st : Z) : list Z :=
  if st =? 0 then [1; 2] else if st =? 1 then [2] else if st =? 2 then [3]
  else if st =? 3 then [4] else if st =? 4 then [5] else if st =? 5 then [6]
  else if st =? 6 then [8] else if st =? 8 then [9] else if st =? 9 then [10]
  else if st =? 10 then [11] else if st =? 11 then [12] else if st =? 12 then [13]
  else if st =? 13 then [14] else if st =? 14 then [15] else if st =? 15 then [17]
  else if st =? 17 then [0] else [].

(** The state after a successful [advancing] call. *)
Definition after_success (st : Z) : Z :=
  if st =? 2 then 3 else if st =? 4 then 5 else if st =? 5 then 6
  else if st =? 8 then 9 else if st =? 10 then 11 else if st =? 11 then 12
  else if st =? 13 then 14 else if st =? 14 then 15 else if st =? 15 then 17
  else st.

(** The station used by a turn: the cached one, else the nearest found. *)
Definition station_of (cached : option Cell) (m : Map) (bx by_ : Z)
    (name : string) : option Cell :=
  match cached with
  | None => find_nearest_tile m bx by_ name
  | Some c => Some c
  end.

End props.

(** * Further sample data *)

Module sample_more.
Import order_priority duo_noodle_bot sample.

(** The sauce order of [sample] with a higher reward. *)
Definition dear_sauce_order : Order := order 5 ["SAUCE"] 30 5 0 30 true.



End sample_more.


(** * The turn on order dictionaries

    The modules [order_priority] and [duo_noodle_bot] above read an order as
    a record: the two keys that the source indexes directly are there, and
    an amount is already a float.  On the dictionaries of
    [controller.get_orders()] three more things can happen, all of them in
    lines 93-142 of [play_turn], before the first station is looked up:

    - [order["expires_turn"]] (order_priority.py, line 69) raises [KeyError]
      when the key is absent;
    - an operation that converts an [int] to [float] raises [OverflowError]
      when the integer is too large for a double: [float(...)] at lines 77
      and 101, and the mixed arithmetic of lines 75, 79 and 92;
    - [selected["order_id"]] (duo_noodle_bot.py, line 142) raises [KeyError]
      when the chosen entry has no id.

    This module embeds the same lines once more, on dictionaries and with
    these three paths.  The float arithmetic itself stays exact, as above.
    On dictionaries that raise nowhere the two readings agree: the turn on
    dictionaries is the turn on their records ([dict_turn_refines]). *)

Module dicts.
Import order_priority duo_noodle_bot.

(** Sequencing of computations that may raise. *)
#[global] Instance res_ret : MRet res := @Ok.
#[global] Instance res_bind : MBind res :=
  fun A B k m => match m with Ok a => k a | Raise e => Raise e end.

(** ** int to float

    The largest double is [2^1024 - 2^971].  Conversion rounds to nearest,
    ties to even, so every integer of magnitude [2^1024 - 2^970] or more
    would round to [2^1024]: the conversion raises [OverflowError]. *)
Definition float_limit : Z := 2 ^ 1024 - 2 ^ 970.

Definition float_of_int (n : Z) : res Q :=
  if Z.abs n <? float_limit then Ok (inject_Z n) else Raise OverflowError.

(** ** order_priority.py *)

(** One round of the loop over [FoodType] (lines 15-23, and lines 95-103 of
    the bot): [float(prep_time)] is evaluated before the table is written. *)
Definition add_prep_time (gc : GameConstants)
    (tbl : gmap string Q) (ft : FoodType) : res (gmap string Q) :=
  t ← float_of_int (prep_time_of gc ft);
  let tbl1 := <[food_name ft := t]> tbl in
  mret (if String.eqb (food_name ft) "ONIONS" then <["ONION" := t]> tbl1 else tbl1).

Fixpoint build_prep_table (gc : GameConstants) (tbl : gmap string Q)
    (fts : list FoodType) : res (gmap string Q) :=
  match fts with
  | [] => mret tbl
  | ft :: rest =>
      tbl' ← add_prep_time gc tbl ft;
      build_prep_table gc tbl' rest
  end.

Definition _build_default_prep_time_by_food (gc : GameConstants)
    : res (gmap string Q) :=
  build_prep_table gc ∅ (food_types gc).

Definition _estimate_prep_turns (gc : GameConstants) (required : list string)
    (prep_time_by_food : option (gmap string Q)) (default_prep_time : Q) : res Q :=
  tbl ← match prep_time_by_food with
         | None => _build_default_prep_time_by_food gc
         | Some t => mret t
         end;
  mret (sumQ (List.map (fun food => default default_prep_time (tbl !! food)) required)).

(** One iteration of the [for order in orders] loop (lines 60-102):
    [Ok None] is [continue], [Ok (Some s)] is the dictionary appended.

    [time_left] meets a float at line 75 ([time_left - estimated_prep]) when
    the sum is a float, and at line 79 in any case; both raise the same
    exception for the same integers and nothing is written in between. *)
Definition score_order (gc : GameConstants) (wt : Weights) (current_turn : Z)
    (order : OrderDict) : res (option ScoredDict) :=
  if bool_decide (od_completed_turn order ≠ None) then mret None else
  let active := default false (od_is_active order) in
  if negb (allow_inactive wt) && negb active then mret None else
  if negb (allow_claimed wt) && bool_decide (od_claimed_by order ≠ None)
  then mret None else
  match od_expires_turn order with
  | None => Raise (KeyError "expires_turn")
  | Some expires_turn =>
      let time_left := expires_turn - current_turn in
      if time_left <? 0 then mret None else
      let req := default [] (od_required order) in
      est ← _estimate_prep_turns gc req (prep_time_by_food wt) (default_prep_time wt);
      tl ← float_of_int time_left;
      let slk := (tl - est)%Q in
      r ← float_of_int (default 0 (od_reward order));
      p ← float_of_int (default 0 (od_penalty order));
      let value := (r + p)%Q in
      let value_rate := (value / py_maxQ est 1)%Q in
      u ← float_of_int (py_maxZ time_left 1);
      let urgency := (1 / u)%Q in
      let slack_score := (1 / (1 + py_maxQ slk 0))%Q in
      let overdue_penalty := py_maxQ 0 (- slk)%Q in
      score ←
        (if active then
           mret (value_weight wt * value_rate + urgency_weight wt * urgency
                 + slack_weight wt * slack_score - overdue_penalty)%Q
         else
           let turns_until_active :=
             py_maxZ 0 (default current_turn (od_created_turn order) - current_turn) in
           t ← float_of_int turns_until_active;
           mret (- activation_weight wt * t)%Q);
      mret (Some {| sd_order := order; sd_priority_score := score;
                    sd_turns_left := time_left; sd_estimated_prep := est;
                    sd_slack := slk |})
  end.

(** The loop: the first dictionary that raises ends it. *)
Fixpoint prioritize (gc : GameConstants) (wt : Weights) (current_turn : Z)
    (orders : list OrderDict) : res (list ScoredDict) :=
  match orders with
  | [] => mret []
  | order :: rest =>
      s ← score_order gc wt current_turn order;
      l ← prioritize gc wt current_turn rest;
      mret (match s with None => l | Some e => e :: l end)
  end.

(** The sort key, with the defaults of [o.get("created_turn", 0)] and
    [o.get("order_id", 0)]. *)
Definition sort_key (o : ScoredDict) : Q * Z * Z * Z :=
  (sd_priority_score o, - sd_turns_left o,
   default 0 (od_created_turn (sd_order o)),
   default 0 (od_order_id (sd_order o))).

Fixpoint insert_desc (x : ScoredDict) (l : list ScoredDict) : list ScoredDict :=
  match l with
  | [] => [x]
  | y :: l' =>
      match key_compare (sort_key y) (sort_key x) with
      | Gt => y :: insert_desc x l'
      | _ => x :: y :: l'
      end
  end.

Definition sort_desc (l : list ScoredDict) : list ScoredDict :=
  foldr insert_desc [] l.

Definition build_order_priority_queue (gc : GameConstants)
    (orders : list OrderDict) (current_turn : Z) (wt : Weights)
    : res (list ScoredDict) :=
  l ← prioritize gc wt current_turn orders;
  mret (sort_desc l).

(** ** duo_noodle_bot.py *)

(** A computation that touches neither the bot nor the world. *)
Definition lift {W A} (x : res A) : M W A := fun r => (x, r).

(** The keyword arguments of lines 104-115 around the table just built. *)
Definition dict_weights (tbl : gmap string Q) : Weights :=
  {| prep_time_by_food := Some tbl;
     default_prep_time := 1; value_weight := 2; urgency_weight := 2;
     slack_weight := 3 # 2; activation_weight := 1;
     allow_inactive := true; allow_claimed := false |}.

(** [order.get("order_id")] and [order.get("is_active")] on an entry. *)
Definition entry_id (o : ScoredDict) : option Z := od_order_id (sd_order o).

Definition entry_active (o : ScoredDict) : bool :=
  default false (od_is_active (sd_order o)).

(** Lines 137-139 write the print flag and the two sets; line 142 writes
    [current_order_id]. *)
Definition set_seen (printed : bool) (seen seen_active : gset Z)
    (b : BotPlayer) : BotPlayer :=
  set_order_fields printed seen seen_active (current_order_id b) b.

Definition set_current_order_id (cur : option Z) (b : BotPlayer) : BotPlayer :=
  set_order_fields (has_printed_priority b) (seen_order_ids b)
    (seen_active_order_ids b) cur b.

Section turn.
Context {W : Type}.
Variable gc : GameConstants.
Variable ctl : RobotController W.
(** [controller.get_orders()], as dictionaries; [get_orders ctl] is not read. *)
Variable get_order_dicts : W -> list OrderDict.

(** Lines 93-142. *)
Definition rank_and_log : M W unit :=
  orders ← query get_order_dicts;
  tbl ← lift (_build_default_prep_time_by_food gc);
  turn ← query (get_turn ctl);
  prioritized ← lift (build_order_priority_queue gc orders turn (dict_weights tbl));
  b ← get_self;
  let current_ids : gset Z := list_to_set (omap entry_id prioritized) in
  let current_active_ids : gset Z :=
    list_to_set (omap entry_id (List.filter entry_active prioritized)) in
  let is_first_print := negb (has_printed_priority b) in
  let has_new_orders := bool_decide (current_ids ∖ seen_order_ids b ≠ ∅) in
  let has_new_active :=
    bool_decide (current_active_ids ∖ seen_active_order_ids b ≠ ∅) in
  let printing :=
    is_first_print || (has_new_orders && (0 <? turn)) || has_new_active in
  (if printing
   then print (queue_header is_first_print turn :: (queue_dict_entry <$> prioritized))
   else ret tt);;
  modify_self (set_seen
                 (if printing then true else has_printed_priority b)
                 (seen_order_ids b ∪ current_ids)
                 (seen_active_order_ids b ∪ current_active_ids));;
  let active_order := List.find entry_active prioritized in
  let selected := match active_order with
                  | Some o => Some o
                  | None => head prioritized
                  end in
  match selected with
  | None => modify_self (set_current_order_id None)
  | Some o =>
      match entry_id o with
      | Some i => modify_self (set_current_order_id (Some i))
      | None => raise (KeyError "order_id")
      end
  end.

(** Lines 144-298: the stations and the FSM step, as in
    [duo_noodle_bot.play_turn]. *)
Definition stations_and_fsm (bot_id : Z) : M W unit :=
  modify_self (set_my_bot_id bot_id);;
  bot ← query (fun w => get_bot_state ctl w bot_id);
  let bx := bot_x bot in
  let by_ := bot_y bot in
  b ← get_self;
  counter ← match assembly_counter b with
             | None => nearest ctl bx by_ "COUNTER"
             | Some c => ret (Some c)
             end;
  cooker ← match cooker_loc b with
            | None => nearest ctl bx by_ "COOKER"
            | Some k => ret (Some k)
            end;
  modify_self (set_locations counter cooker);;
  match counter, cooker with
  | Some c, Some k => fsm gc ctl bot_id bx by_ (holding bot) c.1 c.2 k.1 k.2
  | _, _ => ret tt
  end.

Definition play_turn : M W unit :=
  bots ← query (get_team_bot_ids ctl);
  match bots with
  | [] => ret tt
  | bot_id :: _ => rank_and_log;; stations_and_fsm bot_id
  end.
End turn.

End dicts.

(** * Specification-side definitions for dictionaries *)

Module dict_spec.
Import order_priority duo_noodle_bot.

(** The dictionary passes the first three filters: it is not completed, it
    is active or inactive orders are allowed, it is unclaimed or claimed
    orders are allowed. *)
Definition passes (wt : Weights) (o : OrderDict) : bool :=
  bool_decide (od_completed_turn o = None)
  && (allow_inactive wt || default false (od_is_active o))
  && (allow_claimed wt || bool_decide (od_claimed_by o = None)).

(** It has an expiry turn that is not in the past. *)
Definition in_time (current_turn : Z) (o : OrderDict) : bool :=
  match od_expires_turn o with
  | Some e => 0 <=? e - current_turn
  | None => false
  end.

(** An integer that no double is near enough to. *)
Definition too_large (n : Z) : bool := dicts.float_limit <=? Z.abs n.

(** One of the integers that the scoring turns into a float is too large:
    the turns left, the reward, the penalty or, for an order that is not
    active, the turns until it is. *)
Definition overflows (current_turn : Z) (o : OrderDict) : bool :=
  too_large (default current_turn (od_expires_turn o) - current_turn)
  || too_large (default 0 (od_reward o))
  || too_large (default 0 (od_penalty o))
  || (negb (default false (od_is_active o))
      && too_large (py_maxZ 0 (default current_turn (od_created_turn o)
                               - current_turn))).

(** A dictionary that the ranking pass handles without raising, whichever
    entry it goes on to select: it is filtered out, or it has its expiry
    turn and its id and none of its integers is too large. *)
Definition well_formed (wt : Weights) (current_turn : Z) (o : OrderDict) : bool :=
  negb (passes wt o)
  || match od_expires_turn o with
     | None => false
     | Some e =>
         (e - current_turn <? 0)
         || (negb (overflows current_turn o)
             && bool_decide (od_order_id o ≠ None))
     end.

(** The record read off a dictionary; the defaults stand in for the two
    indexed keys where they are absent. *)
Definition as_record (o : OrderDict) : Order :=
  {| order_id := default 0 (od_order_id o);
     required := od_required o;
     reward := inject_Z <$> od_reward o;
     penalty := inject_Z <$> od_penalty o;
     created_turn := od_created_turn o;
     expires_turn := default 0 (od_expires_turn o);
     is_active := od_is_active o;
     claimed_by := od_claimed_by o;
     completed_turn := od_completed_turn o |}.

Definition as_scored (s : ScoredDict) : ScoredOrder :=
  {| so_order := as_record (sd_order s);
     priority_score := sd_priority_score s;
     turns_left := sd_turns_left s;
     estimated_prep := sd_estimated_prep s;
     slack := sd_slack s |}.

Definition as_line (l : Line) : Line :=
  match l with
  | queue_dict_entry s => queue_entry (as_scored s)
  | _ => l
  end.

(** The outcome of a turn: how it ended, the calls made, the world left and
    the bot. *)
Definition same_outcome {W} (o1 o2 : res unit * Run W) : Prop :=
  o1.1 = o2.1 /\ trace o1.2 = trace o2.2 /\ world o1.2 = world o2.2 /\
  spec.same_pipeline (self o1.2) (self o2.2).

End dict_spec.

(** * Sample dictionaries *)

Module sample_dicts.
Import order_priority duo_noodle_bot sample.

(** An unclaimed order that is not completed, every key present. *)
Definition order_dict (id : Z) (req : list string) (rew pen : Z)
    (created expires : Z) (active : bool) : OrderDict :=
  {| od_order_id := Some id; od_required := Some req; od_reward := Some rew;
     od_penalty := Some pen; od_created_turn := Some created;
     od_expires_turn := Some expires; od_is_active := Some active;
     od_claimed_by := None; od_completed_turn := None |}.

Definition noodles_dict : OrderDict := order_dict 1 ["NOODLES"; "MEAT"] 100 10 0 60 true.
Definition later_dict : OrderDict := order_dict 3 ["EGG"] 50 5 15 90 false.

(** An order whose reward is [10 ** 400]. *)
Definition huge_reward_dict : OrderDict :=
  order_dict 8 ["SAUCE"] (10 ^ 400) 5 0 60 true.

(** An order without the key ["expires_turn"]. *)
Definition no_expiry_dict : OrderDict :=
  {| od_order_id := Some 9; od_required := Some ["SAUCE"]; od_reward := Some 20;
     od_penalty := Some 5; od_created_turn := Some 0;
     od_expires_turn := None; od_is_active := Some true;
     od_claimed_by := None; od_completed_turn := None |}.

(** An order without the key ["order_id"]. *)
Definition no_id_dict : OrderDict :=
  {| od_order_id := None; od_required := Some ["SAUCE"]; od_reward := Some 20;
     od_penalty := Some 5; od_created_turn := Some 0;
     od_expires_turn := Some 30; od_is_active := Some true;
     od_claimed_by := None; od_completed_turn := None |}.

(** The same, completed: the first filter drops it. *)
Definition no_expiry_done_dict : OrderDict :=
  {| od_order_id := Some 9; od_required := Some ["SAUCE"]; od_reward := Some 20;
     od_penalty := Some 5; od_created_turn := Some 0;
     od_expires_turn := None; od_is_active := Some true;
     od_claimed_by := None; od_completed_turn := Some 4 |}.

End sample_dicts.

(** * Properties of the ranking (order_priority.py) *)

Section comparisons.
Import spec.
Context {A B : Type} (cA : A -> A -> comparison) (cB : B -> B -> comparison).

Lemma total_cmp_eq_r :
  total_cmp cA -> forall a b c, cA b c = Eq -> cA a b = cA a c.
Proof.
  intros H a b c Hbc.
  rewrite (cmp_antisym _ H b a), (cmp_antisym _ H c a).
  f_equal. symmetry. apply (cmp_eq_l _ H).
  rewrite (cmp_antisym _ H), Hbc. reflexivity.
Qed.

Lemma total_cmp_lex :
  total_cmp cA -> total_cmp cB ->
  total_cmp (fun x y : A * B => lex (cA x.1 y.1) (cB x.2 y.2)).
Proof.
  intros HA HB. split.
  - intros [a1 b1] [a2 b2]. simpl.
    rewrite (cmp_antisym _ HA a1 a2), (cmp_antisym _ HB b1 b2).
    destruct (cA a1 a2); reflexivity.
  - intros [a1 b1] [a2 b2] [a3 b3]. simpl. unfold lex at 1.
    destruct (cA a1 a2) eqn:E; try discriminate. intros Hb.
    rewrite (cmp_eq_l _ HA _ _ a3 E), (cmp_eq_l _ HB _ _ b3 Hb). reflexivity.
  - intros [a1 b1] [a2 b2] [a3 b3]. simpl. unfold lex.
    destruct (cA a1 a2) eqn:E12; try discriminate;
      destruct (cA a2 a3) eqn:E23; try discriminate; intros H1 H2.
    + rewrite (cmp_eq_l _ HA _ _ a3 E12), E23. eapply (cmp_lt_trans _ HB); eauto.
    + rewrite (cmp_eq_l _ HA _ _ a3 E12), E23. reflexivity.
    + rewrite (total_cmp_eq_r HA a1 a2 a3 E23) in E12. rewrite E12. reflexivity.
    + rewrite (cmp_lt_trans _ HA _ _ _ E12 E23). reflexivity.
Qed.

Lemma total_cmp_on (f : B -> A) :
  total_cmp cA -> total_cmp (fun x y => cA (f x) (f y)).
Proof.
  intros HA. split; intros.
  - apply (cmp_antisym _ HA).
  - apply (cmp_eq_l _ HA); assumption.
  - eapply (cmp_lt_trans _ HA); eassumption.
Qed.

Lemma total_cmp_ge_trans :
  total_cmp cA -> forall a b c, cA a b <> Lt -> cA b c <> Lt -> cA a c <> Lt.
Proof.
  intros HA a b c Hab Hbc Hac.
  destruct (cA a b) eqn:E1; try congruence.
  - rewrite (cmp_eq_l _ HA _ _ c E1) in Hac. congruence.
  - destruct (cA b c) eqn:E2; try congruence.
    + rewrite <- (total_cmp_eq_r HA a b c E2) in Hac. congruence.
    + assert (Hcb : cA c b = Lt) by (rewrite (cmp_antisym _ HA), E2; reflexivity).
      assert (Hba : cA b a = Lt) by (rewrite (cmp_antisym _ HA), E1; reflexivity).
      pose proof (cmp_lt_trans _ HA _ _ _ Hcb Hba) as Hca.
      rewrite (cmp_antisym _ HA), Hca in Hac. discriminate.
Qed.
End comparisons.

Lemma Qcompare_total : spec.total_cmp Qcompare.
Proof.
  split.
  - intros a b. symmetry. apply Qcompare_antisym.
  - intros a b c H. apply Qeq_alt in H. rewrite H. reflexivity.
  - intros a b c H1 H2. rewrite <- Qlt_alt in *.
    eapply Qlt_trans; eassumption.
Qed.

Lemma Zcompare_total : spec.total_cmp Z.compare.
Proof.
  split.
  - intros a b. apply Z.compare_antisym.
  - intros a b c H. apply Z.compare_eq_iff in H. subst. reflexivity.
  - intros a b c H1 H2. rewrite Z.compare_lt_iff in *. lia.
Qed.

Section ranking.
Import order_priority spec.

Lemma key_compare_total : total_cmp key_compare.
Proof.
  pose proof (total_cmp_lex _ _ Qcompare_total
                (total_cmp_lex _ _ Zcompare_total
                   (total_cmp_lex _ _ Zcompare_total Zcompare_total))) as H.
  pose proof (total_cmp_on _
                (fun k : Q * Z * Z * Z => (k.1.1.1, (k.1.1.2, (k.1.2, k.2)))) H) as H'.
  split.
  - intros [[[s1 t1] c1] i1] [[[s2 t2] c2] i2].
    exact (cmp_antisym _ H' (s1, t1, c1, i1) (s2, t2, c2, i2)).
  - intros [[[s1 t1] c1] i1] [[[s2 t2] c2] i2] [[[s3 t3] c3] i3].
    exact (cmp_eq_l _ H' (s1, t1, c1, i1) (s2, t2, c2, i2) (s3, t3, c3, i3)).
  - intros [[[s1 t1] c1] i1] [[[s2 t2] c2] i2] [[[s3 t3] c3] i3].
    exact (cmp_lt_trans _ H' (s1, t1, c1, i1) (s2, t2, c2, i2) (s3, t3, c3, i3)).
Qed.

Lemma key_ge_trans a b c : key_ge a b -> key_ge b c -> key_ge a c.
Proof. apply (total_cmp_ge_trans _ key_compare_total). Qed.

Lemma key_ge_flip a b : key_compare b a <> Gt -> key_ge a b.
Proof.
  unfold key_ge. rewrite (cmp_antisym _ key_compare_total b a).
  destruct (key_compare b a); simpl; congruence.
Qed.

Lemma key_compare_refl a : key_compare a a = Eq.
Proof.
  pose proof (cmp_antisym _ key_compare_total a a) as H.
  destruct (key_compare a a); simpl in H; congruence.
Qed.

(** *** The sort *)

Lemma insert_desc_perm x l : insert_desc x l ≡ₚ x :: l.
Proof.
  induction l as [|y l IH]; cbn [insert_desc]; [reflexivity|].
  destruct (key_compare (sort_key y) (sort_key x)); try reflexivity.
  etransitivity; [apply perm_skip, IH|]. apply Permutation_swap.
Qed.

Lemma sort_desc_perm l : sort_desc l ≡ₚ l.
Proof.
  induction l as [|x l IH]; [reflexivity|].
  change (sort_desc (x :: l)) with (insert_desc x (sort_desc l)).
  etransitivity; [apply insert_desc_perm|]. apply perm_skip, IH.
Qed.

Lemma insert_desc_sorted x l :
  StronglySorted ge_order l -> StronglySorted ge_order (insert_desc x l).
Proof.
  induction l as [|y l IH]; cbn [insert_desc]; intros Hs.
  - repeat constructor.
  - apply StronglySorted_inv in Hs as [Hl Hy].
    destruct (key_compare (sort_key y) (sort_key x)) eqn:E.
    + constructor; [constructor; assumption|].
      assert (Hxy : ge_order x y) by (apply key_ge_flip; congruence).
      constructor; [assumption|].
      eapply Forall_impl; [exact Hy|]. intros z Hz. eapply key_ge_trans; eassumption.
    + constructor; [constructor; assumption|].
      assert (Hxy : ge_order x y) by (apply key_ge_flip; congruence).
      constructor; [assumption|].
      eapply Forall_impl; [exact Hy|]. intros z Hz. eapply key_ge_trans; eassumption.
    + constructor; [apply IH; assumption|].
      eapply Permutation_Forall; [symmetry; apply insert_desc_perm|].
      constructor; [|assumption].
      unfold ge_order, key_ge. congruence.
Qed.

Lemma sort_desc_sorted l : StronglySorted ge_order (sort_desc l).
Proof.
  induction l as [|x l IH]; [constructor|].
  change (sort_desc (x :: l)) with (insert_desc x (sort_desc l)).
  apply insert_desc_sorted, IH.
Qed.

Lemma strongly_sorted_lookup (l : list ScoredOrder) (i j : nat) a b :
  StronglySorted ge_order l -> (i < j)%nat ->
  l !! i = Some a -> l !! j = Some b -> ge_order a b.
Proof.
  intros Hs. revert i j. induction Hs as [|x l Hs IH Hx]; intros i j Hij Hi Hj.
  - rewrite lookup_nil in Hi. discriminate.
  - destruct j as [|j]; [lia|]. simpl in Hj.
    destruct i as [|i]; simpl in Hi.
    + injection Hi as <-. rewrite Forall_forall in Hx. apply Hx.
      eapply list_elem_of_lookup_2. exact Hj.
    + apply (IH i j); [lia|assumption|assumption].
Qed.
End ranking.

Section ranking_claims.
Import order_priority spec.
Variable gc : GameConstants.

Lemma py_maxQ_Qmax a b : py_maxQ a b == Qmax a b.
Proof.
  unfold py_maxQ. destruct (Qcompare_spec a b) as [H|H|H].
  - symmetry. apply Q.max_l. rewrite H. apply Qle_refl.
  - symmetry. apply Q.max_r. apply Qlt_le_weak, H.
  - symmetry. apply Q.max_l. apply Qlt_le_weak, H.
Qed.

Lemma py_maxZ_Zmax a b : py_maxZ a b = Z.max a b.
Proof. unfold py_maxZ, Z.max. destruct (a ?= b); reflexivity. Qed.

Lemma prioritize_omap wt ct orders :
  prioritize gc wt ct orders = omap (score_order gc wt ct) orders.
Proof.
  induction orders as [|o l IH]; simpl; [reflexivity|].
  rewrite IH. destruct (score_order gc wt ct o); reflexivity.
Qed.

(** What one iteration of the loop appends, and when it skips. *)
Lemma score_order_Some wt ct o s :
  score_order gc wt ct o = Some s ->
  so_order s = o /\ eligible wt ct o = true /\
  turns_left s = expires_turn o - ct /\
  priority_score s == spec_score gc wt ct o.
Proof.
  unfold score_order, eligible.
  destruct (completed_turn o) as [t|]; [rewrite bool_decide_true by congruence; discriminate|].
  rewrite bool_decide_false by congruence.
  rewrite (bool_decide_true (None = None)) by reflexivity.
  destruct (allow_inactive wt), (default false (is_active o)) eqn:Ha; simpl;
    try discriminate.
  all: destruct (allow_claimed wt), (claimed_by o) as [c|]; simpl;
    rewrite ?(bool_decide_true (Some c ≠ None)) by congruence;
    rewrite ?(bool_decide_false (None ≠ None)) by congruence;
    try discriminate.
  all: destruct (Z.ltb_spec (expires_turn o - ct) 0) as [Hlt|Hge]; try discriminate.
  all: intros [= <-]; simpl.
  all: repeat split; try (apply Z.leb_le; lia).
  all: unfold spec_score; rewrite Ha, ?py_maxZ_Zmax, ?py_maxQ_Qmax; reflexivity.
Qed.



Lemma elem_of_queue wt ct orders s :
  s ∈ build_order_priority_queue gc orders ct wt ->
  exists o, o ∈ orders /\ score_order gc wt ct o = Some s.
Proof.
  unfold build_order_priority_queue. rewrite sort_desc_perm, prioritize_omap.
  rewrite list_elem_of_omap. intros (o & Ho & Hs). eauto.
Qed.
End ranking_claims.

Section ranking_theorems.
Import order_priority spec.

(** C1 (as amended).  The queue is in non-increasing key order: an order
    that precedes another has a lexicographically greater or equal key
    [(priority_score, -turns_left, created_turn, order_id)], an order with
    a strictly greater key always precedes, and for two entries whose keys
    differ, one precedes the other exactly when its key is greater. *)
Theorem queue_sorted_descending gc orders ct wt (i j : nat) a b :
  build_order_priority_queue gc orders ct wt !! i = Some a ->
  build_order_priority_queue gc orders ct wt !! j = Some b ->
  ((i < j)%nat -> key_ge (sort_key a) (sort_key b)) /\
  (key_gt (sort_key a) (sort_key b) -> (i < j)%nat) /\
  (key_compare (sort_key a) (sort_key b) <> Eq ->
   ((i < j)%nat <-> key_gt (sort_key a) (sort_key b))).
Proof.
  intros Hi Hj.
  pose proof (sort_desc_sorted (prioritize gc wt ct orders)) as Hs.
  fold (build_order_priority_queue gc orders ct wt) in Hs.
  assert (Hfwd : (i < j)%nat -> key_ge (sort_key a) (sort_key b)).
  { intros Hij. exact (strongly_sorted_lookup _ i j a b Hs Hij Hi Hj). }
  assert (Hbwd : key_gt (sort_key a) (sort_key b) -> (i < j)%nat).
  { unfold key_gt. intros Hgt.
    destruct (Nat.lt_trichotomy i j) as [Hlt|[Heq|Hgt']]; [assumption| |].
    - subst j. rewrite Hi in Hj. injection Hj as <-.
      rewrite key_compare_refl in Hgt. discriminate.
    - pose proof (strongly_sorted_lookup _ j i b a Hs Hgt' Hj Hi) as Hba.
      unfold ge_order, key_ge in Hba.
      rewrite (cmp_antisym _ key_compare_total), Hgt in Hba. contradiction. }
  split; [assumption|]. split; [assumption|].
  intros Hne. split; [|assumption].
  intros Hij. specialize (Hfwd Hij). unfold key_ge, key_gt in *.
  destruct (key_compare (sort_key a) (sort_key b)); congruence.
Qed.

(** C2 (as amended).  Every entry of the queue carries the score of the
    specification for its order, and the score of an entry that is not
    active is never positive when [activation_weight] is not negative. *)
Theorem queue_score_formula gc orders ct wt s :
  s ∈ build_order_priority_queue gc orders ct wt ->
  priority_score s == spec_score gc wt ct (so_order s) /\
  (default false (is_active (so_order s)) = false ->
   (0 <= activation_weight wt)%Q ->
   (priority_score s <= 0)%Q).
Proof.
  intros Hs. apply elem_of_queue in Hs as (o & _ & Hs).
  apply score_order_Some in Hs as (Ho & _ & _ & Hsc). subst o.
  split; [assumption|].
  intros Hina Hw. rewrite Hsc. unfold spec_score. rewrite Hina.
  set (n := Z.max 0 _).
  assert (Hn : (0 <= inject_Z n)%Q).
  { change 0%Q with (inject_Z 0). rewrite <- Zle_Qle. subst n. lia. }
  assert (Hneg : (- activation_weight wt * inject_Z n
                  == - (activation_weight wt * inject_Z n))%Q) by ring.
  rewrite Hneg.
  apply (Qopp_le_compat 0). apply Qmult_le_0_compat; assumption.
Qed.

End ranking_theorems.

Section ranking_instances.
Import order_priority spec.

(** An instance of C1 (as amended) on three orders. *)
Lemma queue_sorted_descending_witness :
  let q := build_order_priority_queue sample.constants
             [sample.later_order; sample.sauce_order; sample.noodles_order]
             10 sample.weights_all in
  exists a b, q !! 0%nat = Some a /\ q !! 2%nat = Some b /\
    order_id (so_order a) = 2 /\ order_id (so_order b) = 3 /\
    key_ge (sort_key a) (sort_key b).
Proof.
  eexists _, _.
  split; [vm_compute; reflexivity|]. split; [vm_compute; reflexivity|].
  split; [reflexivity|]. split; [reflexivity|].
  refine (proj1 (queue_sorted_descending sample.constants
                   [sample.later_order; sample.sauce_order; sample.noodles_order]
                   10 sample.weights_all 0 2 _ _ _ _) _).
  - vm_compute; reflexivity.
  - vm_compute; reflexivity.
  - lia.
Defined.

(** C1 as stated fails on a tie: of two entries with equal keys one
    precedes the other although its key is not greater. *)
Lemma queue_tie_counterexample :
  let q := build_order_priority_queue sample.constants
             [sample.pending_a; sample.pending_b] 10 sample.weights_all in
  exists a b, q !! 0%nat = Some a /\ q !! 1%nat = Some b /\
    so_order a = sample.pending_a /\ so_order b = sample.pending_b /\
    ~ key_gt (sort_key a) (sort_key b).
Proof.
  eexists _, _.
  split; [vm_compute; reflexivity|]. split; [vm_compute; reflexivity|].
  split; [reflexivity|]. split; [reflexivity|].
  vm_compute. discriminate.
Qed.

(** An instance of C2 (as amended): a pending order, two turns before its
    activation, scores -2 with [activation_weight = 1]. *)
Lemma queue_score_formula_witness :
  exists s,
    s ∈ build_order_priority_queue sample.constants
          [sample.noodles_order; sample.pending_a] 10 sample.weights_all /\
    so_order s = sample.pending_a /\
    priority_score s == spec_score sample.constants sample.weights_all 10
                          (so_order s) /\
    (priority_score s <= 0)%Q.
Proof.
  assert (Hin : {| so_order := sample.pending_a; priority_score := (-(1) * inject_Z 2)%Q;
                   turns_left := 80; estimated_prep := (inject_Z 0 + inject_Z 20)%Q;
                   slack := (inject_Z 80 - (inject_Z 0 + inject_Z 20))%Q |}
                ∈ build_order_priority_queue sample.constants
                    [sample.noodles_order; sample.pending_a] 10 sample.weights_all).
  { apply list_elem_of_lookup. exists 1%nat. vm_compute. reflexivity. }
  eexists. split; [exact Hin|]. split; [reflexivity|].
  destruct (queue_score_formula _ _ _ _ _ Hin) as [Hsc Hle].
  split; [exact Hsc|].
  apply Hle; [reflexivity|vm_compute; discriminate].
Defined.

(** C2 as stated fails for a negative [activation_weight]: the pending
    order then has a positive score. *)
Lemma inactive_score_positive_counterexample :
  exists s,
    s ∈ build_order_priority_queue sample.constants
          [sample.pending_a] 10 sample.weights_negative /\
    default false (is_active (so_order s)) = false /\
    (0 < priority_score s)%Q.
Proof.
  eexists. split; [apply list_elem_of_lookup; exists 0%nat; vm_compute; reflexivity|].
  split; [reflexivity|]. vm_compute. reflexivity.
Qed.
End ranking_instances.

Section ranking_instance_filters.
Import order_priority spec.

End ranking_instance_filters.

(** * Properties of the router (get_bfs_path) *)

Section routing_facts.
Import duo_noodle_bot spec.
Variables (w h : Z).
Variable walkable : Z -> Z -> bool.
Variable tile_at : Z -> Z -> option Tile.
Variable target_predicate : Z -> Z -> option Tile -> bool.
Variable start : Cell.

Local Abbreviation enterable := (enterable w h walkable).
Local Abbreviation reachable := (reachable w h walkable start).
Local Abbreviation is_goal := (is_goal tile_at target_predicate).
Local Abbreviation bfs_inv := (bfs_inv w h walkable tile_at target_predicate start).
Local Abbreviation unvisited := (unvisited w h).
Local Abbreviation visit := (visit_neighbour w h walkable).

Lemma in_grid_cells c : c ∈ grid_cells w h <-> in_bounds w h c = true.
Proof.
  unfold grid_cells, in_bounds. rewrite list_elem_of_In.
  destruct c as [x y]. rewrite in_prod_iff, <- !list_elem_of_In.
  rewrite !list_elem_of_lookup. setoid_rewrite lookup_seqZ. simpl.
  rewrite !andb_true_iff, !Z.leb_le, !Z.ltb_lt. split.
  - intros [[i [-> Hi]] [j [-> Hj]]]. lia.
  - intros [[[Hx1 Hx2] Hy1] Hy2]. split.
    + exists (Z.to_nat x). lia.
    + exists (Z.to_nat y). lia.
Qed.

Lemma length_grid_cells : length (grid_cells w h) = (Z.to_nat w * Z.to_nat h)%nat.
Proof. unfold grid_cells. rewrite length_prod, !length_seqZ. reflexivity. Qed.

Lemma unvisited_insert n v :
  in_bounds w h n = true -> n ∉ v ->
  (unvisited ({[n]} ∪ v) < unvisited v)%nat.
Proof.
  intros Hb Hn. unfold unvisited.
  apply in_grid_cells in Hb. revert Hb.
  induction (grid_cells w h) as [|c l IH]; intros Hin.
  - apply elem_of_nil in Hin. contradiction.
  - assert (Hle : (length (filter (fun c => c ∉ {[n]} ∪ v) l)
                   <= length (filter (fun c => c ∉ v) l))%nat).
    { clear. induction l as [|c l IH]; [reflexivity|].
      rewrite !filter_cons.
      destruct (decide (c ∉ {[n]} ∪ v)) as [H1|H1];
        destruct (decide (c ∉ v)) as [H2|H2]; simpl; try lia.
      exfalso. apply H2. intros Hc. apply H1. set_solver. }
    rewrite !filter_cons.
    apply elem_of_cons in Hin as [<-|Hin].
    + rewrite decide_False by set_solver. rewrite decide_True by assumption.
      simpl. lia.
    + specialize (IH Hin).
      destruct (decide (c ∉ {[n]} ∪ v)) as [H1|H1];
        destruct (decide (c ∉ v)) as [H2|H2]; simpl; try lia.
      exfalso. apply H2. intros Hc. apply H1. set_solver.
Qed.

Lemma visit_eq c p q v d :
  visit c p (q, v) d =
  if in_bounds w h (shift c d) && bool_decide (shift c d ∉ v)
     && walkable (shift c d).1 (shift c d).2
  then (q ++ [(shift c d, p ++ [d])], {[shift c d]} ∪ v)
  else (q, v).
Proof.
  unfold visit_neighbour, shift. cbn [fst snd].
  destruct (in_bounds w h _), (bool_decide _), (walkable _ _); reflexivity.
Qed.

(** The effect of the [for dx, dy] loop on the queue and the visited set. *)
Lemma visit_fold c p ds q v :
  exists new,
    (foldl (visit c p) (q, v) ds).1 = q ++ new /\
    (foldl (visit c p) (q, v) ds).2 = list_to_set new.*1 ∪ v /\
    (forall n pn, (n, pn) ∈ new ->
       exists d, d ∈ ds /\ n = shift c d /\ pn = p ++ [d] /\ enterable n) /\
    (forall d, d ∈ ds -> enterable (shift c d) ->
       shift c d ∈ (foldl (visit c p) (q, v) ds).2) /\
    (length (foldl (visit c p) (q, v) ds).1
       + unvisited (foldl (visit c p) (q, v) ds).2
     <= length q + unvisited v)%nat.
Proof.
  revert q v. induction ds as [|d ds IH]; intros q v.
  - exists []. simpl. rewrite app_nil_r. repeat split.
    + set_solver.
    + intros n pn Hn. apply elem_of_nil in Hn. contradiction.
    + intros d Hd. apply elem_of_nil in Hd. contradiction.
    + lia.
  - cbn [foldl]. rewrite visit_eq.
    destruct (in_bounds w h (shift c d)) eqn:Hb;
      [destruct (decide (shift c d ∈ v)) as [Hv|Hv];
       [rewrite bool_decide_false by (intros Hn; exact (Hn Hv))
       |rewrite bool_decide_true by assumption;
        destruct (walkable (shift c d).1 (shift c d).2) eqn:Hw]|];
      cbn [andb].
    + destruct (IH q v) as (new & H1 & H2 & H3 & H4 & H5).
      exists new. repeat split; try assumption.
      * intros n pn Hn. destruct (H3 n pn Hn) as (d' & Hd' & Hrest).
        exists d'. split; [right; assumption|assumption].
      * intros d' Hd' He. apply elem_of_cons in Hd' as [->|Hd'].
        -- rewrite H2. set_solver.
        -- apply H4; assumption.
    + destruct (IH (q ++ [(shift c d, p ++ [d])]) ({[shift c d]} ∪ v))
        as (new & H1 & H2 & H3 & H4 & H5).
      exists ((shift c d, p ++ [d]) :: new). repeat split.
      * rewrite H1, <- app_assoc. reflexivity.
      * rewrite H2. rewrite fmap_cons. simpl. set_solver.
      * intros n pn Hn. apply elem_of_cons in Hn as [Heq|Hn].
        -- injection Heq as -> ->.
           exists d. repeat split; [left|assumption|assumption].
        -- destruct (H3 n pn Hn) as (d' & Hd' & Hrest).
           exists d'. split; [right; assumption|assumption].
      * intros d' Hd' He. apply elem_of_cons in Hd' as [->|Hd'].
        -- rewrite H2. set_solver.
        -- apply H4; assumption.
      * pose proof (unvisited_insert _ _ Hb Hv) as Hlt.
        rewrite length_app in H5. simpl in H5. lia.
    + destruct (IH q v) as (new & H1 & H2 & H3 & H4 & H5).
      exists new. repeat split; try assumption.
      * intros n pn Hn. destruct (H3 n pn Hn) as (d' & Hd' & Hrest).
        exists d'. split; [right; assumption|assumption].
      * intros d' Hd' He. apply elem_of_cons in Hd' as [->|Hd'].
        -- destruct He as [_ He]. congruence.
        -- apply H4; assumption.
    + destruct (IH q v) as (new & H1 & H2 & H3 & H4 & H5).
      exists new. repeat split; try assumption.
      * intros n pn Hn. destruct (H3 n pn Hn) as (d' & Hd' & Hrest).
        exists d'. split; [right; assumption|assumption].
      * intros d' Hd' He. apply elem_of_cons in Hd' as [->|Hd'].
        -- destruct He as [He _]. congruence.
        -- apply H4; assumption.
Qed.
Local Abbreviation loop := (bfs_while w h walkable tile_at target_predicate).

(** The loop stops: each iteration takes one entry off the queue, and an
    entry is added only for a grid cell that was not visited before. *)
Lemma bfs_while_terminates fuel q v :
  (length q + unvisited v < fuel)%nat -> is_Some (loop fuel q v).
Proof.
  revert q v. induction fuel as [|fuel IH]; intros q v Hlt; [lia|].
  destruct q as [|[c p] q']; cbn [bfs_while]; [eexists; reflexivity|].
  destruct (target_predicate c.1 c.2 (tile_at c.1 c.2)); [eexists; reflexivity|].
  apply IH.
  destruct (visit_fold c p DIRS q' v) as (new & _ & _ & _ & _ & H5).
  simpl in Hlt. lia.
Qed.

Lemma elem_of_firsts (new : list (Cell * list Cell)) n :
  n ∈ new.*1 <-> exists pn, (n, pn) ∈ new.
Proof.
  rewrite list_elem_of_fmap. split.
  - intros ([n' pn] & -> & Hin). exists pn. exact Hin.
  - intros (pn & Hin). exists (n, pn). split; [reflexivity|exact Hin].
Qed.

(** One iteration that does not return keeps the invariant. *)
Lemma bfs_inv_step c p q' v new :
  bfs_inv ((c, p) :: q') v ->
  ~ is_goal c ->
  (forall n pn, (n, pn) ∈ new ->
     exists d, d ∈ DIRS /\ n = shift c d /\ pn = p ++ [d] /\ enterable n) ->
  (forall d, d ∈ DIRS -> enterable (shift c d) ->
     shift c d ∈ list_to_set new.*1 ∪ v) ->
  bfs_inv (q' ++ new) (list_to_set new.*1 ∪ v).
Proof.
  intros [Hstart Hreach Hclosed Hqueue] Hgoal Hnew Hall.
  assert (Hc : c ∈ v /\ first_move_ok w h walkable start c p).
  { apply Hqueue. left. }
  destruct Hc as [Hcv Hcp].
  split.
  - set_solver.
  - intros n Hn. apply elem_of_union in Hn as [Hn|Hn]; [|apply Hreach, Hn].
    apply elem_of_list_to_set, elem_of_firsts in Hn as [pn Hn].
    destruct (Hnew n pn Hn) as (d & Hd & -> & _ & He).
    apply reach_move; [apply Hreach, Hcv|assumption|assumption].
  - intros n Hn. rewrite fmap_app, elem_of_app.
    apply elem_of_union in Hn as [Hn|Hn].
    { left. right. apply elem_of_list_to_set in Hn. exact Hn. }
    destruct (Hclosed n Hn) as [Hq|[Hng Hcl]].
    + rewrite fmap_cons in Hq. apply elem_of_cons in Hq as [->|Hq].
      * right. split; [exact Hgoal|exact Hall].
      * left. left. exact Hq.
    + right. split; [exact Hng|]. intros d Hd He.
      apply elem_of_union. right. apply Hcl; assumption.
  - intros n pn Hn. apply elem_of_app in Hn as [Hn|Hn].
    + destruct (Hqueue n pn) as [Hv Hp]; [right; exact Hn|].
      split; [set_solver|exact Hp].
    + split.
      * apply elem_of_union. left. apply elem_of_list_to_set, elem_of_firsts.
        exists pn. exact Hn.
      * destruct (Hnew n pn Hn) as (d & Hd & -> & -> & He).
        destruct p as [|d0 p0]; simpl in *.
        -- subst c. split; assumption.
        -- exact Hcp.
Qed.

(** With an empty queue, every reachable cell was visited and is no goal. *)
Lemma bfs_inv_empty v c : bfs_inv [] v -> reachable c -> c ∈ v /\ ~ is_goal c.
Proof.
  intros [Hstart Hreach Hclosed Hqueue] Hc.
  assert (Hcl : forall x, x ∈ v ->
            ~ is_goal x /\
            forall d, d ∈ DIRS -> enterable (shift x d) -> shift x d ∈ v).
  { intros x Hx. destruct (Hclosed x Hx) as [Hq|H]; [|exact H].
    rewrite fmap_nil in Hq. apply elem_of_nil in Hq. contradiction. }
  assert (Hin : c ∈ v).
  { induction Hc as [|c d Hc IH Hd He]; [exact Hstart|].
    apply (Hcl c IH); assumption. }
  split; [exact Hin|apply Hcl, Hin].
Qed.

Lemma bfs_while_correct fuel q v r :
  bfs_inv q v -> loop fuel q v = Some r ->
  match r with
  | None => forall c, reachable c -> ~ is_goal c
  | Some s =>
      (exists c, reachable c /\ is_goal c) /\
      ((s = (0, 0) /\ is_goal start) \/ (s ∈ DIRS /\ enterable (shift start s)))
  end.
Proof.
  revert q v. induction fuel as [|fuel IH]; intros q v Hinv Hrun; [discriminate|].
  destruct q as [|[c p] q']; cbn [bfs_while] in Hrun.
  - injection Hrun as <-. intros c Hc. apply (bfs_inv_empty v c Hinv Hc).
  - destruct (target_predicate c.1 c.2 (tile_at c.1 c.2)) eqn:Hg.
    + injection Hrun as <-.
      destruct (inv_queue _ _ _ _ _ _ _ _ Hinv c p) as [Hcv Hcp]; [left|].
      split.
      * exists c. split; [eapply inv_reach; eassumption|exact Hg].
      * destruct p as [|d p0]; simpl in Hcp.
        -- left. subst c. split; [reflexivity|exact Hg].
        -- right. exact Hcp.
    + destruct (visit_fold c p DIRS q' v) as (new & H1 & H2 & H3 & H4 & _).
      rewrite H1, H2 in Hrun. rewrite H2 in H4.
      apply (IH _ _ (bfs_inv_step c p q' v new Hinv
                       ltac:(unfold spec.is_goal; congruence) H3 H4) Hrun).
Qed.

Lemma bfs_inv_init : bfs_inv [(start, [])] {[start]}.
Proof.
  split.
  - set_solver.
  - intros c Hc. apply elem_of_singleton in Hc as ->. constructor.
  - intros c Hc. apply elem_of_singleton in Hc as ->. left. left.
  - intros c p Hc. apply list_elem_of_singleton in Hc. injection Hc as -> ->.
    split; [set_solver|reflexivity].
Qed.

Lemma get_bfs_path_runs :
  exists r, get_bfs_path_fuel w h walkable tile_at target_predicate
              (bfs_fuel w h) start = Some r /\
            get_bfs_path w h walkable tile_at target_predicate start = r.
Proof.
  destruct (bfs_while_terminates (bfs_fuel w h) [(start, [])] {[start]}) as [r Hr].
  - unfold bfs_fuel, spec.unvisited.
    pose proof (length_filter (fun c => c ∉ ({[start]} : gset Cell)) (grid_cells w h)) as Hl.
    rewrite length_grid_cells in Hl. simpl. lia.
  - exists r. unfold get_bfs_path, get_bfs_path_fuel. rewrite Hr. split; reflexivity.
Qed.

(** C7.  [get_bfs_path] returns [None] exactly when no cell satisfying the
    goal predicate is reachable from [start] through in-bounds walkable
    cells, [start] itself counting as reachable; otherwise it returns a
    step.  The search always ends within [bfs_fuel] iterations. *)
Theorem bfs_unreachable_iff :
  (exists r, get_bfs_path_fuel w h walkable tile_at target_predicate
               (bfs_fuel w h) start = Some r) /\
  (get_bfs_path w h walkable tile_at target_predicate start = None <->
   ~ exists c, reachable c /\ is_goal c) /\
  ((exists c, reachable c /\ is_goal c) ->
   is_Some (get_bfs_path w h walkable tile_at target_predicate start)).
Proof.
  destruct get_bfs_path_runs as (r & Hrun & Hr).
  pose proof (bfs_while_correct _ _ _ r bfs_inv_init Hrun) as Hc.
  split; [exists r; exact Hrun|]. rewrite Hr.
  destruct r as [s|].
  - destruct Hc as [Hex _]. split.
    + split; [discriminate|]. intros Hn. contradiction.
    + intros _. eexists. reflexivity.
  - split.
    + split; [|reflexivity]. intros _ (c & Hc1 & Hc2). exact (Hc c Hc1 Hc2).
    + intros (c & Hc1 & Hc2). destruct (Hc c Hc1 Hc2).
Qed.

(** C8.  A nonzero step returned by [get_bfs_path] is one of the four unit
    moves, and the cell it leads to from [start] is within bounds and
    walkable. *)
Theorem bfs_step_valid step :
  get_bfs_path w h walkable tile_at target_predicate start = Some step ->
  step <> (0, 0) ->
  (step = (1, 0) \/ step = (-1, 0) \/ step = (0, 1) \/ step = (0, -1)) /\
  in_bounds w h (start.1 + step.1, start.2 + step.2) = true /\
  walkable (start.1 + step.1) (start.2 + step.2) = true.
Proof.
  intros Hstep Hnz.
  destruct get_bfs_path_runs as (r & Hrun & Hr).
  pose proof (bfs_while_correct _ _ _ r bfs_inv_init Hrun) as Hc.
  rewrite Hr in Hstep. subst r.
  destruct Hc as [_ [[Hz _]|[Hd [Hb Hw]]]]; [contradiction|].
  split; [|split; assumption].
  unfold DIRS in Hd. rewrite !elem_of_cons in Hd.
  destruct Hd as [Hd|[Hd|[Hd|[Hd|Hd]]]]; auto.
  apply elem_of_nil in Hd. contradiction.
Qed.
End routing_facts.

(** * Properties of the turn (play_turn) *)

Import order_priority duo_noodle_bot spec.

(** Symbolic execution of a turn: unfold the sequencing, then split on the
    conditions met.  The router, the tile search and the ranking stay
    folded. *)
Ltac unfold_turn :=
  unfold mbind, mret, turn_bind, turn_ret,
    bind, ret, raise,
    query, act,
    modify_self, get_self, unpack,
    nearest, print in *;
  cbn [fst snd self world trace stdout state map assembly_counter cooker_loc
       my_bot_id current_order_id has_printed_priority seen_order_ids
       seen_active_order_ids set_state set_locations set_my_bot_id
       set_order_fields with_orders get_team_bot_ids get_orders get_turn
       get_bot_state get_tile get_map get_team_money perform start_turn] in *.

Section turn_facts.
Import order_priority duo_noodle_bot spec.
Context {W : Type}.
Local Opaque get_bfs_path find_nearest_tile build_order_priority_queue chebyshev.

Lemma move_towards_run (ctl : RobotController W) bot_id tx ty (r : Run W) :
  move_towards ctl bot_id tx ty r =
  let st := get_bot_state ctl (world r) bot_id in
  if chebyshev (bot_x st) (bot_y st) tx ty <=? 1 then (Ok true, r)
  else
    match get_bfs_path (width (map (self r))) (height (map (self r)))
            (is_tile_walkable (get_map ctl (world r))) (get_tile ctl (world r))
            (fun x y _ => chebyshev x y tx ty <=? 1) (bot_x st, bot_y st) with
    | Some (dx, dy) =>
        if bool_decide ((dx, dy) ≠ (0, 0)) then
          (Ok false,
           {| self := self r; world := (perform ctl (move bot_id dx dy) (world r)).2;
              trace := trace r ++ [(move bot_id dx dy,
                                    (perform ctl (move bot_id dx dy) (world r)).1)];
              stdout := stdout r |})
        else (Ok false, r)
    | None => (Ok false, r)
    end.
Proof.
  unfold move_towards. unfold_turn.
  destruct (chebyshev _ _ tx ty <=? 1); [reflexivity|].
  destruct (get_bfs_path _ _ _ _ _ _) as [[dx dy]|]; [|reflexivity].
  destruct (bool_decide _); reflexivity.
Qed.

(** The ranking pass only rewrites the order bookkeeping fields and prints;
    after it [has_printed_priority] is set. *)
Lemma rank_and_log_run gc (ctl : RobotController W) (r : Run W) :
  exists seen seen_active cur lines,
    rank_and_log gc ctl r =
    (Ok tt, {| self := set_order_fields true seen seen_active cur (self r);
               world := world r; trace := trace r;
               stdout := stdout r ++ lines |}).
Proof.
  unfold rank_and_log. unfold_turn.
  destruct (has_printed_priority (self r)); cbn [negb orb].
  - match goal with
    | |- context [if ?c then _ else _] => destruct c
    end; cbn [fst snd self world trace stdout].
    + do 4 eexists. reflexivity.
    + do 3 eexists. exists []. rewrite app_nil_r. reflexivity.
  - do 4 eexists. reflexivity.
Qed.

Local Ltac split_turn :=
  repeat (unfold_turn;
          match goal with
          | |- context [move_towards ?c ?b ?x ?y ?r] =>
              rewrite (move_towards_run c b x y r); cbv zeta
          | |- context [match ?x with _ => _ end] =>
              lazymatch x with
              | context [match _ with _ => _ end] => fail
              | _ => destruct x eqn:?
              end
          end).

(** The FSM step makes at most one mutating call. *)
Lemma fsm_one_action gc (ctl : RobotController W) bot_id bx by_ held cx cy kx ky
    (r : Run W) :
  exists l, trace (fsm gc ctl bot_id bx by_ held cx cy kx ky r).2 = trace r ++ l
            /\ (length l <= 1)%nat.
Proof.
  unfold fsm. split_turn.
  all: first [ exists []; split; [symmetry; apply app_nil_r|simpl; lia]
             | eexists [_]; split; [reflexivity|simpl; lia] ].
Qed.

(** C4 (as amended).  A turn makes at most one mutating call: the record of
    calls grows by at most one entry. *)
Theorem one_action_per_turn gc (ctl : RobotController W) (r : Run W) :
  exists l, trace (play_turn gc ctl r).2 = trace r ++ l /\ (length l <= 1)%nat.
Proof.
  unfold play_turn. unfold_turn.
  destruct (get_team_bot_ids ctl (world r)) as [|bot_id rest].
  { exists []. split; [symmetry; apply app_nil_r|simpl; lia]. }
  destruct (rank_and_log_run gc ctl r) as (s & sa & cur & lines & ->).
  split_turn.
  all: try (exists []; split; [symmetry; apply app_nil_r|simpl; lia]).
  all: match goal with
       | |- context [fsm ?g ?c ?b ?x ?y ?hd ?cx ?cy ?kx ?ky ?r'] =>
           exact (fsm_one_action g c b x y hd cx cy kx ky r')
       end.
Qed.

(** What a call's answer does to the state. *)
Lemma fsm_answer gc (ctl : RobotController W) bot_id bx by_ held cx cy kx ky
    (r : Run W) a ok :
  trace (fsm gc ctl bot_id bx by_ held cx cy kx ky r).2 = trace r ++ [(a, ok)] ->
  (ignores_answer a = false -> ok = false ->
   state (self (fsm gc ctl bot_id bx by_ held cx cy kx ky r).2) = state (self r)) /\
  (ignores_answer a = true ->
   state (self (fsm gc ctl bot_id bx by_ held cx cy kx ky r).2)
   = after_unchecked (state (self r))).
Proof.
  unfold fsm. split_turn.
  all: intros Htr.
  all: try (exfalso; apply (f_equal length) in Htr;
            rewrite length_app in Htr; simpl in Htr; lia).
  all: apply app_inv_head in Htr; injection Htr as <- <-.
  all: split; intros Hi; try discriminate Hi; try (intros Hok; congruence).
  all: try reflexivity.
  all: unfold after_unchecked.
  all: repeat match goal with
         | H : (_ =? _) = _ |- _ => rewrite H; clear H
         end.
  all: reflexivity.
Qed.

(** The FSM step writes no field of the bot but [state]. *)
Lemma fsm_frame gc (ctl : RobotController W) bot_id bx by_ held cx cy kx ky
    (r : Run W) :
  self (fsm gc ctl bot_id bx by_ held cx cy kx ky r).2
  = set_state (state (self (fsm gc ctl bot_id bx by_ held cx cy kx ky r).2)) (self r).
Proof.
  destruct r as [[m ac ck id cur hp s sa st] w t o].
  unfold fsm. split_turn.
  all: reflexivity.
Qed.

(** The FSM step reads the bot's [state] and [map] only. *)
Lemma fsm_replay gc (ctl : RobotController W) bot_id bx by_ held cx cy kx ky
    (r1 r2 : Run W) :
  state (self r1) = state (self r2) ->
  map (self r1) = map (self r2) ->
  world r1 = world r2 ->
  trace r1 = trace r2 ->
  (fsm gc ctl bot_id bx by_ held cx cy kx ky r1).1
  = (fsm gc ctl bot_id bx by_ held cx cy kx ky r2).1 /\
  trace (fsm gc ctl bot_id bx by_ held cx cy kx ky r1).2
  = trace (fsm gc ctl bot_id bx by_ held cx cy kx ky r2).2 /\
  world (fsm gc ctl bot_id bx by_ held cx cy kx ky r1).2
  = world (fsm gc ctl bot_id bx by_ held cx cy kx ky r2).2.
Proof.
  destruct r1 as [[m1 ac1 ck1 id1 cur1 hp1 s1 sa1 st1] w1 t1 o1].
  destruct r2 as [[m2 ac2 ck2 id2 cur2 hp2 s2 sa2 st2] w2 t2 o2].
  cbn [self world trace state map]. intros -> -> -> ->.
  unfold fsm. split_turn.
  all: repeat split; reflexivity.
Qed.

(** The turn in one piece: the ranking pass, then the two stations, then the
    FSM step if both are known. *)
Lemma play_turn_run gc (ctl : RobotController W) b w :
  exists seen seen_active cur lines,
    play_turn gc ctl (start_turn b w) =
    match get_team_bot_ids ctl w with
    | [] => (Ok tt, start_turn b w)
    | bot_id :: _ =>
        let bot := get_bot_state ctl w bot_id in
        let counter :=
          match assembly_counter b with
          | None => find_nearest_tile (get_map ctl w) (bot_x bot) (bot_y bot) "COUNTER"
          | Some c => Some c
          end in
        let cooker :=
          match cooker_loc b with
          | None => find_nearest_tile (get_map ctl w) (bot_x bot) (bot_y bot) "COOKER"
          | Some k => Some k
          end in
        let r1 := {| self := set_locations counter cooker
                               (set_my_bot_id bot_id
                                  (set_order_fields true seen seen_active cur b));
                     world := w; trace := []; stdout := lines |} in
        match counter, cooker with
        | Some c, Some k =>
            fsm gc ctl bot_id (bot_x bot) (bot_y bot) (holding bot) c.1 c.2 k.1 k.2 r1
        | _, _ => (Ok tt, r1)
        end
    end.
Proof.
  destruct (rank_and_log_run gc ctl (start_turn b w)) as (s & sa & cur & lines & Hr).
  exists s, sa, cur, lines.
  unfold play_turn. unfold_turn.
  destruct (get_team_bot_ids ctl w) as [|bot_id rest]; [reflexivity|].
  rewrite Hr. unfold_turn. cbv zeta.
  destruct (assembly_counter b) as [c|], (cooker_loc b) as [k|]; unfold_turn;
    repeat match goal with
      | |- context [find_nearest_tile ?m ?x ?y ?n] =>
          destruct (find_nearest_tile m x y n); unfold_turn
      end; reflexivity.
Qed.

(** A turn that left the state as it was makes the same calls when it is
    run again on the same snapshot. *)
Lemma play_turn_again gc (ctl : RobotController W) b w :
  state (self (play_turn gc ctl (start_turn b w)).2) = state b ->
  trace (play_turn gc ctl
           (start_turn (self (play_turn gc ctl (start_turn b w)).2) w)).2
  = trace (play_turn gc ctl (start_turn b w)).2.
Proof.
  destruct (play_turn_run gc ctl b w) as (s & sa & cur & lines & Hrun).
  rewrite Hrun. clear Hrun.
  destruct (get_team_bot_ids ctl w) as [|bot_id rest] eqn:Hbots.
  { intros _. cbn [snd self start_turn].
    destruct (play_turn_run gc ctl b w) as (s' & sa' & cur' & lines' & ->).
    rewrite Hbots. reflexivity. }
  cbv zeta.
  set (bot := get_bot_state ctl w bot_id).
  set (counter := match assembly_counter b with
                  | None => find_nearest_tile (get_map ctl w) (bot_x bot) (bot_y bot) "COUNTER"
                  | Some c => Some c
                  end).
  set (cooker := match cooker_loc b with
                 | None => find_nearest_tile (get_map ctl w) (bot_x bot) (bot_y bot) "COOKER"
                 | Some k => Some k
                 end).
  assert (Hcounter : forall b', assembly_counter b' = counter ->
            match assembly_counter b' with
            | None => find_nearest_tile (get_map ctl w) (bot_x bot) (bot_y bot) "COUNTER"
            | Some c => Some c
            end = counter).
  { intros b' ->. subst counter.
    destruct (assembly_counter b) as [c|]; [reflexivity|].
    destruct (find_nearest_tile _ _ _ "COUNTER"); reflexivity. }
  assert (Hcooker : forall b', cooker_loc b' = cooker ->
            match cooker_loc b' with
            | None => find_nearest_tile (get_map ctl w) (bot_x bot) (bot_y bot) "COOKER"
            | Some k => Some k
            end = cooker).
  { intros b' ->. subst cooker.
    destruct (cooker_loc b) as [k|]; [reflexivity|].
    destruct (find_nearest_tile _ _ _ "COOKER"); reflexivity. }
  clearbody counter cooker.
  set (r1 := {| self := set_locations counter cooker
                          (set_my_bot_id bot_id (set_order_fields true s sa cur b));
                world := w; trace := []; stdout := lines |}).
  assert (Hagain : forall b',
            state b' = state b -> map b' = map b ->
            assembly_counter b' = counter -> cooker_loc b' = cooker ->
            trace (play_turn gc ctl (start_turn b' w)).2
            = trace (match counter, cooker with
                     | Some c, Some k =>
                         fsm gc ctl bot_id (bot_x bot) (bot_y bot) (holding bot)
                           c.1 c.2 k.1 k.2 r1
                     | _, _ => (Ok tt, r1)
                     end).2).
  { intros b' Hst Hm Hac Hck.
    destruct (play_turn_run gc ctl b' w) as (s' & sa' & cur' & lines' & ->).
    rewrite Hbots. cbv zeta. fold bot.
    rewrite (Hcounter b' Hac), (Hcooker b' Hck).
    destruct counter as [c|], cooker as [k|]; try reflexivity.
    apply fsm_replay; cbn [self world trace state map set_locations set_my_bot_id
                           set_order_fields r1]; auto. }
  destruct counter as [c|], cooker as [k|]; intros Hst.
  - apply Hagain.
    + exact Hst.
    + rewrite fsm_frame. reflexivity.
    + rewrite fsm_frame. reflexivity.
    + rewrite fsm_frame. reflexivity.
  - apply Hagain; reflexivity.
  - apply Hagain; reflexivity.
  - apply Hagain; reflexivity.
Qed.

(** C5 (as amended).  When the call made in a turn is a buy, chop, pickup,
    add-to-plate or submit (or a move or trash) and it fails, the state is
    the one the turn started in, and a turn run again on the same snapshot
    attempts the same call.  The answer of place and of take-from-pan is not
    looked at: after a place in states 1, 3, 6, 9 or a take-from-pan in
    state 12 the state has advanced, whatever the answer; in state 17 the
    state stays. *)
Theorem failed_call_state gc (ctl : RobotController W) b w a ok :
  trace (play_turn gc ctl (start_turn b w)).2 = [(a, ok)] ->
  (ignores_answer a = false -> ok = false ->
   state (self (play_turn gc ctl (start_turn b w)).2) = state b /\
   trace (play_turn gc ctl
            (start_turn (self (play_turn gc ctl (start_turn b w)).2) w)).2
   = [(a, false)]) /\
  (ignores_answer a = true ->
   state (self (play_turn gc ctl (start_turn b w)).2) = after_unchecked (state b)).
Proof.
  intros Htr.
  assert (H : (ignores_answer a = false -> ok = false ->
               state (self (play_turn gc ctl (start_turn b w)).2) = state b) /\
              (ignores_answer a = true ->
               state (self (play_turn gc ctl (start_turn b w)).2)
               = after_unchecked (state b))).
  { revert Htr. unfold play_turn. unfold_turn.
    destruct (get_team_bot_ids ctl w) as [|bot_id rest]; [discriminate|].
    destruct (rank_and_log_run gc ctl (start_turn b w)) as (s & sa & cur & lines & ->).
    split_turn.
    all: try discriminate.
    all: match goal with
         | |- context [fsm ?g ?c ?i ?x ?y ?hd ?cx ?cy ?kx ?ky ?r'] =>
             exact (fsm_answer g c i x y hd cx cy kx ky r' a ok)
         end. }
  destruct H as [Hkeep Hadv]. split; [|exact Hadv].
  intros Hi Hok. split; [exact (Hkeep Hi Hok)|].
  rewrite (play_turn_again gc ctl b w (Hkeep Hi Hok)), Htr, Hok. reflexivity.
Qed.


End turn_facts.

(** * The theorems on the sample kitchen *)

Section kitchen_instances.
Import sample.

(** An instance of C7: with no walkable cell the stations cannot be
    approached, with the floor walkable a route exists. *)
Lemma bfs_unreachable_iff_witness :
  (~ exists c, reachable 5 3 (fun _ _ => false) (0, 1) c /\
               is_goal (fun _ _ => None) (fun x y _ => chebyshev x y 4 0 <=? 1) c) /\
  is_Some (get_bfs_path 5 3 (fun _ y => 1 <=? y) (fun _ _ => None)
             (fun x y _ => chebyshev x y 4 0 <=? 1) (0, 1)).
Proof.
  split.
  - apply (bfs_unreachable_iff 5 3 (fun _ _ => false) (fun _ _ => None)
             (fun x y _ => chebyshev x y 4 0 <=? 1) (0, 1)).
    vm_compute. reflexivity.
  - apply (bfs_unreachable_iff 5 3 (fun _ y => 1 <=? y) (fun _ _ => None)
             (fun x y _ => chebyshev x y 4 0 <=? 1) (0, 1)).
    exists (shift (shift (shift (0, 1) (1, 0)) (1, 0)) (1, 0)). split.
    + repeat (apply reach_move; [|set_solver|split; reflexivity]).
      apply reach_start.
    + reflexivity.
Defined.

(** An instance of C8: from (0,1) towards the trash at (4,0) the router
    answers the move (1,0), which leads to the floor cell (1,1). *)
Lemma bfs_step_valid_witness :
  get_bfs_path 5 3 (fun _ y => 1 <=? y) (fun _ _ => None)
    (fun x y _ => chebyshev x y 4 0 <=? 1) (0, 1) = Some (1, 0) /\
  in_bounds 5 3 (1, 1) = true.
Proof.
  assert (H : get_bfs_path 5 3 (fun _ y => 1 <=? y) (fun _ _ => None)
                (fun x y _ => chebyshev x y 4 0 <=? 1) (0, 1) = Some (1, 0))
    by (vm_compute; reflexivity).
  split; [exact H|].
  refine (proj1 (proj2 (bfs_step_valid 5 3 (fun _ y => 1 <=? y) (fun _ _ => None)
                          (fun x y _ => chebyshev x y 4 0 <=? 1) (0, 1) (1, 0) H _))).
  discriminate.
Defined.

(** C4 as stated fails in state 0: the turn that inspects the cooker makes
    no mutating call at all. *)
Lemma check_pan_turn_counterexample :
  (play_turn constants engine
     (start_turn (__init__ (kitchen_map true)) (kitchen true 1 1 None nothing yes))).1
  = Ok tt /\
  trace (play_turn constants engine
           (start_turn (__init__ (kitchen_map true)) (kitchen true 1 1 None nothing yes))).2
  = [] /\
  state (self (play_turn constants engine
                 (start_turn (__init__ (kitchen_map true))
                    (kitchen true 1 1 None nothing yes))).2) = 1.
Proof. vm_compute. repeat split; reflexivity. Qed.

(** An instance of C5 (as amended): a chop that fails leaves the bot in
    state 4, and the next turn on the same snapshot chops again. *)
Lemma failed_call_state_witness :
  trace (play_turn constants engine
           (start_turn (bot_in_state true 4) (kitchen true 0 1 None nothing no))).2
  = [(chop 0 0 0, false)] /\
  state (self (play_turn constants engine
                 (start_turn (bot_in_state true 4)
                    (kitchen true 0 1 None nothing no))).2) = 4 /\
  trace (play_turn constants engine
           (start_turn
              (self (play_turn constants engine
                       (start_turn (bot_in_state true 4)
                          (kitchen true 0 1 None nothing no))).2)
              (kitchen true 0 1 None nothing no))).2
  = [(chop 0 0 0, false)].
Proof.
  assert (H : trace (play_turn constants engine
                       (start_turn (bot_in_state true 4)
                          (kitchen true 0 1 None nothing no))).2
              = [(chop 0 0 0, false)]) by (vm_compute; reflexivity).
  split; [exact H|].
  apply (proj1 (failed_call_state constants engine _ _ _ _ H)); reflexivity.
Defined.

(** C5 as stated fails for place and take-from-pan: in state 3 a place that
    fails still moves the bot to state 4, and in state 12 a take-from-pan
    that fails still moves it to state 13. *)
Lemma failed_place_counterexample :
  (trace (play_turn constants engine
            (start_turn (bot_in_state true 3)
               (kitchen true 0 1 (Some (FoodItem {| cooked_stage := 0 |})) nothing no))).2
   = [(place 0 0 0, false)] /\
   state (self (play_turn constants engine
                  (start_turn (bot_in_state true 3)
                     (kitchen true 0 1 (Some (FoodItem {| cooked_stage := 0 |}))
                        nothing no))).2) = 4) /\
  (trace (play_turn constants engine
            (start_turn (bot_in_state true 12)
               (kitchen true 1 1 None (pan_on_cooker 1) no))).2
   = [(take_from_pan 0 1 0, false)] /\
   state (self (play_turn constants engine
                  (start_turn (bot_in_state true 12)
                     (kitchen true 1 1 None (pan_on_cooker 1) no))).2) = 13).
Proof. vm_compute. repeat split; reflexivity. Qed.

(** C6 (failing input).  On the kitchen without a shop the first turn finds
    no pan on the cooker and moves to state 1; the second turn unpacks the
    [None] returned by [find_nearest_tile] and raises [TypeError]. *)
Theorem no_shop_raises :
  let k := kitchen false 1 1 None nothing yes in
  let first := play_turn constants engine (start_turn (__init__ (kitchen_map false)) k) in
  find_nearest_tile (kitchen_map false) 1 1 "SHOP" = None /\
  first.1 = Ok tt /\
  state (self first.2) = 1 /\
  (play_turn constants engine (start_turn (self first.2) (world first.2))).1
  = Raise TypeError.
Proof. vm_compute. repeat split; reflexivity. Qed.


End kitchen_instances.

From Stdlib Require Import Lqa.

(** * Further properties of the ranking *)

Section more_ranking.
Import order_priority spec props.

(** An entry with a strictly higher score stands earlier in the queue. *)
Lemma queue_score_position gc orders ct wt (i j : nat) s1 s2 :
  build_order_priority_queue gc orders ct wt !! i = Some s1 ->
  build_order_priority_queue gc orders ct wt !! j = Some s2 ->
  (priority_score s1 < priority_score s2)%Q ->
  (j < i)%nat.
Proof.
  intros Hi Hj Hlt.
  pose proof (sort_desc_sorted (prioritize gc wt ct orders)) as Hs.
  fold (build_order_priority_queue gc orders ct wt) in Hs.
  assert (Hcmp : key_compare (sort_key s1) (sort_key s2) = Lt).
  { unfold key_compare, sort_key. cbv beta iota zeta.
    destruct (Qcompare_spec (priority_score s1) (priority_score s2)) as [H|H|H].
    - rewrite H in Hlt. exfalso. exact (Qlt_irrefl _ Hlt).
    - reflexivity.
    - exfalso. exact (Qlt_irrefl _ (Qlt_trans _ _ _ Hlt H)). }
  destruct (Nat.lt_trichotomy i j) as [Hij|[Hij|Hij]]; [| |exact Hij].
  - pose proof (strongly_sorted_lookup _ i j s1 s2 Hs Hij Hi Hj) as Hge.
    unfold ge_order, key_ge in Hge. contradiction.
  - subst j. rewrite Hi in Hj. injection Hj as <-.
    rewrite key_compare_refl in Hcmp. discriminate.
Qed.

Lemma lookup_queue_scored gc orders ct wt (i : nat) s :
  build_order_priority_queue gc orders ct wt !! i = Some s ->
  score_order gc wt ct (so_order s) = Some s.
Proof.
  intros Hi. apply list_elem_of_lookup_2 in Hi.
  apply (elem_of_queue gc wt ct orders) in Hi as (o & _ & Hs).
  pose proof (score_order_Some gc wt ct o s Hs) as (Ho & _). rewrite Ho. exact Hs.
Qed.

Lemma lookup_queue_score gc orders ct wt (i : nat) s :
  build_order_priority_queue gc orders ct wt !! i = Some s ->
  priority_score s == spec_score gc wt ct (so_order s).
Proof.
  intros Hi. apply lookup_queue_scored in Hi.
  apply (score_order_Some gc wt ct _ s Hi).
Qed.

Lemma Qmax_ge_1 a : (0 < Qmax a 1)%Q.
Proof.
  eapply Qlt_le_trans; [|apply Q.le_max_r]. reflexivity.
Qed.

(** Of two active entries of the queue whose orders differ in reward only
    (ids and creation turns aside), the one with the higher reward has a
    score at least as high, as long as [value_weight] is positive. *)
Theorem higher_reward_scores_no_lower gc orders ct wt (i j : nat) s1 s2 :
  build_order_priority_queue gc orders ct wt !! i = Some s1 ->
  build_order_priority_queue gc orders ct wt !! j = Some s2 ->
  default false (is_active (so_order s1)) = true ->
  default false (is_active (so_order s2)) = true ->
  required (so_order s1) = required (so_order s2) ->
  penalty (so_order s1) = penalty (so_order s2) ->
  expires_turn (so_order s1) = expires_turn (so_order s2) ->
  (default 0 (reward (so_order s1)) <= default 0 (reward (so_order s2)))%Q ->
  (0 < value_weight wt)%Q ->
  (priority_score s1 <= priority_score s2)%Q.
Proof.
  intros Hi Hj Ha1 Ha2 Hreq Hpen Hexp Hrew Hvw.
  rewrite (lookup_queue_score _ _ _ _ _ _ Hi), (lookup_queue_score _ _ _ _ _ _ Hj).
  unfold spec_score. rewrite Ha1, Ha2, Hreq, Hpen, Hexp.
  set (est := _estimate_prep_turns _ _ _ _).
  set (p := default 0%Q (penalty (so_order s2))).
  set (r1 := default 0%Q (reward (so_order s1))) in *.
  set (r2 := default 0%Q (reward (so_order s2))) in *.
  set (rest := (urgency_weight wt * _)%Q).
  set (rest2 := (slack_weight wt * _)%Q).
  set (od := Qmax 0 _).
  assert (Hm : (0 < / Qmax est 1)%Q) by (apply Qinv_lt_0_compat, Qmax_ge_1).
  assert (Hv : ((r1 + p) / Qmax est 1 <= (r2 + p) / Qmax est 1)%Q).
  { unfold Qdiv. apply Qmult_le_compat_r; [lra|apply Qlt_le_weak; exact Hm]. }
  assert (Hw : (value_weight wt * ((r1 + p) / Qmax est 1)
                <= value_weight wt * ((r2 + p) / Qmax est 1))%Q).
  { apply Qmult_le_l; assumption. }
  set (x1 := (value_weight wt * _)%Q) in *. set (x2 := (value_weight wt * _)%Q) in *.
  lra.
Qed.

Lemma inactive_score gc orders ct wt (i : nat) s :
  build_order_priority_queue gc orders ct wt !! i = Some s ->
  default false (is_active (so_order s)) = false ->
  priority_score s ==
  (- (activation_weight wt
      * inject_Z (Z.max 0 (default ct (created_turn (so_order s)) - ct))))%Q.
Proof.
  intros Hi Ha. rewrite (lookup_queue_score _ _ _ _ _ _ Hi).
  unfold spec_score. rewrite Ha. ring.
Qed.

(** An entry with a positive score stands before every entry that is not
    active, as long as [activation_weight] is not negative. *)
Theorem positive_score_before_inactive gc orders ct wt (i j : nat) s1 s2 :
  build_order_priority_queue gc orders ct wt !! i = Some s1 ->
  build_order_priority_queue gc orders ct wt !! j = Some s2 ->
  (0 < priority_score s1)%Q ->
  default false (is_active (so_order s2)) = false ->
  (0 <= activation_weight wt)%Q ->
  (i < j)%nat.
Proof.
  intros Hi Hj Hpos Hina Hw.
  apply (queue_score_position gc orders ct wt j i s2 s1 Hj Hi).
  eapply Qle_lt_trans; [|exact Hpos].
  rewrite (inactive_score _ _ _ _ _ _ Hj Hina).
  set (n := Z.max 0 _).
  assert (Hn : (0 <= inject_Z n)%Q).
  { change 0%Q with (inject_Z 0). rewrite <- Zle_Qle. subst n. lia. }
  pose proof (Qmult_le_0_compat _ _ Hw Hn) as Hprod.
  set (x := (activation_weight wt * inject_Z n)%Q) in *. lra.
Qed.

(** Of two entries that are not active, the one that activates no later
    has a score at least as high, as long as [activation_weight] is not
    negative. *)
Theorem sooner_activation_scores_no_lower gc orders ct wt (i j : nat) s1 s2 :
  build_order_priority_queue gc orders ct wt !! i = Some s1 ->
  build_order_priority_queue gc orders ct wt !! j = Some s2 ->
  default false (is_active (so_order s1)) = false ->
  default false (is_active (so_order s2)) = false ->
  default ct (created_turn (so_order s1)) <= default ct (created_turn (so_order s2)) ->
  (0 <= activation_weight wt)%Q ->
  (priority_score s2 <= priority_score s1)%Q.
Proof.
  intros Hi Hj Ha1 Ha2 Hc Hw.
  rewrite (inactive_score _ _ _ _ _ _ Hi Ha1), (inactive_score _ _ _ _ _ _ Hj Ha2).
  set (n1 := Z.max 0 (default ct (created_turn (so_order s1)) - ct)).
  set (n2 := Z.max 0 (default ct (created_turn (so_order s2)) - ct)).
  assert (Hn : (inject_Z n1 <= inject_Z n2)%Q).
  { rewrite <- Zle_Qle. subst n1 n2. lia. }
  assert (Hm : (activation_weight wt * inject_Z n1
                <= activation_weight wt * inject_Z n2)%Q).
  { rewrite !(Qmult_comm (activation_weight wt)).
    apply Qmult_le_compat_r; assumption. }
  set (x1 := (activation_weight wt * inject_Z n1)%Q) in *.
  set (x2 := (activation_weight wt * inject_Z n2)%Q) in *. lra.
Qed.

(** *** Ties *)

Lemma insert_desc_filter k x l :
  List.filter (key_eqb k) (insert_desc x l) = List.filter (key_eqb k) (x :: l).
Proof.
  induction l as [|y l IH]; [reflexivity|].
  cbn [insert_desc].
  destruct (key_compare (sort_key y) (sort_key x)) eqn:E; try reflexivity.
  cbn [List.filter]. rewrite IH. cbn [List.filter].
  destruct (key_eqb k y) eqn:Hy, (key_eqb k x) eqn:Hx; try reflexivity.
  exfalso. unfold key_eqb in Hy, Hx.
  destruct (key_compare (sort_key y) k) eqn:Ey; try discriminate.
  destruct (key_compare (sort_key x) k) eqn:Ex; try discriminate.
  rewrite (cmp_eq_l _ key_compare_total _ _ (sort_key x) Ey) in E.
  rewrite (cmp_antisym _ key_compare_total), Ex in E. discriminate.
Qed.

(** The sort is stable: the entries with one and the same key stand in the
    queue in the order in which the loop appended them, that is, in the
    order of the input. *)
Theorem queue_ties_keep_input_order gc orders ct wt k :
  List.filter (key_eqb k) (build_order_priority_queue gc orders ct wt)
  = List.filter (key_eqb k) (prioritize gc wt ct orders).
Proof.
  unfold build_order_priority_queue.
  induction (prioritize gc wt ct orders) as [|x l IH]; [reflexivity|].
  change (sort_desc (x :: l)) with (insert_desc x (sort_desc l)).
  rewrite insert_desc_filter. cbn [List.filter]. rewrite IH. reflexivity.
Qed.

(** *** Preparation times *)

Lemma default_table_snoc gc l ft :
  foldl (add_prep_time gc) ∅ (l ++ [ft])
  = add_prep_time gc (foldl (add_prep_time gc) ∅ l) ft.
Proof. rewrite foldl_app. reflexivity. Qed.

Lemma default_table_lookup gc (l : list FoodType) :
  NoDup (food_name <$> l) ->
  "ONION" ∉ food_name <$> l ->
  (forall ft, ft ∈ l ->
     foldl (add_prep_time gc) ∅ l !! food_name ft
     = Some (inject_Z (prep_time_of gc ft))) /\
  foldl (add_prep_time gc) ∅ l !! "ONION"
  = foldl (add_prep_time gc) ∅ l !! "ONIONS" /\
  (forall k, k ∉ food_name <$> l -> k <> "ONION" ->
     foldl (add_prep_time gc) ∅ l !! k = None).
Proof.
  induction l as [|ft l IH] using rev_ind; intros Hnd Hon.
  - split; [|split].
    + intros ft Hft. apply elem_of_nil in Hft. contradiction.
    + reflexivity.
    + intros k _ _. apply lookup_empty.
  - rewrite fmap_app in Hnd, Hon. cbn [fmap list_fmap] in Hnd, Hon.
    apply NoDup_app in Hnd as (Hnd & Hfresh & _).
    assert (Hne : food_name ft <> "ONION") by set_solver.
    assert (Hnew : food_name ft ∉ food_name <$> l) by set_solver.
    destruct IH as (IH1 & IH2 & IH3); [exact Hnd|set_solver|].
    rewrite default_table_snoc. unfold add_prep_time.
    set (tbl := foldl (add_prep_time gc) ∅ l) in *.
    destruct (String.eqb_spec (food_name ft) "ONIONS") as [He|He].
    + split; [|split].
      * intros ft' Hft'. apply elem_of_app in Hft' as [Hft'|Hft'].
        -- assert (food_name ft' <> food_name ft).
           { intros Heq. apply Hnew. rewrite <- Heq.
             apply list_elem_of_fmap. exists ft'. split; [reflexivity|exact Hft']. }
           assert (food_name ft' <> "ONION").
           { intros Heq. apply Hon. apply elem_of_app. left. rewrite <- Heq.
             apply list_elem_of_fmap. exists ft'. split; [reflexivity|exact Hft']. }
           rewrite !lookup_insert_ne by congruence. apply IH1, Hft'.
        -- apply list_elem_of_singleton in Hft' as ->.
           rewrite lookup_insert_ne by congruence. apply lookup_insert_eq.
      * rewrite lookup_insert_eq, lookup_insert_ne by discriminate.
        rewrite He, lookup_insert_eq. reflexivity.
      * intros k Hk Hk'. rewrite fmap_app in Hk. cbn [fmap list_fmap] in Hk.
        assert (k <> food_name ft) by set_solver.
        rewrite !lookup_insert_ne by congruence. apply IH3; [set_solver|exact Hk'].
    + split; [|split].
      * intros ft' Hft'. apply elem_of_app in Hft' as [Hft'|Hft'].
        -- assert (food_name ft' <> food_name ft).
           { intros Heq. apply Hnew. rewrite <- Heq.
             apply list_elem_of_fmap. exists ft'. split; [reflexivity|exact Hft']. }
           rewrite lookup_insert_ne by congruence. apply IH1, Hft'.
        -- apply list_elem_of_singleton in Hft' as ->. apply lookup_insert_eq.
      * rewrite !lookup_insert_ne by congruence. exact IH2.
      * intros k Hk Hk'. rewrite fmap_app in Hk. cbn [fmap list_fmap] in Hk.
        assert (k <> food_name ft) by set_solver.
        rewrite lookup_insert_ne by congruence. apply IH3; [set_solver|exact Hk'].
Qed.

(** The default table, for food types with distinct names none of which is
    "ONION": every food type is listed under its name with 1 for chopping
    plus [COOK_PROGRESS] for cooking, "ONION" is listed exactly as "ONIONS"
    is, and no other key is listed. *)
Theorem default_prep_table gc :
  NoDup (food_name <$> food_types gc) ->
  "ONION" ∉ food_name <$> food_types gc ->
  (forall ft, ft ∈ food_types gc ->
     _build_default_prep_time_by_food gc !! food_name ft
     = Some (inject_Z ((if can_chop ft then 1 else 0)
                       + (if can_cook ft then COOK_PROGRESS gc else 0)))) /\
  _build_default_prep_time_by_food gc !! "ONION"
  = _build_default_prep_time_by_food gc !! "ONIONS" /\
  (forall k, k ∉ food_name <$> food_types gc -> k <> "ONION" ->
     _build_default_prep_time_by_food gc !! k = None).
Proof.
  intros Hnd Hon. exact (default_table_lookup gc (food_types gc) Hnd Hon).
Qed.
End more_ranking.

Section ranking_entries.
Import order_priority spec props.


End ranking_entries.

Section more_ranking_instances.
Import order_priority spec props sample sample_more.

(** The dearer of two sauce orders scores no lower. *)
Lemma higher_reward_scores_no_lower_witness :
  let q := build_order_priority_queue constants [sauce_order; dear_sauce_order]
             10 weights_all in
  exists s1 s2, q !! 1%nat = Some s1 /\ q !! 0%nat = Some s2 /\
    so_order s1 = sauce_order /\ so_order s2 = dear_sauce_order /\
    (priority_score s1 <= priority_score s2)%Q.
Proof.
  eexists _, _.
  split; [vm_compute; reflexivity|]. split; [vm_compute; reflexivity|].
  split; [reflexivity|]. split; [reflexivity|].
  refine (higher_reward_scores_no_lower constants [sauce_order; dear_sauce_order] 10
            weights_all 1 0 _ _ _ _ _ _ _ _ _ _ _);
    first [vm_compute; reflexivity | reflexivity | vm_compute; discriminate].
Defined.

(** The active noodles order comes before the pending order. *)
Lemma positive_score_before_inactive_witness :
  let q := build_order_priority_queue constants [later_order; noodles_order]
             10 weights_all in
  exists s1 s2, q !! 0%nat = Some s1 /\ q !! 1%nat = Some s2 /\
    so_order s1 = noodles_order /\ so_order s2 = later_order /\ (0 < 1)%nat.
Proof.
  eexists _, _.
  split; [vm_compute; reflexivity|]. split; [vm_compute; reflexivity|].
  split; [reflexivity|]. split; [reflexivity|].
  refine (positive_score_before_inactive constants [later_order; noodles_order] 10
            weights_all 0 1 _ _ _ _ _ _ _);
    first [vm_compute; reflexivity | reflexivity | vm_compute; discriminate].
Defined.

(** The order pending until turn 12 scores no lower than the one pending
    until turn 15. *)
Lemma sooner_activation_scores_no_lower_witness :
  let q := build_order_priority_queue constants [later_order; pending_a]
             10 weights_all in
  exists s1 s2, q !! 0%nat = Some s1 /\ q !! 1%nat = Some s2 /\
    so_order s1 = pending_a /\ so_order s2 = later_order /\
    (priority_score s2 <= priority_score s1)%Q.
Proof.
  eexists _, _.
  split; [vm_compute; reflexivity|]. split; [vm_compute; reflexivity|].
  split; [reflexivity|]. split; [reflexivity|].
  refine (sooner_activation_scores_no_lower constants [later_order; pending_a] 10
            weights_all 0 1 _ _ _ _ _ _ _ _);
    first [vm_compute; reflexivity | reflexivity | vm_compute; discriminate].
Defined.

(** The default table of the sample constants: meat takes 21 turns, and
    "ONION" is listed as "ONIONS" is. *)
Lemma default_prep_table_witness :
  _build_default_prep_time_by_food constants !! "MEAT" = Some (inject_Z 21) /\
  _build_default_prep_time_by_food constants !! "ONION"
  = _build_default_prep_time_by_food constants !! "ONIONS" /\
  _build_default_prep_time_by_food constants !! "BREAD" = None.
Proof.
  assert (Hnd : NoDup (food_name <$> food_types constants))
    by (apply (bool_decide_unpack _); vm_compute; exact I).
  assert (Hon : "ONION" ∉ food_name <$> food_types constants)
    by (apply (bool_decide_unpack _); vm_compute; exact I).
  destruct (default_prep_table constants Hnd Hon) as (H1 & H2 & H3).
  split; [|split].
  - apply (H1 (food "MEAT" true true 80)).
    cbn [food_types constants]. do 2 right. left.
  - exact H2.
  - apply H3; [apply (bool_decide_unpack _); vm_compute; exact I|discriminate].
Defined.
End more_ranking_instances.


(** * Further properties of the router *)

Section more_routing.
Import duo_noodle_bot spec props.
Variables (w h : Z).
Variable walkable : Z -> Z -> bool.
Variable tile_at : Z -> Z -> option Tile.
Variable target_predicate : Z -> Z -> option Tile -> bool.
Variable start : Cell.

Local Abbreviation enterable := (enterable w h walkable).
Local Abbreviation is_goal := (is_goal tile_at target_predicate).
Local Abbreviation bfs_inv := (bfs_inv w h walkable tile_at target_predicate start).
Local Abbreviation bfs_level := (bfs_level w h walkable start).
Local Abbreviation walk := (walk w h walkable start).
Local Abbreviation visit := (visit_neighbour w h walkable).
Local Abbreviation loop := (bfs_while w h walkable tile_at target_predicate).

(** The router answers the zero step exactly when [start] satisfies the
    goal predicate. *)
Theorem bfs_zero_step_iff :
  get_bfs_path w h walkable tile_at target_predicate start = Some (0, 0)
  <-> target_predicate start.1 start.2 (tile_at start.1 start.2) = true.
Proof.
  split.
  - intros Hz.
    destruct (get_bfs_path_runs w h walkable tile_at target_predicate start)
      as (r & Hrun & Hr).
    pose proof (bfs_while_correct w h walkable tile_at target_predicate start
                  _ _ _ r (bfs_inv_init w h walkable tile_at target_predicate start)
                  Hrun) as Hc.
    rewrite Hr in Hz. subst r.
    destruct Hc as [_ [[_ Hg]|[Hd _]]]; [exact Hg|].
    unfold DIRS in Hd. rewrite !elem_of_cons in Hd.
    destruct Hd as [Hd|[Hd|[Hd|[Hd|Hd]]]]; try discriminate.
    apply elem_of_nil in Hd. contradiction.
  - intros Hg. unfold get_bfs_path, get_bfs_path_fuel, bfs_fuel.
    cbn [bfs_while]. rewrite Hg. reflexivity.
Qed.

(** The inner loop queues only cells that were not visited before. *)
Lemma visit_fold_fresh c p ds q v :
  exists new,
    (foldl (visit c p) (q, v) ds).1 = q ++ new /\
    (foldl (visit c p) (q, v) ds).2 = list_to_set new.*1 ∪ v /\
    (forall n pn, (n, pn) ∈ new ->
       (n ∉ v) /\
       (exists d, d ∈ ds /\ n = shift c d /\ pn = p ++ [d] /\ enterable n)) /\
    (forall d, d ∈ ds -> enterable (shift c d) ->
       shift c d ∈ (foldl (visit c p) (q, v) ds).2).
Proof.
  revert q v. induction ds as [|d ds IH]; intros q v.
  - exists []. simpl. rewrite app_nil_r. repeat split.
    + set_solver.
    + apply elem_of_nil in H. contradiction.
    + apply elem_of_nil in H. contradiction.
    + intros d Hd. apply elem_of_nil in Hd. contradiction.
  - cbn [foldl]. rewrite visit_eq.
    destruct (in_bounds w h (shift c d)) eqn:Hb;
      [destruct (decide (shift c d ∈ v)) as [Hv|Hv];
       [rewrite bool_decide_false by (intros Hn; exact (Hn Hv))
       |rewrite bool_decide_true by assumption;
        destruct (walkable (shift c d).1 (shift c d).2) eqn:Hw]|];
      cbn [andb].
    + destruct (IH q v) as (new & H1 & H2 & H3 & H4).
      exists new. repeat split; try assumption.
      * apply (H3 n pn H).
      * destruct (H3 n pn H) as (_ & d' & Hd' & Hrest).
        exists d'. split; [right; assumption|assumption].
      * intros d' Hd' He. apply elem_of_cons in Hd' as [->|Hd'].
        -- rewrite H2. set_solver.
        -- apply H4; assumption.
    + destruct (IH (q ++ [(shift c d, p ++ [d])]) ({[shift c d]} ∪ v))
        as (new & H1 & H2 & H3 & H4).
      exists ((shift c d, p ++ [d]) :: new). repeat split.
      * rewrite H1, <- app_assoc. reflexivity.
      * rewrite H2. rewrite fmap_cons. simpl. set_solver.
      * apply elem_of_cons in H as [Heq|Hn].
        -- injection Heq as -> ->. exact Hv.
        -- destruct (H3 n pn Hn) as (Hfresh & _). set_solver.
      * apply elem_of_cons in H as [Heq|Hn].
        -- injection Heq as -> ->.
           exists d. repeat split; [left|assumption|assumption].
        -- destruct (H3 n pn Hn) as (_ & d' & Hd' & Hrest).
           exists d'. split; [right; assumption|assumption].
      * intros d' Hd' He. apply elem_of_cons in Hd' as [->|Hd'].
        -- rewrite H2. set_solver.
        -- apply H4; assumption.
    + destruct (IH q v) as (new & H1 & H2 & H3 & H4).
      exists new. repeat split; try assumption.
      * apply (H3 n pn H).
      * destruct (H3 n pn H) as (_ & d' & Hd' & Hrest).
        exists d'. split; [right; assumption|assumption].
      * intros d' Hd' He. apply elem_of_cons in Hd' as [->|Hd'].
        -- destruct He as [_ He]. congruence.
        -- apply H4; assumption.
    + destruct (IH q v) as (new & H1 & H2 & H3 & H4).
      exists new. repeat split; try assumption.
      * apply (H3 n pn H).
      * destruct (H3 n pn H) as (_ & d' & Hd' & Hrest).
        exists d'. split; [right; assumption|assumption].
      * intros d' Hd' He. apply elem_of_cons in Hd' as [->|Hd'].
        -- destruct He as [He _]. congruence.
        -- apply H4; assumption.
Qed.

Lemma walk_length_snoc c' p' n :
  walk c' p' -> length p' = S n ->
  exists c1 p1 d1, walk c1 p1 /\ length p1 = n /\ d1 ∈ DIRS /\
    enterable (shift c1 d1) /\ c' = shift c1 d1.
Proof.
  intros Hw Hl. inversion Hw as [Hc Hp|c1 p1 d1 Hw1 Hd He Hc Hp].
  - subst p'. discriminate.
  - subst p' c'. rewrite length_app in Hl. simpl in Hl.
    exists c1, p1, d1.
    split; [exact Hw1|]. split; [lia|]. split; [exact Hd|].
    split; [exact He|reflexivity].
Qed.

(** One iteration that does not return keeps the level invariant. *)
Lemma bfs_level_step c p q' v new :
  bfs_level ((c, p) :: q') v ->
  bfs_inv (q' ++ new) (list_to_set new.*1 ∪ v) ->
  (forall n pn, (n, pn) ∈ new ->
     (n ∉ v) /\
     (exists d, d ∈ DIRS /\ n = shift c d /\ pn = p ++ [d] /\ enterable n)) ->
  bfs_level (q' ++ new) (list_to_set new.*1 ∪ v).
Proof.
  intros [Hwalk Hshort Hsorted Hseen] Hinv Hnew.
  destruct (Hsorted c p q' eq_refl) as (q1 & q2 & Hq' & Hq1 & Hq2).
  specialize (Hseen c p q' eq_refl).
  assert (Hcp : walk c p) by (apply Hwalk; left).
  assert (Hnewlen : Forall (fun e => length e.2 = S (length p)) new).
  { apply Forall_forall. intros [n pn] Hin.
    destruct (Hnew n pn Hin) as (_ & d & _ & _ & -> & _).
    cbn [snd]. rewrite length_app. simpl. lia. }
  assert (Hshort' : forall x px p', (x, px) ∈ q' ++ new -> walk x p' ->
                                    (length px <= length p')%nat).
  { intros x px p' Hin Hw. apply elem_of_app in Hin as [Hin|Hin].
    - apply (Hshort x px p'); [right; exact Hin|exact Hw].
    - destruct (Hnew x px Hin) as (Hfresh & d & _ & _ & -> & _).
      rewrite length_app. simpl.
      destruct (le_lt_dec (length p') (length p)) as [Hle|Hgt]; [|lia].
      exfalso. apply Hfresh. apply (Hseen x p' Hw Hle). }
  assert (Hhead : forall c0 p0 rest, q' ++ new = (c0, p0) :: rest ->
            (length p0 = length p /\
             exists r1 r2, rest = r1 ++ r2 /\
               Forall (fun e => length e.2 = length p) r1 /\
               Forall (fun e => length e.2 = S (length p)) r2) \/
            (length p0 = S (length p) /\
             Forall (fun e => length e.2 = S (length p)) rest /\
             Forall (fun e => length e.2 = S (length p)) (q' ++ new))).
  { intros c0 p0 rest Heq. subst q'. destruct q1 as [|e1 q1'].
    - right. simpl in Heq.
      assert (Hall : Forall (fun e => length e.2 = S (length p)) (q2 ++ new))
        by (apply Forall_app; split; assumption).
      pose proof Hall as Hall'. rewrite Heq in Hall'.
      split; [exact (Forall_inv Hall')|].
      split; [exact (Forall_inv_tail Hall')|exact Hall].
    - left. simpl in Heq. injection Heq as He1 Hrest. subst e1 rest.
      pose proof (Forall_inv Hq1) as H0. pose proof (Forall_inv_tail Hq1) as Ht.
      split; [exact H0|].
      exists q1', (q2 ++ new). rewrite <- app_assoc.
      split; [reflexivity|].
      split; [exact Ht|apply Forall_app; split; assumption]. }
  split.
  - intros x px Hin. apply elem_of_app in Hin as [Hin|Hin].
    + apply Hwalk. right. exact Hin.
    + destruct (Hnew x px Hin) as (_ & d & Hd & -> & -> & He).
      apply walk_snoc; assumption.
  - exact Hshort'.
  - intros c0 p0 rest Heq.
    destruct (Hhead c0 p0 rest Heq) as [(Hl & r1 & r2 & Hr & H1 & H2)|(Hl & Hr & _)].
    + exists r1, r2. rewrite Hl. repeat split; assumption.
    + exists rest, []. rewrite app_nil_r, Hl. repeat split; [exact Hr|constructor].
  - intros c0 p0 rest Heq c' p' Hw Hle.
    destruct (le_lt_dec (length p') (length p)) as [Hold|Hgt].
    { apply elem_of_union. right. apply (Hseen c' p' Hw Hold). }
    destruct (Hhead c0 p0 rest Heq) as [(Hl & _)|(Hl & _ & Hall)]; [lia|].
    assert (Hlen : length p' = S (length p)) by lia.
    destruct (walk_length_snoc c' p' (length p) Hw Hlen)
      as (c1 & p1 & d1 & Hw1 & Hl1 & Hd1 & He1 & ->).
    assert (Hc1 : c1 ∈ list_to_set new.*1 ∪ v).
    { apply elem_of_union. right. apply (Hseen c1 p1 Hw1). lia. }
    destruct (inv_closed _ _ _ _ _ _ _ _ Hinv c1 Hc1) as [Hq|[_ Hcl]].
    + exfalso. apply elem_of_firsts in Hq as [prec Hq].
      pose proof (Hshort' c1 prec p1 Hq Hw1) as Hs.
      rewrite Forall_forall in Hall. specialize (Hall (c1, prec) Hq).
      cbn [snd] in Hall. lia.
    + apply Hcl; assumption.
Qed.

Lemma bfs_level_init : bfs_level [(start, [])] {[start]}.
Proof.
  split.
  - intros c p Hc. apply list_elem_of_singleton in Hc. injection Hc as -> ->.
    constructor.
  - intros c p p' Hc _. apply list_elem_of_singleton in Hc. injection Hc as -> ->.
    simpl. lia.
  - intros c p rest Heq. injection Heq as <- <- <-.
    exists [], []. repeat split; constructor.
  - intros c p rest Heq c' p' Hw Hle. injection Heq as <- <- <-.
    inversion Hw as [Hc Hp|c1 p1 d1 Hw1 Hd He Hc Hp].
    + set_solver.
    + subst p'. rewrite length_app in Hle. simpl in Hle. lia.
Qed.

Lemma bfs_while_shortest fuel q v s :
  bfs_inv q v -> bfs_level q v -> loop fuel q v = Some (Some s) ->
  exists c p, walk c p /\ is_goal c /\
    s = match p with [] => (0, 0) | d :: _ => d end /\
    forall c' p', walk c' p' -> is_goal c' -> (length p <= length p')%nat.
Proof.
  revert q v. induction fuel as [|fuel IH]; intros q v Hinv Hlvl Hrun; [discriminate|].
  destruct q as [|[c p] q']; cbn [bfs_while] in Hrun; [discriminate|].
  destruct (target_predicate c.1 c.2 (tile_at c.1 c.2)) eqn:Hg.
  - injection Hrun as <-. exists c, p.
    split; [apply (lvl_walk _ _ _ _ _ _ Hlvl); left|].
    split; [exact Hg|]. split; [reflexivity|].
    intros c' p' Hw Hgoal.
    destruct (le_lt_dec (length p) (length p')) as [Hle|Hlt]; [exact Hle|exfalso].
    assert (Hv : c' ∈ v).
    { apply (lvl_seen _ _ _ _ _ _ Hlvl c p q' eq_refl c' p' Hw). lia. }
    destruct (inv_closed _ _ _ _ _ _ _ _ Hinv c' Hv) as [Hq|[Hng _]];
      [|exact (Hng Hgoal)].
    apply elem_of_firsts in Hq as [prec Hq].
    pose proof (lvl_short _ _ _ _ _ _ Hlvl c' prec p' Hq Hw) as Hs.
    destruct (lvl_sorted _ _ _ _ _ _ Hlvl c p q' eq_refl) as (q1 & q2 & -> & H1 & H2).
    apply elem_of_cons in Hq as [Hq|Hq].
    + injection Hq as -> ->. lia.
    + apply elem_of_app in Hq as [Hq|Hq].
      * rewrite Forall_forall in H1. specialize (H1 _ Hq). cbn [snd] in H1. lia.
      * rewrite Forall_forall in H2. specialize (H2 _ Hq). cbn [snd] in H2. lia.
  - destruct (visit_fold_fresh c p DIRS q' v) as (new & H1 & H2 & H3 & H4).
    rewrite H1, H2 in Hrun. rewrite H2 in H4.
    assert (Hinv' : bfs_inv (q' ++ new) (list_to_set new.*1 ∪ v)).
    { apply (bfs_inv_step w h walkable tile_at target_predicate start c p q' v new Hinv).
      - unfold spec.is_goal. congruence.
      - intros n pn Hn. exact (proj2 (H3 n pn Hn)).
      - exact H4. }
    apply (IH _ _ Hinv' (bfs_level_step c p q' v new Hlvl Hinv' H3) Hrun).
Qed.

(** The step returned is the first move of a shortest route: there is a
    route from [start] to a cell satisfying the goal predicate that starts
    with this step (the zero step standing for the empty route), and no
    route to such a cell is shorter. *)
Theorem bfs_first_move_of_shortest step :
  get_bfs_path w h walkable tile_at target_predicate start = Some step ->
  exists c p, walk c p /\
    target_predicate c.1 c.2 (tile_at c.1 c.2) = true /\
    step = match p with [] => (0, 0) | d :: _ => d end /\
    forall c' p', walk c' p' ->
      target_predicate c'.1 c'.2 (tile_at c'.1 c'.2) = true ->
      (length p <= length p')%nat.
Proof.
  intros Hstep.
  destruct (get_bfs_path_runs w h walkable tile_at target_predicate start)
    as (r & Hrun & Hr).
  rewrite Hr in Hstep. subst r.
  exact (bfs_while_shortest _ _ _ step
           (bfs_inv_init w h walkable tile_at target_predicate start)
           bfs_level_init Hrun).
Qed.
End more_routing.

(** * Properties of the tile search *)

Section tile_search.
Import duo_noodle_bot spec props.
Variable m : Map.
Variables (bx by_ : Z).
Variable name : string.

Local Abbreviation scan :=
  (fun (acc : option Cell * Z) (c : Cell) => nearest_step m bx by_ name c.1 acc c.2).

Lemma foldl_pairs (x : Z) (ys : list Z) (acc : option Cell * Z) :
  foldl (nearest_step m bx by_ name x) acc ys
  = foldl scan acc (List.map (fun y => (x, y)) ys).
Proof.
  revert acc. induction ys as [|y ys IH]; intros acc; [reflexivity|].
  cbn [foldl List.map]. rewrite IH. reflexivity.
Qed.

(** The two nested loops visit the grid cells in the order of
    [grid_cells]. *)
Lemma nearest_flat (xs ys : list Z) (acc : option Cell * Z) :
  foldl (fun acc x => foldl (nearest_step m bx by_ name x) acc ys) acc xs
  = foldl scan acc (list_prod xs ys).
Proof.
  revert acc. induction xs as [|x xs IH]; intros acc; [reflexivity|].
  cbn [foldl list_prod]. rewrite foldl_app, IH, foldl_pairs. reflexivity.
Qed.

Lemma nearest_scan (cells : list Cell) (acc : option Cell * Z) :
  (foldl scan acc cells = acc \/
   exists c, c ∈ cells /\ tile_name (tiles m c.1 c.2) = name /\
     foldl scan acc cells = (Some c, chebyshev bx by_ c.1 c.2) /\
     chebyshev bx by_ c.1 c.2 < acc.2) /\
  (foldl scan acc cells).2 <= acc.2 /\
  (forall c, c ∈ cells -> tile_name (tiles m c.1 c.2) = name ->
     (foldl scan acc cells).2 <= chebyshev bx by_ c.1 c.2).
Proof.
  revert acc. induction cells as [|[x y] cells IH]; intros acc.
  - cbn [foldl]. split; [left; reflexivity|]. split; [lia|].
    intros c Hc. apply elem_of_nil in Hc. contradiction.
  - cbn [foldl fst snd].
    assert (Hstep :
      (nearest_step m bx by_ name x acc y = (Some (x, y), chebyshev bx by_ x y) /\
       tile_name (tiles m x y) = name /\ chebyshev bx by_ x y < acc.2) \/
      (nearest_step m bx by_ name x acc y = acc /\
       (tile_name (tiles m x y) = name -> acc.2 <= chebyshev bx by_ x y))).
    { unfold nearest_step.
      destruct (String.eqb_spec (tile_name (tiles m x y)) name) as [Hn|Hn].
      - destruct (Z.ltb_spec (chebyshev bx by_ x y) acc.2) as [Hlt|Hge].
        + left. repeat split; assumption.
        + right. split; [reflexivity|intros _; exact Hge].
      - right. split; [reflexivity|intros Hm; contradiction]. }
    destruct Hstep as [(-> & Hn & Hlt)|(-> & Hge)].
    + destruct (IH (Some (x, y), chebyshev bx by_ x y)) as (H1 & H2 & H3).
      cbn [snd] in *. split; [|split].
      * right. destruct H1 as [H1|(c' & Hc' & Hm & H1 & Hd)].
        -- exists (x, y). rewrite H1. repeat split; [left|assumption|assumption].
        -- exists c'. repeat split; [right; assumption|assumption|assumption|lia].
      * lia.
      * intros c' Hc' Hm. apply elem_of_cons in Hc' as [->|Hc'];
          [exact H2|apply H3; assumption].
    + destruct (IH acc) as (H1 & H2 & H3). split; [|split].
      * destruct H1 as [H1|(c' & Hc' & Hm & H1 & Hd)]; [left; exact H1|].
        right. exists c'. repeat split; [right; assumption|assumption..].
      * exact H2.
      * intros c' Hc' Hm. apply elem_of_cons in Hc' as [->|Hc'];
          [specialize (Hge Hm); cbn [fst snd]; lia|apply H3; assumption].
Qed.

Lemma find_nearest_tile_cases :
  match find_nearest_tile m bx by_ name with
  | Some c =>
      in_bounds (width m) (height m) c = true /\
      tile_name (tiles m c.1 c.2) = name /\
      chebyshev bx by_ c.1 c.2 < 9999 /\
      forall c', in_bounds (width m) (height m) c' = true ->
        tile_name (tiles m c'.1 c'.2) = name ->
        chebyshev bx by_ c.1 c.2 <= chebyshev bx by_ c'.1 c'.2
  | None =>
      forall c', in_bounds (width m) (height m) c' = true ->
        tile_name (tiles m c'.1 c'.2) = name ->
        9999 <= chebyshev bx by_ c'.1 c'.2
  end.
Proof.
  unfold find_nearest_tile. rewrite nearest_flat.
  fold (grid_cells (width m) (height m)).
  destruct (nearest_scan (grid_cells (width m) (height m)) (None, 9999))
    as (H1 & _ & H3).
  destruct H1 as [H1|(c & Hc & Hm & H1 & Hd)].
  - rewrite H1 in *. cbn [fst snd] in *. intros c' Hc' Hm.
    apply H3; [apply in_grid_cells; exact Hc'|exact Hm].
  - rewrite H1 in *. cbn [fst snd] in *.
    split; [apply in_grid_cells; exact Hc|]. split; [exact Hm|]. split; [exact Hd|].
    intros c' Hc' Hm'. apply H3; [apply in_grid_cells; exact Hc'|exact Hm'].
Qed.

(** The tile found lies in the grid, carries the name asked for, is less
    than 9999 away (Chebyshev) and no tile of that name in the grid is
    nearer. *)
Theorem find_nearest_tile_nearest c :
  find_nearest_tile m bx by_ name = Some c ->
  in_bounds (width m) (height m) c = true /\
  tile_name (tiles m c.1 c.2) = name /\
  chebyshev bx by_ c.1 c.2 < 9999 /\
  forall c', in_bounds (width m) (height m) c' = true ->
    tile_name (tiles m c'.1 c'.2) = name ->
    chebyshev bx by_ c.1 c.2 <= chebyshev bx by_ c'.1 c'.2.
Proof.
  intros H. pose proof find_nearest_tile_cases as Hc. rewrite H in Hc. exact Hc.
Qed.

(** The search answers [None] exactly when every tile of that name in the
    grid is at least 9999 away: in particular when there is none, and also
    when the only ones are that far. *)
Theorem find_nearest_tile_none_iff :
  find_nearest_tile m bx by_ name = None <->
  forall c', in_bounds (width m) (height m) c' = true ->
    tile_name (tiles m c'.1 c'.2) = name ->
    9999 <= chebyshev bx by_ c'.1 c'.2.
Proof.
  pose proof find_nearest_tile_cases as Hc.
  destruct (find_nearest_tile m bx by_ name) as [c|].
  - destruct Hc as (Hb & Hm & Hd & _). split; [discriminate|].
    intros Hall. specialize (Hall c Hb Hm). lia.
  - split; [intros _; exact Hc|reflexivity].
Qed.
End tile_search.

Section more_routing_instances.
Import duo_noodle_bot spec props sample.

(** From (0,1) towards the trash at (4,0) the answer (1,0) starts a shortest
    route. *)
Lemma bfs_first_move_of_shortest_witness :
  get_bfs_path 5 3 (fun _ y => 1 <=? y) (fun _ _ => None)
    (fun x y _ => chebyshev x y 4 0 <=? 1) (0, 1) = Some (1, 0) /\
  exists c p, walk 5 3 (fun _ y => 1 <=? y) (0, 1) c p /\
    (1, 0) = match p with [] => (0, 0) | d :: _ => d end /\
    forall c' p', walk 5 3 (fun _ y => 1 <=? y) (0, 1) c' p' ->
      (chebyshev c'.1 c'.2 4 0 <=? 1) = true ->
      (length p <= length p')%nat.
Proof.
  assert (H : get_bfs_path 5 3 (fun _ y => 1 <=? y) (fun _ _ => None)
                (fun x y _ => chebyshev x y 4 0 <=? 1) (0, 1) = Some (1, 0))
    by (vm_compute; reflexivity).
  split; [exact H|].
  destruct (bfs_first_move_of_shortest 5 3 (fun _ y => 1 <=? y) (fun _ _ => None)
              (fun x y _ => chebyshev x y 4 0 <=? 1) (0, 1) (1, 0) H)
    as (c & p & Hw & _ & Hs & Hmin).
  exists c, p. split; [exact Hw|]. split; [exact Hs|exact Hmin].
Defined.

(** In the sample kitchen the shop nearest to (1,1) is the one at (2,0). *)
Lemma find_nearest_tile_nearest_witness :
  find_nearest_tile (kitchen_map true) 1 1 "SHOP" = Some (2, 0) /\
  tile_name (tiles (kitchen_map true) 2 0) = "SHOP" /\
  chebyshev 1 1 2 0 < 9999.
Proof.
  assert (H : find_nearest_tile (kitchen_map true) 1 1 "SHOP" = Some (2, 0))
    by (vm_compute; reflexivity).
  split; [exact H|].
  destruct (find_nearest_tile_nearest (kitchen_map true) 1 1 "SHOP" (2, 0) H)
    as (_ & Hn & Hd & _).
  split; [exact Hn|exact Hd].
Defined.
End more_routing_instances.


(** * Further properties of the turn *)

Section more_turn.
Import order_priority duo_noodle_bot spec props.
Context {W : Type}.
Local Opaque get_bfs_path find_nearest_tile build_order_priority_queue chebyshev.

Local Ltac split_fsm :=
  repeat (unfold_turn;
          match goal with
          | |- context [move_towards ?c ?b ?x ?y ?r] =>
              rewrite (move_towards_run c b x y r); cbv zeta
          | |- context [match ?x with _ => _ end] =>
              lazymatch x with
              | context [match _ with _ => _ end] => fail
              | _ => destruct x eqn:?
              end
          end).

(** A step answered by the router leads to an enterable cell. *)
Lemma bfs_step_enterable w h walkable tile_at goal start dx dy :
  get_bfs_path w h walkable tile_at goal start = Some (dx, dy) ->
  bool_decide ((dx, dy) ≠ (0, 0)) = true ->
  (dx, dy) ∈ DIRS /\
  in_bounds w h (start.1 + dx, start.2 + dy) = true /\
  walkable (start.1 + dx) (start.2 + dy) = true.
Proof.
  intros Hstep Hnz. apply bool_decide_eq_true in Hnz.
  destruct (get_bfs_path_runs w h walkable tile_at goal start) as (r & Hrun & Hr).
  pose proof (bfs_while_correct w h walkable tile_at goal start _ _ _ r
                (bfs_inv_init w h walkable tile_at goal start) Hrun) as Hc.
  rewrite Hr in Hstep. subst r.
  destruct Hc as [_ [[Hz _]|[Hd [Hb Hw]]]]; [contradiction|].
  split; [exact Hd|]. split; assumption.
Qed.

(** The FSM step leaves the output alone. *)
Lemma fsm_stdout gc (ctl : RobotController W) bot_id bx by_ held cx cy kx ky
    (r : Run W) :
  stdout (fsm gc ctl bot_id bx by_ held cx cy kx ky r).2 = stdout r.
Proof. unfold fsm. split_fsm. all: reflexivity. Qed.

(** Moves, purchases and the place of the calls made by the FSM step. *)
Lemma fsm_call gc (ctl : RobotController W) bot_id bx by_ held cx cy kx ky
    (r : Run W) a ok :
  trace (fsm gc ctl bot_id bx by_ held cx cy kx ky r).2 = trace r ++ [(a, ok)] ->
  actor a = bot_id /\
  ok = (perform ctl a (world r)).1 /\
  world (fsm gc ctl bot_id bx by_ held cx cy kx ky r).2 = (perform ctl a (world r)).2 /\
  (forall i dx dy, a = move i dx dy ->
     (dx, dy) ∈ DIRS /\
     in_bounds (width (map (self r))) (height (map (self r)))
       (bot_x (get_bot_state ctl (world r) bot_id) + dx,
        bot_y (get_bot_state ctl (world r) bot_id) + dy) = true /\
     is_tile_walkable (get_map ctl (world r))
       (bot_x (get_bot_state ctl (world r) bot_id) + dx)
       (bot_y (get_bot_state ctl (world r) bot_id) + dy) = true) /\
  (forall i it x y, a = buy i it x y ->
     item_cost gc it <= get_team_money ctl (world r)) /\
  (forall c, target a = Some c ->
     chebyshev (bot_x (get_bot_state ctl (world r) bot_id))
               (bot_y (get_bot_state ctl (world r) bot_id)) c.1 c.2 <= 1 \/
     (state (self r) = 17 /\ held = None /\
      (a = take_from_pan bot_id kx ky \/ a = pickup bot_id cx cy))).
Proof.
  unfold fsm. split_fsm.
  all: intros Htr.
  all: try (exfalso; apply (f_equal length) in Htr;
            rewrite length_app in Htr; simpl in Htr; lia).
  all: apply app_inv_head in Htr; injection Htr as <- <-.
  all: split; [reflexivity|];
       split; [first [reflexivity|symmetry; assumption]|]; split; [reflexivity|].
  all: split; [intros ? ? ? Hmv; try discriminate Hmv|].
  all: try (injection Hmv as _ <- <-;
            match goal with
            | H : get_bfs_path _ _ _ _ _ _ = Some _, H2 : bool_decide _ = true |- _ =>
                exact (bfs_step_enterable _ _ _ _ _ _ _ _ H H2)
            end).
  all: split; [intros ? ? ? ? Hb; try discriminate Hb|].
  all: try (injection Hb as _ <- _ _; cbn [item_cost];
            match goal with
            | H : (_ <=? _) = true |- _ <= _ => apply Z.leb_le in H; exact H
            end).
  all: intros ? Hc; try discriminate Hc; injection Hc as <-; cbn [fst snd].
  all: first [ left;
               match goal with
               | H : (chebyshev _ _ ?x ?y <=? 1) = true |- chebyshev _ _ ?x ?y <= 1 =>
                   apply Z.leb_le in H; exact H
               end
             | right; split;
               [match goal with
                | H : (state _ =? 17) = true |- _ => apply Z.eqb_eq in H; exact H
                end
               |split; [reflexivity|first [left; reflexivity|right; reflexivity]]] ].
Qed.

(** The state after the FSM step is the state before or one of its
    successors. *)
Lemma fsm_states gc (ctl : RobotController W) bot_id bx by_ held cx cy kx ky
    (r : Run W) :
  state (self (fsm gc ctl bot_id bx by_ held cx cy kx ky r).2) = state (self r) \/
  state (self (fsm gc ctl bot_id bx by_ held cx cy kx ky r).2)
  ∈ successors (state (self r)).
Proof.
  unfold fsm. split_fsm.
  all: first [ left; reflexivity
             | right; unfold successors;
               repeat match goal with
                 | H : (_ =? _) = _ |- _ => rewrite H; clear H
                 end;
               cbn [state set_state self snd]; set_solver ].
Qed.

(** A successful buy, chop, pickup, add-to-plate or submit moves a pipeline
    state on. *)
Lemma fsm_success gc (ctl : RobotController W) bot_id bx by_ held cx cy kx ky
    (r : Run W) a :
  trace (fsm gc ctl bot_id bx by_ held cx cy kx ky r).2 = trace r ++ [(a, true)] ->
  advancing a = true ->
  state (self r) <> 1 -> state (self r) <> 17 ->
  state (self (fsm gc ctl bot_id bx by_ held cx cy kx ky r).2)
  = after_success (state (self r)).
Proof.
  unfold fsm. split_fsm.
  all: intros Htr.
  all: try (exfalso; apply (f_equal length) in Htr;
            rewrite length_app in Htr; simpl in Htr; lia).
  all: apply app_inv_head in Htr; injection Htr as <-.
  all: intros Hadv H1 H17; try discriminate Hadv; try congruence.
  all: try (exfalso;
            match goal with
            | H : (state _ =? 1) = true |- _ => apply Z.eqb_eq in H; contradiction
            | H : (state _ =? 17) = true |- _ => apply Z.eqb_eq in H; contradiction
            end).
  all: unfold after_success.
  all: repeat match goal with
         | H : (_ =? _) = _ |- _ => rewrite H; clear H
         end.
  all: reflexivity.
Qed.

Lemma fsm_success_stay gc (ctl : RobotController W) bot_id bx by_ held cx cy kx ky
    (r : Run W) a :
  trace (fsm gc ctl bot_id bx by_ held cx cy kx ky r).2 = trace r ++ [(a, true)] ->
  advancing a = true ->
  state (self r) = 1 \/ state (self r) = 17 ->
  state (self (fsm gc ctl bot_id bx by_ held cx cy kx ky r).2) = state (self r).
Proof.
  unfold fsm. split_fsm.
  all: intros Htr.
  all: try (exfalso; apply (f_equal length) in Htr;
            rewrite length_app in Htr; simpl in Htr; lia).
  all: apply app_inv_head in Htr; injection Htr as <-.
  all: intros Hadv Hs; try discriminate Hadv; try congruence.
  all: try reflexivity.
  all: exfalso; destruct Hs as [Hs|Hs]; rewrite Hs in *; discriminate.
Qed.

(** The FSM step raises only where it unpacks the result of a tile search
    that found nothing, and then before any call or change. *)
Lemma fsm_raise gc (ctl : RobotController W) bot_id bx by_ held cx cy kx ky
    (r : Run W) e :
  (fsm gc ctl bot_id bx by_ held cx cy kx ky r).1 = Raise e ->
  (fsm gc ctl bot_id bx by_ held cx cy kx ky r).2 = r /\
  exists name, name ∈ ["SHOP"; "SUBMIT"; "TRASH"] /\
    find_nearest_tile (get_map ctl (world r)) bx by_ name = None.
Proof.
  unfold fsm. split_fsm.
  all: intros Hr; try discriminate Hr.
  all: split; [reflexivity|].
  all: match goal with
       | H : find_nearest_tile _ _ _ ?n = None |- _ =>
           exists n; split; [set_solver|exact H]
       end.
Qed.



(** The turn, split at the FSM step: what the step starts from. *)
Lemma play_turn_split gc (ctl : RobotController W) b w bot_id rest :
  get_team_bot_ids ctl w = bot_id :: rest ->
  let bot := get_bot_state ctl w bot_id in
  let counter := station_of (assembly_counter b) (get_map ctl w)
                   (bot_x bot) (bot_y bot) "COUNTER" in
  let cooker := station_of (cooker_loc b) (get_map ctl w)
                  (bot_x bot) (bot_y bot) "COOKER" in
  exists r1,
    world r1 = w /\ trace r1 = [] /\
    state (self r1) = state b /\ map (self r1) = map b /\
    self r1 = set_locations counter cooker
                (set_my_bot_id bot_id
                   (self (rank_and_log gc ctl (start_turn b w)).2)) /\
    stdout r1 = stdout (rank_and_log gc ctl (start_turn b w)).2 /\
    play_turn gc ctl (start_turn b w) =
    match counter, cooker with
    | Some c, Some k =>
        fsm gc ctl bot_id (bot_x bot) (bot_y bot) (holding bot) c.1 c.2 k.1 k.2 r1
    | _, _ => (Ok tt, r1)
    end.
Proof.
  intros Hbots. cbv zeta.
  destruct (rank_and_log_run gc ctl (start_turn b w)) as (s & sa & cur & lines & Hr).
  unfold play_turn. unfold_turn. rewrite Hbots, Hr. unfold_turn.
  unfold station_of.
  destruct (assembly_counter b) as [c|], (cooker_loc b) as [k|]; unfold_turn;
    repeat match goal with
      | |- context [find_nearest_tile ?m ?x ?y ?n] =>
          destruct (find_nearest_tile m x y n); unfold_turn
      end;
    eexists; (repeat split); reflexivity.
Qed.


(** The order bookkeeping and the output after a turn are those of the
    ranking pass. *)
Lemma play_turn_bookkeeping gc (ctl : RobotController W) b w bot_id rest :
  get_team_bot_ids ctl w = bot_id :: rest ->
  let out := play_turn gc ctl (start_turn b w) in
  let ranked := (rank_and_log gc ctl (start_turn b w)).2 in
  seen_order_ids (self out.2) = seen_order_ids (self ranked) /\
  seen_active_order_ids (self out.2) = seen_active_order_ids (self ranked) /\
  current_order_id (self out.2) = current_order_id (self ranked) /\
  has_printed_priority (self out.2) = has_printed_priority (self ranked) /\
  stdout out.2 = stdout ranked /\
  my_bot_id (self out.2) = Some bot_id /\
  assembly_counter (self out.2)
  = station_of (assembly_counter b) (get_map ctl w)
      (bot_x (get_bot_state ctl w bot_id)) (bot_y (get_bot_state ctl w bot_id))
      "COUNTER" /\
  cooker_loc (self out.2)
  = station_of (cooker_loc b) (get_map ctl w)
      (bot_x (get_bot_state ctl w bot_id)) (bot_y (get_bot_state ctl w bot_id))
      "COOKER".
Proof.
  intros Hbots. cbv zeta.
  destruct (play_turn_split gc ctl b w bot_id rest Hbots)
    as (r1 & _ & _ & _ & _ & Hself & Hout & ->).
  set (counter := station_of (assembly_counter b) _ _ _ _) in *.
  set (cooker := station_of (cooker_loc b) _ _ _ _) in *.
  assert (Hfields : forall st,
    seen_order_ids (set_state st (self r1))
    = seen_order_ids (self (rank_and_log gc ctl (start_turn b w)).2) /\
    seen_active_order_ids (set_state st (self r1))
    = seen_active_order_ids (self (rank_and_log gc ctl (start_turn b w)).2) /\
    current_order_id (set_state st (self r1))
    = current_order_id (self (rank_and_log gc ctl (start_turn b w)).2) /\
    has_printed_priority (set_state st (self r1))
    = has_printed_priority (self (rank_and_log gc ctl (start_turn b w)).2) /\
    my_bot_id (set_state st (self r1)) = Some bot_id /\
    assembly_counter (set_state st (self r1)) = counter /\
    cooker_loc (set_state st (self r1)) = cooker).
  { intros st. rewrite Hself. repeat split; reflexivity. }
  destruct counter as [c|], cooker as [k|].
  - rewrite fsm_frame, fsm_stdout.
    destruct (Hfields (state (self (fsm gc ctl bot_id
                 (bot_x (get_bot_state ctl w bot_id))
                 (bot_y (get_bot_state ctl w bot_id))
                 (holding (get_bot_state ctl w bot_id)) c.1 c.2 k.1 k.2 r1).2)))
      as (H1 & H2 & H3 & H4 & H5 & H6 & H7).
    repeat split; assumption.
  - cbn [snd]. rewrite Hself. repeat split; try reflexivity; exact Hout.
  - cbn [snd]. rewrite Hself. repeat split; try reflexivity; exact Hout.
  - cbn [snd]. rewrite Hself. repeat split; try reflexivity; exact Hout.
Qed.

(** The call of a turn, if there is one, is made by the FSM step. *)
Lemma play_turn_call gc (ctl : RobotController W) b w a ok :
  trace (play_turn gc ctl (start_turn b w)).2 = [(a, ok)] ->
  exists bot_id rest c k r1,
    get_team_bot_ids ctl w = bot_id :: rest /\
    station_of (assembly_counter b) (get_map ctl w)
      (bot_x (get_bot_state ctl w bot_id)) (bot_y (get_bot_state ctl w bot_id))
      "COUNTER" = Some c /\
    station_of (cooker_loc b) (get_map ctl w)
      (bot_x (get_bot_state ctl w bot_id)) (bot_y (get_bot_state ctl w bot_id))
      "COOKER" = Some k /\
    world r1 = w /\ trace r1 = [] /\
    state (self r1) = state b /\ map (self r1) = map b /\
    play_turn gc ctl (start_turn b w)
    = fsm gc ctl bot_id (bot_x (get_bot_state ctl w bot_id))
        (bot_y (get_bot_state ctl w bot_id))
        (holding (get_bot_state ctl w bot_id)) c.1 c.2 k.1 k.2 r1 /\
    trace (fsm gc ctl bot_id (bot_x (get_bot_state ctl w bot_id))
             (bot_y (get_bot_state ctl w bot_id))
             (holding (get_bot_state ctl w bot_id)) c.1 c.2 k.1 k.2 r1).2
    = trace r1 ++ [(a, ok)].
Proof.
  intros Htr.
  destruct (get_team_bot_ids ctl w) as [|bot_id rest] eqn:Hbots.
  { exfalso. revert Htr. unfold play_turn. unfold_turn. rewrite Hbots.
    discriminate. }
  destruct (play_turn_split gc ctl b w bot_id rest Hbots)
    as (r1 & Hw & Ht & Hst & Hm & _ & _ & Hrun).
  rewrite Hrun in Htr.
  destruct (station_of (assembly_counter b) _ _ _ _) as [c|] eqn:Hc;
    [destruct (station_of (cooker_loc b) _ _ _ _) as [k|] eqn:Hk|];
    try (cbn [snd] in Htr; rewrite Ht in Htr; discriminate).
  exists bot_id, rest, c, k, r1. rewrite Ht.
  repeat split; try assumption; reflexivity.
Qed.

(** Every call is made for the first bot of the team; the answer recorded
    and the world left are the engine's. *)
Theorem calls_are_for_first_bot gc (ctl : RobotController W) b w a ok :
  trace (play_turn gc ctl (start_turn b w)).2 = [(a, ok)] ->
  head (get_team_bot_ids ctl w) = Some (actor a) /\
  ok = (perform ctl a w).1 /\
  world (play_turn gc ctl (start_turn b w)).2 = (perform ctl a w).2.
Proof.
  intros Htr.
  destruct (play_turn_call gc ctl b w a ok Htr)
    as (bot_id & rest & c & k & r1 & Hbots & _ & _ & Hw & Ht & _ & _ & Hrun & Hcall).
  rewrite Hrun.
  destruct (fsm_call gc ctl bot_id _ _ _ _ _ _ _ r1 a ok Hcall) as (Ha & Hok & Hwd & _).
  rewrite Hw in Hok, Hwd. rewrite Hbots, Ha. repeat split; assumption.
Qed.

(** A move requested by a turn is one of the four unit steps and leads the
    bot to a cell inside the bounds of the bot's map that the controller's
    map reports walkable. *)
Theorem moves_are_safe gc (ctl : RobotController W) b w i dx dy ok :
  trace (play_turn gc ctl (start_turn b w)).2 = [(move i dx dy, ok)] ->
  ((dx, dy) = (1, 0) \/ (dx, dy) = (-1, 0) \/ (dx, dy) = (0, 1)
   \/ (dx, dy) = (0, -1)) /\
  in_bounds (width (map b)) (height (map b))
    (bot_x (get_bot_state ctl w i) + dx, bot_y (get_bot_state ctl w i) + dy)
  = true /\
  is_tile_walkable (get_map ctl w)
    (bot_x (get_bot_state ctl w i) + dx) (bot_y (get_bot_state ctl w i) + dy)
  = true.
Proof.
  intros Htr.
  destruct (play_turn_call gc ctl b w _ ok Htr)
    as (bot_id & rest & c & k & r1 & Hbots & _ & _ & Hw & Ht & _ & Hm & Hrun & Hcall).
  destruct (fsm_call gc ctl bot_id _ _ _ _ _ _ _ r1 _ ok Hcall)
    as (Ha & _ & _ & Hmv & _).
  cbn [actor] in Ha. subst i.
  destruct (Hmv bot_id dx dy eq_refl) as (Hd & Hb & Hwk).
  rewrite Hw, Hm in *.
  split; [|split; assumption].
  unfold DIRS in Hd. rewrite !elem_of_cons in Hd.
  destruct Hd as [Hd|[Hd|[Hd|[Hd|Hd]]]]; auto.
  apply elem_of_nil in Hd. contradiction.
Qed.

(** A turn buys only what the team can pay. *)
Theorem buys_are_funded gc (ctl : RobotController W) b w i it x y ok :
  trace (play_turn gc ctl (start_turn b w)).2 = [(buy i it x y, ok)] ->
  item_cost gc it <= get_team_money ctl w.
Proof.
  intros Htr.
  destruct (play_turn_call gc ctl b w _ ok Htr)
    as (bot_id & rest & c & k & r1 & _ & _ & _ & Hw & Ht & _ & _ & Hrun & Hcall).
  destruct (fsm_call gc ctl bot_id _ _ _ _ _ _ _ r1 _ ok Hcall)
    as (_ & _ & _ & _ & Hbuy & _).
  rewrite Hw in Hbuy. exact (Hbuy i it x y eq_refl).
Qed.

(** A call on a tile is made from within Chebyshev distance 1 of the tile,
    except for the two cleanup calls of state 17 (take-from-pan at the
    cooker, pickup at the counter), which are made with empty hands from
    wherever the bot stands. *)
Theorem calls_are_adjacent gc (ctl : RobotController W) b w a ok c :
  trace (play_turn gc ctl (start_turn b w)).2 = [(a, ok)] ->
  target a = Some c ->
  chebyshev (bot_x (get_bot_state ctl w (actor a)))
            (bot_y (get_bot_state ctl w (actor a))) c.1 c.2 <= 1 \/
  (state b = 17 /\ holding (get_bot_state ctl w (actor a)) = None /\
   ((exists x y, a = take_from_pan (actor a) x y /\
       cooker_loc (play_turn gc ctl (start_turn b w)).2.(self) = Some (x, y)) \/
    (exists x y, a = pickup (actor a) x y /\
       assembly_counter (play_turn gc ctl (start_turn b w)).2.(self) = Some (x, y)))).
Proof.
  intros Htr Htg.
  destruct (play_turn_call gc ctl b w a ok Htr)
    as (bot_id & rest & ct & k & r1 & Hbots & Hct & Hk & Hw & Ht & Hst & _ & Hrun & Hfsm).
  destruct (play_turn_bookkeeping gc ctl b w bot_id rest Hbots)
    as (_ & _ & _ & _ & _ & _ & Hac & Hck).
  rewrite Hct in Hac. rewrite Hk in Hck.
  destruct (fsm_call gc ctl bot_id _ _ _ _ _ _ _ r1 a ok Hfsm)
    as (Ha & _ & _ & _ & _ & Hadj).
  rewrite Hw, Hst in Hadj. rewrite Ha.
  destruct (Hadj c Htg) as [Hnear|(H17 & Hheld & Hcall)]; [left; exact Hnear|].
  right. split; [exact H17|]. split; [exact Hheld|].
  destruct Hcall as [Hcall|Hcall].
  - left. exists k.1, k.2. split; [exact Hcall|].
    rewrite Hck. destruct k; reflexivity.
  - right. exists ct.1, ct.2. split; [exact Hcall|].
    rewrite Hac. destruct ct; reflexivity.
Qed.

(** The turn either runs the FSM step or leaves state, world and record of
    calls as they were. *)
Lemma play_turn_step gc (ctl : RobotController W) b w :
  ((play_turn gc ctl (start_turn b w)).1 = Ok tt /\
   trace (play_turn gc ctl (start_turn b w)).2 = [] /\
   world (play_turn gc ctl (start_turn b w)).2 = w /\
   state (self (play_turn gc ctl (start_turn b w)).2) = state b) \/
  exists bot_id rest c k r1,
    get_team_bot_ids ctl w = bot_id :: rest /\
    station_of (assembly_counter b) (get_map ctl w)
      (bot_x (get_bot_state ctl w bot_id)) (bot_y (get_bot_state ctl w bot_id))
      "COUNTER" = Some c /\
    station_of (cooker_loc b) (get_map ctl w)
      (bot_x (get_bot_state ctl w bot_id)) (bot_y (get_bot_state ctl w bot_id))
      "COOKER" = Some k /\
    world r1 = w /\ trace r1 = [] /\
    state (self r1) = state b /\ map (self r1) = map b /\
    play_turn gc ctl (start_turn b w)
    = fsm gc ctl bot_id (bot_x (get_bot_state ctl w bot_id))
        (bot_y (get_bot_state ctl w bot_id))
        (holding (get_bot_state ctl w bot_id)) c.1 c.2 k.1 k.2 r1.
Proof.
  destruct (get_team_bot_ids ctl w) as [|bot_id rest] eqn:Hbots.
  { left. unfold play_turn. unfold_turn. rewrite Hbots.
    repeat split; reflexivity. }
  destruct (play_turn_split gc ctl b w bot_id rest Hbots)
    as (r1 & Hw & Ht & Hst & Hm & _ & _ & Hrun).
  destruct (station_of (assembly_counter b) _ _ _ _) as [c|] eqn:Hc;
    [destruct (station_of (cooker_loc b) _ _ _ _) as [k|] eqn:Hk|].
  - right. exists bot_id, rest, c, k, r1. repeat split; assumption.
  - left. rewrite Hrun. cbn [fst snd]. repeat split; assumption.
  - left. rewrite Hrun. cbn [fst snd]. repeat split; assumption.
Qed.

Lemma play_turn_states gc (ctl : RobotController W) b w :
  state (self (play_turn gc ctl (start_turn b w)).2) = state b \/
  state (self (play_turn gc ctl (start_turn b w)).2) ∈ successors (state b).
Proof.
  destruct (play_turn_step gc ctl b w)
    as [(_ & _ & _ & Hst)|(bot_id & rest & c & k & r1 & _ & _ & _ & _ & _ & Hst & _ & ->)].
  - left. exact Hst.
  - rewrite <- Hst. apply fsm_states.
Qed.

(** Within one turn the state stays or moves to a successor in the chain
    0 -> 1 or 2, 1 -> 2 -> 3 -> 4 -> 5 -> 6 -> 8 -> 9 -> 10 -> 11 -> 12 -> 13
    -> 14 -> 15 -> 17 -> 0. *)
Theorem state_moves_along_chain gc (ctl : RobotController W) b w :
  state (self (play_turn gc ctl (start_turn b w)).2) = state b \/
  state (self (play_turn gc ctl (start_turn b w)).2) ∈ successors (state b).
Proof. apply play_turn_states. Qed.

(** The sixteen states of the chain are closed under turns: from one of
    them no turn leads to 7, 16 or any other number. *)
Theorem pipeline_states_closed gc (ctl : RobotController W) b w :
  state b ∈ pipeline_states ->
  state (self (play_turn gc ctl (start_turn b w)).2) ∈ pipeline_states.
Proof.
  intros Hin.
  destruct (play_turn_states gc ctl b w) as [->|Hs]; [exact Hin|].
  revert Hs. generalize (state (self (play_turn gc ctl (start_turn b w)).2)).
  intros st'. unfold pipeline_states in Hin. rewrite !elem_of_cons in Hin.
  destruct Hin as [->|[->|[->|[->|[->|[->|[->|[->|[->|[->|[->|[->|[->|[->|[->|[->|Hin]]]]]]]]]]]]]]]];
    [..|apply elem_of_nil in Hin; contradiction].
  all: cbn; unfold pipeline_states; set_solver.
Qed.


(** A buy, chop, pickup, add-to-plate or submit that succeeds moves the
    state on to the next stage; the exceptions are the pan bought in state 1
    and the cleanup of state 17, where the state stays. *)
Theorem successful_call_advances gc (ctl : RobotController W) b w a :
  trace (play_turn gc ctl (start_turn b w)).2 = [(a, true)] ->
  advancing a = true ->
  (state b <> 1 -> state b <> 17 ->
   state (self (play_turn gc ctl (start_turn b w)).2) = after_success (state b)) /\
  (state b = 1 \/ state b = 17 ->
   state (self (play_turn gc ctl (start_turn b w)).2) = state b).
Proof.
  intros Htr Hadv.
  destruct (play_turn_call gc ctl b w a true Htr)
    as (bot_id & rest & c & k & r1 & _ & _ & _ & _ & _ & Hst & _ & Hrun & Hcall).
  rewrite Hrun. split.
  - intros H1 H17. rewrite <- Hst in *.
    apply (fsm_success gc ctl bot_id _ _ _ _ _ _ _ r1 a Hcall Hadv H1 H17).
  - intros Hs. rewrite <- Hst in *.
    apply (fsm_success_stay gc ctl bot_id _ _ _ _ _ _ _ r1 a Hcall Hadv Hs).
Qed.







(** A station position, once known, is never changed by a turn. *)
Theorem stations_are_write_once gc (ctl : RobotController W) b w :
  (forall c, assembly_counter b = Some c ->
     assembly_counter (self (play_turn gc ctl (start_turn b w)).2) = Some c) /\
  (forall k, cooker_loc b = Some k ->
     cooker_loc (self (play_turn gc ctl (start_turn b w)).2) = Some k).
Proof.
  destruct (get_team_bot_ids ctl w) as [|bot_id rest] eqn:Hbots.
  { unfold play_turn. unfold_turn. rewrite Hbots. split; intros ? H; exact H. }
  destruct (play_turn_bookkeeping gc ctl b w bot_id rest Hbots)
    as (_ & _ & _ & _ & _ & _ & Hac & Hck).
  rewrite Hac, Hck. split; intros ? ->; reflexivity.
Qed.

(** *** The order bookkeeping *)





End more_turn.

Section more_turn_instances.
Import order_priority duo_noodle_bot spec props sample sample_more.

(** In state 2, two cells from the shop, the turn moves bot 0 one step to
    the right, onto the floor. *)
Lemma moves_are_safe_witness :
  trace (play_turn constants engine
           (start_turn (bot_in_state true 2) (kitchen true 0 1 None nothing yes))).2
  = [(move 0 1 0, true)] /\
  is_tile_walkable (kitchen_map true) (0 + 1) (1 + 0) = true.
Proof.
  assert (H : trace (play_turn constants engine
                       (start_turn (bot_in_state true 2)
                          (kitchen true 0 1 None nothing yes))).2
              = [(move 0 1 0, true)]) by (vm_compute; reflexivity).
  split; [exact H|].
  exact (proj2 (proj2 (moves_are_safe constants engine _ _ _ _ _ _ H))).
Defined.

Lemma calls_are_for_first_bot_witness :
  head (get_team_bot_ids engine (kitchen true 0 1 None nothing yes)) = Some 0.
Proof.
  assert (H : trace (play_turn constants engine
                       (start_turn (bot_in_state true 2)
                          (kitchen true 0 1 None nothing yes))).2
              = [(move 0 1 0, true)]) by (vm_compute; reflexivity).
  exact (proj1 (calls_are_for_first_bot constants engine _ _ _ _ H)).
Defined.

(** In state 2 next to the shop, with 200 in the till, meat (80) is
    bought, from distance 1, and the state becomes 3. *)
Lemma buys_are_funded_witness :
  trace (play_turn constants engine
           (start_turn (bot_in_state true 2) (kitchen true 2 1 None nothing yes))).2
  = [(buy 0 (ShopFood (MEAT constants)) 2 0, true)] /\
  80 <= 200.
Proof.
  assert (H : trace (play_turn constants engine
                       (start_turn (bot_in_state true 2)
                          (kitchen true 2 1 None nothing yes))).2
              = [(buy 0 (ShopFood (MEAT constants)) 2 0, true)])
    by (vm_compute; reflexivity).
  split; [exact H|].
  exact (buys_are_funded constants engine _ _ _ _ _ _ _ H).
Defined.

Lemma successful_call_advances_witness :
  state (self (play_turn constants engine
                 (start_turn (bot_in_state true 2)
                    (kitchen true 2 1 None nothing yes))).2) = 3.
Proof.
  assert (H : trace (play_turn constants engine
                       (start_turn (bot_in_state true 2)
                          (kitchen true 2 1 None nothing yes))).2
              = [(buy 0 (ShopFood (MEAT constants)) 2 0, true)])
    by (vm_compute; reflexivity).
  refine (proj1 (successful_call_advances constants engine _ _ _ H eq_refl) _ _);
    discriminate.
Defined.

Lemma calls_are_adjacent_witness :
  chebyshev 2 1 2 0 <= 1 \/
  (state (bot_in_state true 2) = 17 /\
   holding (get_bot_state engine (kitchen true 2 1 None nothing yes) 0) = None /\
   ((exists x y, buy 0 (ShopFood (MEAT constants)) 2 0 = take_from_pan 0 x y /\
       cooker_loc (self (play_turn constants engine
                           (start_turn (bot_in_state true 2)
                              (kitchen true 2 1 None nothing yes))).2)
       = Some (x, y)) \/
    (exists x y, buy 0 (ShopFood (MEAT constants)) 2 0 = pickup 0 x y /\
       assembly_counter (self (play_turn constants engine
                                 (start_turn (bot_in_state true 2)
                                    (kitchen true 2 1 None nothing yes))).2)
       = Some (x, y)))).
Proof.
  assert (H : trace (play_turn constants engine
                       (start_turn (bot_in_state true 2)
                          (kitchen true 2 1 None nothing yes))).2
              = [(buy 0 (ShopFood (MEAT constants)) 2 0, true)])
    by (vm_compute; reflexivity).
  exact (calls_are_adjacent constants engine _ _ _ _ (2, 0) H eq_refl).
Defined.

Lemma pipeline_states_closed_witness :
  state (self (play_turn constants engine
                 (start_turn (bot_in_state true 15)
                    (kitchen true 3 1 None nothing yes))).2) ∈ pipeline_states.
Proof.
  apply pipeline_states_closed. unfold pipeline_states. cbn. set_solver.
Defined.







Lemma stations_are_write_once_witness :
  assembly_counter (self (play_turn constants engine
                            (start_turn (bot_in_state true 2)
                               (kitchen true 4 2 None nothing yes))).2)
  = Some (0, 0).
Proof.
  apply (proj1 (stations_are_write_once constants engine (bot_in_state true 2)
                  (kitchen true 4 2 None nothing yes))).
  reflexivity.
Defined.



End more_turn_instances.


(** * The ranking pass on dictionaries: when it raises *)

Section dict_ranking.
Import order_priority duo_noodle_bot dict_spec.
Variable gc : GameConstants.

Lemma float_of_int_cases n :
  (too_large n = false /\ dicts.float_of_int n = Ok (inject_Z n)) \/
  (too_large n = true /\ dicts.float_of_int n = Raise OverflowError).
Proof.
  unfold dicts.float_of_int, too_large.
  destruct (Z.ltb_spec (Z.abs n) dicts.float_limit);
    destruct (Z.leb_spec dicts.float_limit (Z.abs n)); try lia; auto.
Qed.

Lemma float_of_int_fits n :
  too_large n = false -> dicts.float_of_int n = Ok (inject_Z n).
Proof.
  intros H. destruct (float_of_int_cases n) as [[_ ?]|[? _]]; congruence.
Qed.

Lemma float_of_int_raise n e :
  dicts.float_of_int n = Raise e -> e = OverflowError /\ too_large n = true.
Proof.
  intros H. destruct (float_of_int_cases n) as [[_ ?]|[? ?]]; split; congruence.
Qed.

(** The table. *)
Lemma build_prep_table_cases tbl fts :
  (Forall (fun ft => too_large (prep_time_of gc ft) = false) fts /\
   dicts.build_prep_table gc tbl fts
   = Ok (foldl (order_priority.add_prep_time gc) tbl fts)) \/
  (Exists (fun ft => too_large (prep_time_of gc ft) = true) fts /\
   dicts.build_prep_table gc tbl fts = Raise OverflowError).
Proof.
  revert tbl. induction fts as [|ft fts IH]; intros tbl.
  - left. split; [constructor|reflexivity].
  - cbn [dicts.build_prep_table foldl].
    unfold dicts.add_prep_time, order_priority.add_prep_time.
    destruct (float_of_int_cases (prep_time_of gc ft)) as [[Hf ->]|[Hf ->]].
    + cbn. destruct (IH (if String.eqb (food_name ft) "ONIONS"
                       then <["ONION" := inject_Z (prep_time_of gc ft)]>
                              (<[food_name ft := inject_Z (prep_time_of gc ft)]> tbl)
                       else <[food_name ft := inject_Z (prep_time_of gc ft)]> tbl))
        as [[Hall ->]|[Hex ->]].
      * left. split; [constructor; assumption|reflexivity].
      * right. split; [apply Exists_cons_tl; assumption|reflexivity].
    + right. split; [apply Exists_cons_hd; assumption|reflexivity].
Qed.

Lemma default_table_cases :
  (Forall (fun ft => too_large (prep_time_of gc ft) = false) (food_types gc) /\
   dicts._build_default_prep_time_by_food gc
   = Ok (foldl (order_priority.add_prep_time gc) ∅ (food_types gc))) \/
  (Exists (fun ft => too_large (prep_time_of gc ft) = true) (food_types gc) /\
   dicts._build_default_prep_time_by_food gc = Raise OverflowError).
Proof. apply build_prep_table_cases. Qed.

(** With a table at hand the estimate does not raise. *)
Lemma estimate_with_table req tbl d :
  dicts._estimate_prep_turns gc req (Some tbl) d
  = Ok (order_priority._estimate_prep_turns gc req (Some tbl) d).
Proof. reflexivity. Qed.

Lemma float_limit_large : 1 < dicts.float_limit.
Proof. vm_compute. reflexivity. Qed.

Lemma too_large_small n : 0 <= n <= 1 -> too_large n = false.
Proof.
  intros H. unfold too_large. pose proof float_limit_large.
  apply Z.leb_gt. lia.
Qed.

Lemma too_large_max_1 n : 0 <= n -> too_large (py_maxZ n 1) = too_large n.
Proof.
  intros H. unfold py_maxZ.
  destruct (Z.compare_spec n 1) as [->|Hlt|Hgt]; try reflexivity.
  rewrite (too_large_small n), (too_large_small 1) by lia. reflexivity.
Qed.

Lemma in_time_spec t o :
  in_time t o = true <-> exists e, od_expires_turn o = Some e /\ 0 <= e - t.
Proof.
  unfold in_time. destruct (od_expires_turn o) as [e|].
  - rewrite Z.leb_le. split; [intros H; exists e; auto|intros (e' & [= <-] & H); exact H].
  - split; [discriminate|intros (e & [=] & _)].
Qed.

Lemma passes_spec wt o :
  passes wt o = true <->
  od_completed_turn o = None /\
  (allow_inactive wt = true \/ default false (od_is_active o) = true) /\
  (allow_claimed wt = true \/ od_claimed_by o = None).
Proof.
  unfold passes. rewrite !andb_true_iff, !orb_true_iff, !bool_decide_eq_true.
  tauto.
Qed.

(** One dictionary: what [score_order] does with it. *)
Lemma score_order_cases wt t tbl o :
  prep_time_by_food wt = Some tbl ->
  (dicts.score_order gc wt t o = Ok None /\
   (passes wt o = false \/
    exists e, od_expires_turn o = Some e /\ e - t < 0))
  \/
  (dicts.score_order gc wt t o = Raise (KeyError "expires_turn") /\
   passes wt o = true /\ od_expires_turn o = None)
  \/
  (dicts.score_order gc wt t o = Raise OverflowError /\
   passes wt o = true /\ in_time t o = true /\ overflows t o = true)
  \/
  (exists s, dicts.score_order gc wt t o = Ok (Some s) /\ sd_order s = o /\
   passes wt o = true /\ in_time t o = true /\ overflows t o = false).
Proof.
  intros Htbl. unfold dicts.score_order, passes.
  destruct (od_completed_turn o) as [c|] eqn:Hc; cbn [bool_decide andb].
  { rewrite bool_decide_eq_true_2 by discriminate.
    rewrite bool_decide_eq_false_2 by discriminate. left. auto. }
  rewrite (bool_decide_eq_false_2 (None ≠ None)) by (intros H; apply H; reflexivity).
  rewrite (bool_decide_eq_true_2 (None = None)) by reflexivity. cbn [andb].
  destruct (allow_inactive wt), (default false (od_is_active o)) eqn:Hact;
    cbn [negb andb orb]; try (left; split; [reflexivity|left; reflexivity]).
  all: destruct (od_claimed_by o) as [cl|] eqn:Hcl.
  all: try (rewrite (bool_decide_eq_true_2 (Some cl ≠ None)) by discriminate;
            rewrite (bool_decide_eq_false_2 (Some cl = None)) by discriminate).
  all: try (rewrite (bool_decide_eq_false_2 (None ≠ None))
              by (intros H; apply H; reflexivity);
            rewrite (bool_decide_eq_true_2 (None = None)) by reflexivity).
  all: destruct (allow_claimed wt); cbn [negb andb orb];
    try (left; split; [reflexivity|left; reflexivity]).
  all: unfold in_time, overflows; rewrite ?Hact;
    destruct (od_expires_turn o) as [e|] eqn:He; cbn [default negb andb];
    [|right; left; auto].
  all: destruct (Z.ltb_spec (e - t) 0) as [Hneg|Hpos];
    [left; split; [reflexivity|right; exists e; auto]|].
  all: rewrite Htbl, estimate_with_table; cbn [mbind dicts.res_bind].
  all: change (id e) with e.
  all: destruct (float_of_int_cases (e - t)) as [[Ha ->]|[Ha ->]];
    rewrite Ha; cbn [orb];
    [|right; right; left; repeat split; try reflexivity; apply Z.leb_le; lia].
  all: destruct (float_of_int_cases (default 0 (od_reward o))) as [[Hr ->]|[Hr ->]];
    rewrite Hr; cbn [orb];
    [|right; right; left; repeat split; try reflexivity; apply Z.leb_le; lia].
  all: destruct (float_of_int_cases (default 0 (od_penalty o))) as [[Hp ->]|[Hp ->]];
    rewrite Hp; cbn [orb];
    [|right; right; left; repeat split; try reflexivity; apply Z.leb_le; lia].
  all: rewrite (float_of_int_fits (py_maxZ (e - t) 1))
    by (rewrite too_large_max_1 by lia; exact Ha).
  all: cbn [mbind dicts.res_bind mret dicts.res_ret].
  all: try (right; right; right; eexists; split; [reflexivity|];
            repeat split; try reflexivity; apply Z.leb_le; lia).
  all: destruct (float_of_int_cases
                   (py_maxZ 0 (default t (od_created_turn o) - t)))
    as [[Hq ->]|[Hq ->]]; rewrite Hq.
  all: try (right; right; right; eexists; split; [reflexivity|];
            repeat split; try reflexivity; apply Z.leb_le; lia).
  all: right; right; left; repeat split; try reflexivity; apply Z.leb_le; lia.
Qed.

(** The loop over the orders. *)
Lemma prioritize_raise wt t tbl orders e :
  prep_time_by_food wt = Some tbl ->
  dicts.prioritize gc wt t orders = Raise e ->
  exists o, o ∈ orders /\ passes wt o = true /\
    ((e = KeyError "expires_turn" /\ od_expires_turn o = None) \/
     (e = OverflowError /\ in_time t o = true /\ overflows t o = true)).
Proof.
  intros Htbl. induction orders as [|o orders IH]; [discriminate|].
  cbn [dicts.prioritize].
  destruct (score_order_cases wt t tbl o Htbl)
    as [(-> & _)|[(-> & Hp & He)|[(-> & Hp & Hi & Ho)|(s & -> & _)]]];
    cbn [mbind dicts.res_bind].
  - destruct (dicts.prioritize gc wt t orders) eqn:Hrest; [discriminate|].
    intros [= <-]. destruct (IH eq_refl) as (o' & Hin & H).
    exists o'. split; [right; exact Hin|exact H].
  - intros [= <-]. exists o. split; [left|]. auto.
  - intros [= <-]. exists o. split; [left|]. auto.
  - destruct (dicts.prioritize gc wt t orders) eqn:Hrest; [discriminate|].
    intros [= <-]. destruct (IH eq_refl) as (o' & Hin & H).
    exists o'. split; [right; exact Hin|exact H].
Qed.

Lemma prioritize_elem wt t tbl orders l s :
  prep_time_by_food wt = Some tbl ->
  dicts.prioritize gc wt t orders = Ok l ->
  s ∈ l ->
  sd_order s ∈ orders /\ passes wt (sd_order s) = true /\
  in_time t (sd_order s) = true /\ overflows t (sd_order s) = false.
Proof.
  intros Htbl. revert l. induction orders as [|o orders IH]; intros l.
  { intros [= <-] Hin. inversion Hin. }
  cbn [dicts.prioritize].
  destruct (score_order_cases wt t tbl o Htbl)
    as [(-> & _)|[(-> & _)|[(-> & _)|(s' & -> & Hs & Hp & Hi & Ho)]]];
    cbn [mbind dicts.res_bind]; try discriminate.
  - destruct (dicts.prioritize gc wt t orders) as [l'|] eqn:Hrest; [|discriminate].
    intros [= <-] Hin. destruct (IH l' eq_refl Hin) as (H1 & H2).
    split; [right; exact H1|exact H2].
  - destruct (dicts.prioritize gc wt t orders) as [l'|] eqn:Hrest; [|discriminate].
    intros [= <-] Hin. apply elem_of_cons in Hin as [->|Hin].
    + rewrite Hs. split; [left|]. auto.
    + destruct (IH l' eq_refl Hin) as (H1 & H2). split; [right; exact H1|exact H2].
Qed.

Lemma well_formed_scores wt t tbl o :
  prep_time_by_food wt = Some tbl ->
  well_formed wt t o = true ->
  exists r, dicts.score_order gc wt t o = Ok r.
Proof.
  intros Htbl Hwf.
  destruct (score_order_cases wt t tbl o Htbl)
    as [(-> & _)|[(_ & Hp & He)|[(_ & Hp & Hi & Ho)|(s & -> & _)]]];
    [eexists; reflexivity| | |eexists; reflexivity]; exfalso.
  - unfold well_formed in Hwf. rewrite Hp, He in Hwf. discriminate.
  - unfold well_formed in Hwf. rewrite Hp, Ho in Hwf.
    apply in_time_spec in Hi as (e & He & Hpos). rewrite He in Hwf.
    cbn [negb orb andb] in Hwf. rewrite orb_false_r in Hwf.
    apply Z.ltb_lt in Hwf. lia.
Qed.

Lemma prioritize_total wt t tbl orders :
  prep_time_by_food wt = Some tbl ->
  (forall o, o ∈ orders -> well_formed wt t o = true) ->
  exists l, dicts.prioritize gc wt t orders = Ok l.
Proof.
  intros Htbl. induction orders as [|o orders IH]; intros Hall.
  { eexists. reflexivity. }
  cbn [dicts.prioritize].
  destruct (well_formed_scores wt t tbl o Htbl) as (r & ->);
    [apply Hall; left|].
  destruct IH as (l & ->); [intros o' Hin; apply Hall; right; exact Hin|].
  eexists. reflexivity.
Qed.

(** Sorting keeps the entries. *)
Lemma dict_insert_desc_perm x l : dicts.insert_desc x l ≡ₚ x :: l.
Proof.
  induction l as [|y l IH]; [reflexivity|]. cbn [dicts.insert_desc].
  destruct (key_compare _ _); try reflexivity.
  rewrite IH. apply perm_swap.
Qed.

Lemma dict_sort_desc_perm l : dicts.sort_desc l ≡ₚ l.
Proof.
  induction l as [|x l IH]; [reflexivity|].
  change (dicts.sort_desc (x :: l)) with (dicts.insert_desc x (dicts.sort_desc l)).
  rewrite dict_insert_desc_perm, IH. reflexivity.
Qed.

(** The queue: how it can raise, and what it holds when it does not. *)
Lemma dict_queue_raise wt t tbl orders e :
  prep_time_by_food wt = Some tbl ->
  dicts.build_order_priority_queue gc orders t wt = Raise e ->
  exists o, o ∈ orders /\ passes wt o = true /\
    ((e = KeyError "expires_turn" /\ od_expires_turn o = None) \/
     (e = OverflowError /\ in_time t o = true /\ overflows t o = true)).
Proof.
  intros Htbl. unfold dicts.build_order_priority_queue.
  destruct (dicts.prioritize gc wt t orders) as [l|e'] eqn:Hp;
    cbn [mbind dicts.res_bind]; [discriminate|].
  intros [= ->]. exact (prioritize_raise wt t tbl orders e Htbl Hp).
Qed.

Lemma dict_queue_elem wt t tbl orders q s :
  prep_time_by_food wt = Some tbl ->
  dicts.build_order_priority_queue gc orders t wt = Ok q ->
  s ∈ q ->
  sd_order s ∈ orders /\ passes wt (sd_order s) = true /\
  in_time t (sd_order s) = true /\ overflows t (sd_order s) = false.
Proof.
  intros Htbl. unfold dicts.build_order_priority_queue.
  destruct (dicts.prioritize gc wt t orders) as [l|] eqn:Hp;
    cbn [mbind dicts.res_bind]; [|discriminate].
  intros [= <-] Hin. rewrite dict_sort_desc_perm in Hin.
  exact (prioritize_elem wt t tbl orders l s Htbl Hp Hin).
Qed.

Lemma dict_queue_total wt t tbl orders :
  prep_time_by_food wt = Some tbl ->
  (forall o, o ∈ orders -> well_formed wt t o = true) ->
  exists q, dicts.build_order_priority_queue gc orders t wt = Ok q.
Proof.
  intros Htbl Hall. unfold dicts.build_order_priority_queue.
  destruct (prioritize_total wt t tbl orders Htbl Hall) as (l & ->).
  eexists. reflexivity.
Qed.
End dict_ranking.

(** * The turn on dictionaries *)

Section dict_turn.
Import order_priority duo_noodle_bot spec props dict_spec.
Context {W : Type}.
Local Opaque get_bfs_path find_nearest_tile chebyshev
  dicts.build_order_priority_queue dicts._build_default_prep_time_by_food.

Local Ltac split_step :=
  repeat (unfold_turn;
          match goal with
          | |- context [move_towards ?c ?b ?x ?y ?r] =>
              rewrite (move_towards_run c b x y r); cbv zeta
          | |- context [match ?x with _ => _ end] =>
              lazymatch x with
              | context [match _ with _ => _ end] => fail
              | _ => destruct x eqn:?
              end
          end).

(** The filters read two flags of the keyword arguments only. *)
Lemma passes_bot gc tbl o :
  passes (dicts.dict_weights tbl) o = passes (bot_weights gc) o.
Proof. reflexivity. Qed.

Lemma well_formed_bot gc tbl t o :
  well_formed (dicts.dict_weights tbl) t o = well_formed (bot_weights gc) t o.
Proof. reflexivity. Qed.

(** The FSM step raises [TypeError] only. *)
Lemma fsm_raise_kind gc (ctl : RobotController W) bot_id bx by_ held cx cy kx ky
    (r : Run W) e :
  (fsm gc ctl bot_id bx by_ held cx cy kx ky r).1 = Raise e -> e = TypeError.
Proof.
  unfold fsm. split_step.
  all: intros Hr; try discriminate Hr.
  all: injection Hr as <-; reflexivity.
Qed.

(** The FSM step reads and writes the same way on two bots that differ in the
    order bookkeeping only. *)
Lemma fsm_same gc (ctl : RobotController W) bot_id bx by_ held cx cy kx ky
    (r1 r2 : Run W) :
  same_pipeline (self r1) (self r2) ->
  world r1 = world r2 ->
  trace r1 = trace r2 ->
  same_outcome (fsm gc ctl bot_id bx by_ held cx cy kx ky r1)
               (fsm gc ctl bot_id bx by_ held cx cy kx ky r2).
Proof.
  destruct r1 as [[m1 ac1 ck1 id1 cur1 hp1 s1 sa1 st1] w1 t1 o1].
  destruct r2 as [[m2 ac2 ck2 id2 cur2 hp2 s2 sa2 st2] w2 t2 o2].
  unfold same_outcome, same_pipeline. cbn [self world trace state map
    assembly_counter cooker_loc my_bot_id has_printed_priority].
  intros (-> & -> & -> & -> & -> & ->) -> ->.
  unfold fsm. split_step.
  all: repeat split; reflexivity.
Qed.

(** Lines 144-298, split at the FSM step. *)
Lemma stations_and_fsm_split gc (ctl : RobotController W) bot_id (r : Run W) :
  let bot := get_bot_state ctl (world r) bot_id in
  let counter := station_of (assembly_counter (self r)) (get_map ctl (world r))
                   (bot_x bot) (bot_y bot) "COUNTER" in
  let cooker := station_of (cooker_loc (self r)) (get_map ctl (world r))
                  (bot_x bot) (bot_y bot) "COOKER" in
  let r1 := {| self := set_locations counter cooker
                         (set_my_bot_id bot_id (self r));
               world := world r; trace := trace r; stdout := stdout r |} in
  dicts.stations_and_fsm gc ctl bot_id r =
  match counter, cooker with
  | Some c, Some k =>
      fsm gc ctl bot_id (bot_x bot) (bot_y bot) (holding bot) c.1 c.2 k.1 k.2 r1
  | _, _ => (Ok tt, r1)
  end.
Proof.
  cbv zeta. unfold dicts.stations_and_fsm. unfold_turn. unfold station_of.
  destruct (assembly_counter (self r)) as [c|], (cooker_loc (self r)) as [k|];
    unfold_turn;
    repeat match goal with
      | |- context [find_nearest_tile ?m ?x ?y ?n] =>
          destruct (find_nearest_tile m x y n); unfold_turn
      end;
    reflexivity.
Qed.

Lemma stations_and_fsm_same gc (ctl : RobotController W) bot_id (r1 r2 : Run W) :
  same_pipeline (self r1) (self r2) ->
  world r1 = world r2 ->
  trace r1 = trace r2 ->
  same_outcome (dicts.stations_and_fsm gc ctl bot_id r1)
               (dicts.stations_and_fsm gc ctl bot_id r2).
Proof.
  intros Hs Hw Ht. rewrite !stations_and_fsm_split. cbv zeta.
  destruct Hs as (Hst & Hm & Hac & Hck & Hid & Hp).
  rewrite <- Hw, <- Hac, <- Hck.
  set (counter := station_of (assembly_counter (self r1)) _ _ _ _).
  set (cooker := station_of (cooker_loc (self r1)) _ _ _ _).
  assert (Hsame : same_pipeline
            (set_locations counter cooker (set_my_bot_id bot_id (self r1)))
            (set_locations counter cooker (set_my_bot_id bot_id (self r2)))).
  { unfold same_pipeline. cbn [state map assembly_counter cooker_loc my_bot_id
      has_printed_priority set_locations set_my_bot_id].
    repeat split; auto. }
  destruct counter as [c|], cooker as [k|].
  - apply fsm_same; cbn [self world trace]; [exact Hsame|reflexivity|exact Ht].
  - unfold same_outcome. cbn [fst snd self world trace]. repeat split; auto.
  - unfold same_outcome. cbn [fst snd self world trace]. repeat split; auto.
  - unfold same_outcome. cbn [fst snd self world trace]. repeat split; auto.
Qed.

(** What the ranking pass leaves.  It completes; or it raises at line 142,
    after the output and the seen ids were written; or it raises while the
    table or the queue is built, before anything is written. *)
Lemma dict_rank_cases gc (ctl : RobotController W) od (r : Run W) :
  let t := get_turn ctl (world r) in
  let wt := bot_weights gc in
  (exists seen seen_active cur lines,
     dicts.rank_and_log gc ctl od r =
     (Ok tt, {| self := set_order_fields true seen seen_active cur (self r);
                world := world r; trace := trace r;
                stdout := stdout r ++ lines |}))
  \/
  (exists seen seen_active lines o,
     dicts.rank_and_log gc ctl od r =
     (Raise (KeyError "order_id"),
      {| self := set_order_fields true seen seen_active
                   (current_order_id (self r)) (self r);
         world := world r; trace := trace r;
         stdout := stdout r ++ lines |}) /\
     o ∈ od (world r) /\ passes wt o = true /\ in_time t o = true /\
     overflows t o = false /\ od_order_id o = None)
  \/
  (dicts.rank_and_log gc ctl od r = (Raise OverflowError, r) /\
   Exists (fun ft => too_large (prep_time_of gc ft) = true) (food_types gc))
  \/
  (exists e o,
     dicts.rank_and_log gc ctl od r = (Raise e, r) /\
     o ∈ od (world r) /\ passes wt o = true /\
     ((e = KeyError "expires_turn" /\ od_expires_turn o = None) \/
      (e = OverflowError /\ in_time t o = true /\ overflows t o = true))).
Proof.
  cbv zeta. unfold dicts.rank_and_log, dicts.lift. unfold_turn.
  destruct (default_table_cases gc) as [[_ ->]|[Hex ->]];
    [|right; right; left; split; [reflexivity|exact Hex]].
  set (tbl := foldl (order_priority.add_prep_time gc) ∅ (food_types gc)).
  destruct (dicts.build_order_priority_queue gc (od (world r))
              (get_turn ctl (world r)) (dicts.dict_weights tbl))
    as [q|e] eqn:Hq.
  2:{ right; right; right.
      destruct (dict_queue_raise gc (dicts.dict_weights tbl) _ tbl _ e eq_refl Hq)
        as (o & Hin & Hp & Hc).
      exists e, o. split; [reflexivity|]. split; [exact Hin|].
      split; [exact Hp|exact Hc]. }
  assert (Hsel : forall o,
            match List.find dicts.entry_active q with
            | Some o' => Some o'
            | None => head q
            end = Some o -> o ∈ q).
  { intros o. destruct (List.find dicts.entry_active q) as [o'|] eqn:Hf.
    - intros [= <-]. apply find_some in Hf as [Hin _].
      apply list_elem_of_In. exact Hin.
    - destruct q as [|o' q']; [discriminate|]. intros [= <-]. left. }
  assert (Hprinted :
            (if negb (has_printed_priority (self r))
                || bool_decide (list_to_set (omap dicts.entry_id q)
                                ∖ seen_order_ids (self r) ≠ (∅ : gset Z))
                   && (0 <? get_turn ctl (world r))
                || bool_decide (list_to_set
                                  (omap dicts.entry_id
                                     (List.filter dicts.entry_active q))
                                ∖ seen_active_order_ids (self r) ≠ (∅ : gset Z))
             then true else has_printed_priority (self r)) = true).
  { destruct (has_printed_priority (self r)); cbn [negb orb]; [|reflexivity].
    destruct (_ || _); reflexivity. }
  set (printing := negb (has_printed_priority (self r)) || _ || _) in *.
  rewrite !Hprinted.
  destruct (match List.find dicts.entry_active q with
            | Some o' => Some o'
            | None => head q
            end) as [o|] eqn:Hs.
  - pose proof (Hsel o eq_refl) as Hin.
    destruct (dict_queue_elem gc (dicts.dict_weights tbl) _ tbl _ q o eq_refl Hq Hin)
      as (Hin' & Hp & Hi & Ho).
    destruct (dicts.entry_id o) as [i|] eqn:Hid.
    + left.
      destruct printing; unfold_turn;
        unfold dicts.set_seen, dicts.set_current_order_id; unfold_turn.
      * do 4 eexists. reflexivity.
      * do 3 eexists. exists []. rewrite app_nil_r. reflexivity.
    + right; left.
      destruct printing; unfold_turn; unfold dicts.set_seen; unfold_turn.
      * do 3 eexists. exists (sd_order o). split; [reflexivity|].
        repeat split; assumption.
      * do 2 eexists. exists [], (sd_order o). rewrite app_nil_r.
        split; [reflexivity|]. repeat split; assumption.
  - left.
    destruct printing; unfold_turn;
      unfold dicts.set_seen, dicts.set_current_order_id; unfold_turn.
    + do 4 eexists. reflexivity.
    + do 3 eexists. exists []. rewrite app_nil_r. reflexivity.
Qed.

(** The three shapes of the run of the ranking pass. *)
Lemma dict_rank_shape gc (ctl : RobotController W) od (r : Run W) :
  (exists seen seen_active cur lines,
     dicts.rank_and_log gc ctl od r =
     (Ok tt, {| self := set_order_fields true seen seen_active cur (self r);
                world := world r; trace := trace r;
                stdout := stdout r ++ lines |}))
  \/
  (exists seen seen_active lines,
     dicts.rank_and_log gc ctl od r =
     (Raise (KeyError "order_id"),
      {| self := set_order_fields true seen seen_active
                   (current_order_id (self r)) (self r);
         world := world r; trace := trace r;
         stdout := stdout r ++ lines |}))
  \/
  (exists e, dicts.rank_and_log gc ctl od r = (Raise e, r) /\
     (e = OverflowError \/ e = KeyError "expires_turn")).
Proof.
  destruct (dict_rank_cases gc ctl od r)
    as [(s & sa & cur & ls & H)
       |[(s & sa & ls & o & H & _)
        |[(H & _)|(e & o & H & _ & _ & [(-> & _)|(-> & _)])]]].
  - left. eauto.
  - right; left. eauto.
  - right; right. eauto.
  - right; right. eauto.
  - right; right. eauto.
Qed.

(** The turn is the ranking pass followed, if it completes, by the stations
    and the FSM step. *)
Lemma dict_turn_run gc (ctl : RobotController W) od (r : Run W) bot_id rest :
  get_team_bot_ids ctl (world r) = bot_id :: rest ->
  dicts.play_turn gc ctl od r =
  match dicts.rank_and_log gc ctl od r with
  | (Ok _, r') => dicts.stations_and_fsm gc ctl bot_id r'
  | (Raise e, r') => (Raise e, r')
  end.
Proof.
  intros Hbots. unfold dicts.play_turn. unfold_turn. rewrite Hbots.
  destruct (dicts.rank_and_log gc ctl od r) as [[[]|e] r']; reflexivity.
Qed.

Lemma dict_turn_no_bots gc (ctl : RobotController W) od (r : Run W) :
  get_team_bot_ids ctl (world r) = [] ->
  dicts.play_turn gc ctl od r = (Ok tt, r).
Proof.
  intros Hbots. unfold dicts.play_turn. unfold_turn. rewrite Hbots. reflexivity.
Qed.

(** C10 (as amended).  Two turns on the same bot and the same world, the
    controller answering [get_orders] with two lists of dictionaries on
    which the ranking pass of lines 93-142 ends the same way (it completes
    on both, or it raises the same exception on both), end the same way,
    make the same mutating calls with the same answers, leave the same world
    and agree on every field of the bot except the order bookkeeping
    ([current_order_id] and the seen-id sets). *)
Theorem orders_steer_only_by_raising gc (ctl : RobotController W)
    (od1 od2 : W -> list OrderDict) (b : BotPlayer) (w : W) :
  (dicts.rank_and_log gc ctl od1 (start_turn b w)).1
  = (dicts.rank_and_log gc ctl od2 (start_turn b w)).1 ->
  (dicts.play_turn gc ctl od1 (start_turn b w)).1
  = (dicts.play_turn gc ctl od2 (start_turn b w)).1 /\
  trace (dicts.play_turn gc ctl od1 (start_turn b w)).2
  = trace (dicts.play_turn gc ctl od2 (start_turn b w)).2 /\
  world (dicts.play_turn gc ctl od1 (start_turn b w)).2
  = world (dicts.play_turn gc ctl od2 (start_turn b w)).2 /\
  same_pipeline (self (dicts.play_turn gc ctl od1 (start_turn b w)).2)
                (self (dicts.play_turn gc ctl od2 (start_turn b w)).2).
Proof.
  intros Heq.
  destruct (get_team_bot_ids ctl w) as [|bot_id rest] eqn:Hbots.
  { rewrite (dict_turn_no_bots gc ctl od1 (start_turn b w) Hbots).
    rewrite (dict_turn_no_bots gc ctl od2 (start_turn b w) Hbots).
    unfold same_pipeline. repeat split; reflexivity. }
  rewrite (dict_turn_run gc ctl od1 (start_turn b w) bot_id rest Hbots).
  rewrite (dict_turn_run gc ctl od2 (start_turn b w) bot_id rest Hbots).
  destruct (dict_rank_shape gc ctl od1 (start_turn b w))
    as [(s1 & sa1 & c1 & l1 & H1)|[(s1 & sa1 & l1 & H1)|(e1 & H1 & He1)]];
    destruct (dict_rank_shape gc ctl od2 (start_turn b w))
      as [(s2 & sa2 & c2 & l2 & H2)|[(s2 & sa2 & l2 & H2)|(e2 & H2 & He2)]];
    rewrite H1, H2 in Heq |- *; cbn [fst snd] in Heq |- *;
    try discriminate Heq;
    try (destruct He1 as [->| ->]; discriminate Heq);
    try (destruct He2 as [->| ->]; discriminate Heq).
  - apply stations_and_fsm_same; cbn [self world trace start_turn];
      [|reflexivity|reflexivity].
    unfold same_pipeline. cbn [state map assembly_counter cooker_loc my_bot_id
      has_printed_priority set_order_fields]. repeat split; reflexivity.
  - cbn [self world trace start_turn]. unfold same_pipeline.
    cbn [state map assembly_counter cooker_loc my_bot_id
      has_printed_priority set_order_fields]. repeat split; reflexivity.
  - injection Heq as ->. unfold same_pipeline. repeat split; reflexivity.
Qed.

(** A turn that raises: what it has done, and why it raised. *)
Lemma dict_turn_raise gc (ctl : RobotController W) od b w e :
  (dicts.play_turn gc ctl od (start_turn b w)).1 = Raise e ->
  trace (dicts.play_turn gc ctl od (start_turn b w)).2 = [] /\
  world (dicts.play_turn gc ctl od (start_turn b w)).2 = w /\
  state (self (dicts.play_turn gc ctl od (start_turn b w)).2) = state b /\
  exists bot_id rest,
    get_team_bot_ids ctl w = bot_id :: rest /\
    ((e = TypeError /\
      exists name, name ∈ ["SHOP"; "SUBMIT"; "TRASH"] /\
        find_nearest_tile (get_map ctl w) (bot_x (get_bot_state ctl w bot_id))
          (bot_y (get_bot_state ctl w bot_id)) name = None) \/
     (e = OverflowError /\
      exists ft, ft ∈ food_types gc /\ too_large (prep_time_of gc ft) = true) \/
     (exists o, o ∈ od w /\ passes (bot_weights gc) o = true /\
        ((e = KeyError "expires_turn" /\ od_expires_turn o = None) \/
         (e = OverflowError /\ in_time (get_turn ctl w) o = true /\
          overflows (get_turn ctl w) o = true) \/
         (e = KeyError "order_id" /\ in_time (get_turn ctl w) o = true /\
          overflows (get_turn ctl w) o = false /\ od_order_id o = None)))).
Proof.
  destruct (get_team_bot_ids ctl w) as [|bot_id rest] eqn:Hbots.
  { rewrite (dict_turn_no_bots gc ctl od (start_turn b w) Hbots). discriminate. }
  rewrite (dict_turn_run gc ctl od (start_turn b w) bot_id rest Hbots).
  destruct (dict_rank_cases gc ctl od (start_turn b w))
    as [(s & sa & cur & ls & ->)
       |[(s & sa & ls & o & -> & Hin & Hp & Hi & Ho & Hid)
        |[(-> & Hex)|(e' & o & -> & Hin & Hp & Hc)]]];
    cbn [fst snd self world trace start_turn state set_order_fields].
  - rewrite stations_and_fsm_split. cbv zeta.
    cbn [self world trace stdout assembly_counter cooker_loc set_order_fields].
    destruct (station_of (assembly_counter b) _ _ _ _) as [c|];
      [destruct (station_of (cooker_loc b) _ _ _ _) as [k|]|];
      try discriminate.
    intros Hr. pose proof (fsm_raise_kind _ _ _ _ _ _ _ _ _ _ _ _ Hr) as ->.
    destruct (fsm_raise _ _ _ _ _ _ _ _ _ _ _ _ Hr) as (-> & name & Hn & Hnone).
    cbn [self world trace state set_locations set_my_bot_id set_order_fields]
      in Hnone |- *.
    repeat split. exists bot_id, rest. split; [reflexivity|]. left.
    split; [reflexivity|]. exists name. split; assumption.
  - intros [= <-]. repeat split. exists bot_id, rest. split; [reflexivity|].
    right; right. exists o. split; [exact Hin|]. split; [exact Hp|].
    right; right. repeat split; assumption.
  - intros [= <-]. repeat split. exists bot_id, rest. split; [reflexivity|].
    right; left. split; [reflexivity|].
    apply Exists_exists in Hex as (ft & Hft & Hl). exists ft. split; assumption.
  - intros [= <-]. repeat split. exists bot_id, rest. split; [reflexivity|].
    right; right. exists o. split; [exact Hin|]. split; [exact Hp|].
    destruct Hc as [Hc|Hc]; [left|right; left]; exact Hc.
Qed.

(** A turn that raises has made no call and has left the world and the
    state of the FSM as they were.  It raises [TypeError] when the search
    for a shop, a submit tile or a trash, from the first bot's position,
    found nothing; [OverflowError] when a prep time of the game constants, or
    the turns left, the reward, the penalty or the turns until activation of
    a dictionary that passes the filters, is too large for a float;
    [KeyError] when a dictionary that passes the first three filters has no
    expiry turn, or one that passes all four has no id. *)
Theorem raising_turn_is_clean gc (ctl : RobotController W) od b w e :
  (dicts.play_turn gc ctl od (start_turn b w)).1 = Raise e ->
  trace (dicts.play_turn gc ctl od (start_turn b w)).2 = [] /\
  world (dicts.play_turn gc ctl od (start_turn b w)).2 = w /\
  state (self (dicts.play_turn gc ctl od (start_turn b w)).2) = state b /\
  exists bot_id rest,
    get_team_bot_ids ctl w = bot_id :: rest /\
    ((e = TypeError /\
      exists name, name ∈ ["SHOP"; "SUBMIT"; "TRASH"] /\
        find_nearest_tile (get_map ctl w) (bot_x (get_bot_state ctl w bot_id))
          (bot_y (get_bot_state ctl w bot_id)) name = None) \/
     (e = OverflowError /\
      exists ft, ft ∈ food_types gc /\ too_large (prep_time_of gc ft) = true) \/
     (exists o, o ∈ od w /\ passes (bot_weights gc) o = true /\
        ((e = KeyError "expires_turn" /\ od_expires_turn o = None) \/
         (e = OverflowError /\ in_time (get_turn ctl w) o = true /\
          overflows (get_turn ctl w) o = true) \/
         (e = KeyError "order_id" /\ in_time (get_turn ctl w) o = true /\
          overflows (get_turn ctl w) o = false /\ od_order_id o = None)))).
Proof. exact (dict_turn_raise gc ctl od b w e). Qed.

(** A turn completes normally whenever no prep time of the game constants
    is too large for a float, every dictionary is well formed (it is
    filtered out, or it has its expiry turn and its id and none of its
    integers is too large), and the tile search finds a shop, a submit tile
    and a trash from the first bot's position. *)
Theorem turn_completes_when_well_formed gc (ctl : RobotController W) od b w :
  (forall ft, ft ∈ food_types gc -> too_large (prep_time_of gc ft) = false) ->
  (forall o, o ∈ od w ->
     well_formed (bot_weights gc) (get_turn ctl w) o = true) ->
  (forall bot_id rest name,
     get_team_bot_ids ctl w = bot_id :: rest ->
     name ∈ ["SHOP"; "SUBMIT"; "TRASH"] ->
     find_nearest_tile (get_map ctl w) (bot_x (get_bot_state ctl w bot_id))
       (bot_y (get_bot_state ctl w bot_id)) name <> None) ->
  (dicts.play_turn gc ctl od (start_turn b w)).1 = Ok tt.
Proof.
  intros Htbl Hwf Hall.
  destruct (dicts.play_turn gc ctl od (start_turn b w)).1 as [[]|e] eqn:Hout;
    [reflexivity|exfalso].
  destruct (dict_turn_raise gc ctl od b w e Hout)
    as (_ & _ & _ & bot_id & rest & Hbots &
        [(_ & name & Hn & Hnone)
        |[(_ & ft & Hft & Hl)|(o & Hin & Hp & Hc)]]).
  - exact (Hall bot_id rest name Hbots Hn Hnone).
  - rewrite (Htbl ft Hft) in Hl. discriminate.
  - specialize (Hwf o Hin). unfold well_formed in Hwf. rewrite Hp in Hwf.
    cbn [negb orb] in Hwf.
    destruct Hc as [(_ & He)|[(_ & Hi & Ho)|(_ & Hi & Ho & Hid)]].
    + rewrite He in Hwf. discriminate.
    + apply in_time_spec in Hi as (x & He & Hpos). rewrite He, Ho in Hwf.
      cbn [negb andb] in Hwf. rewrite orb_false_r in Hwf.
      apply Z.ltb_lt in Hwf. lia.
    + apply in_time_spec in Hi as (x & He & Hpos). rewrite He, Ho, Hid in Hwf.
      cbn [negb andb] in Hwf.
      rewrite bool_decide_eq_false_2 in Hwf by (intros H; apply H; reflexivity).
      rewrite orb_false_r in Hwf. apply Z.ltb_lt in Hwf. lia.
Qed.

End dict_turn.

(** * The dictionary turn on the sample kitchen *)

Section dict_instances.
Import order_priority duo_noodle_bot spec props dict_spec sample sample_dicts.

(** Next to the shop in state 2, with two orders or with none: the ranking
    pass completes on both lists and the bot buys the meat in both turns. *)
Lemma orders_steer_only_by_raising_witness :
  (dicts.rank_and_log constants engine (fun _ => [noodles_dict; later_dict])
     (start_turn (bot_in_state true 2) (kitchen true 2 1 None nothing yes))).1
  = (dicts.rank_and_log constants engine (fun _ => [])
       (start_turn (bot_in_state true 2) (kitchen true 2 1 None nothing yes))).1 /\
  trace (dicts.play_turn constants engine (fun _ => [noodles_dict; later_dict])
           (start_turn (bot_in_state true 2) (kitchen true 2 1 None nothing yes))).2
  = trace (dicts.play_turn constants engine (fun _ => [])
             (start_turn (bot_in_state true 2)
                (kitchen true 2 1 None nothing yes))).2.
Proof.
  assert (H : (dicts.rank_and_log constants engine
                 (fun _ => [noodles_dict; later_dict])
                 (start_turn (bot_in_state true 2)
                    (kitchen true 2 1 None nothing yes))).1
              = (dicts.rank_and_log constants engine (fun _ => [])
                   (start_turn (bot_in_state true 2)
                      (kitchen true 2 1 None nothing yes))).1)
    by (vm_compute; reflexivity).
  split; [exact H|].
  exact (proj1 (proj2 (orders_steer_only_by_raising constants engine
                         (fun _ => [noodles_dict; later_dict]) (fun _ => [])
                         (bot_in_state true 2)
                         (kitchen true 2 1 None nothing yes) H))).
Defined.

(** C10 as stated fails.  Two snapshots that differ in the order list only:
    with no order the bot in state 2 buys the meat and moves to state 3;
    with one order whose reward is [10 ** 400] the turn raises
    [OverflowError], no call is made and the state stays 2. *)
Lemma huge_reward_counterexample :
  ((dicts.play_turn constants engine (fun _ => [])
      (start_turn (bot_in_state true 2) (kitchen true 2 1 None nothing yes))).1
   = Ok tt /\
   trace (dicts.play_turn constants engine (fun _ => [])
            (start_turn (bot_in_state true 2)
               (kitchen true 2 1 None nothing yes))).2
   = [(buy 0 (ShopFood (MEAT constants)) 2 0, true)] /\
   state (self (dicts.play_turn constants engine (fun _ => [])
                  (start_turn (bot_in_state true 2)
                     (kitchen true 2 1 None nothing yes))).2) = 3) /\
  ((dicts.play_turn constants engine (fun _ => [huge_reward_dict])
      (start_turn (bot_in_state true 2) (kitchen true 2 1 None nothing yes))).1
   = Raise OverflowError /\
   trace (dicts.play_turn constants engine (fun _ => [huge_reward_dict])
            (start_turn (bot_in_state true 2)
               (kitchen true 2 1 None nothing yes))).2
   = [] /\
   state (self (dicts.play_turn constants engine (fun _ => [huge_reward_dict])
                  (start_turn (bot_in_state true 2)
                     (kitchen true 2 1 None nothing yes))).2) = 2).
Proof. vm_compute. repeat split; reflexivity. Qed.

(** An order without an id, alone in the list, is selected: the turn raises
    [KeyError], having called nothing. *)
Lemma raising_turn_is_clean_witness :
  trace (dicts.play_turn constants engine (fun _ => [no_id_dict])
           (start_turn (bot_in_state true 2)
              (kitchen true 2 1 None nothing yes))).2 = [] /\
  state (self (dicts.play_turn constants engine (fun _ => [no_id_dict])
                 (start_turn (bot_in_state true 2)
                    (kitchen true 2 1 None nothing yes))).2) = 2.
Proof.
  assert (H : (dicts.play_turn constants engine (fun _ => [no_id_dict])
                 (start_turn (bot_in_state true 2)
                    (kitchen true 2 1 None nothing yes))).1
              = Raise (KeyError "order_id"))
    by (vm_compute; reflexivity).
  destruct (raising_turn_is_clean constants engine _ _ _ _ H) as (Ht & _ & Hs & _).
  split; [exact Ht|exact Hs].
Defined.

(** With the three tiles on the map and a list of two well-formed orders
    and a completed one that lacks its expiry turn, the turn completes. *)
Lemma turn_completes_when_well_formed_witness :
  (dicts.play_turn constants engine
     (fun _ => [noodles_dict; no_expiry_done_dict; later_dict])
     (start_turn (bot_in_state true 15) (kitchen true 1 1 None nothing yes))).1
  = Ok tt.
Proof.
  apply turn_completes_when_well_formed.
  - intros ft Hft. cbn [food_types constants] in Hft.
    rewrite !elem_of_cons in Hft.
    destruct Hft as [->|[->|[->|[->|[->|Hft]]]]];
      [..|apply elem_of_nil in Hft; contradiction];
      vm_compute; reflexivity.
  - intros o Ho. rewrite !elem_of_cons in Ho.
    destruct Ho as [->|[->|[->|Ho]]]; [..|apply elem_of_nil in Ho; contradiction];
      vm_compute; reflexivity.
  - intros bot_id rest name Hbots Hn. injection Hbots as <- _.
    rewrite !elem_of_cons in Hn.
    destruct Hn as [->|[->|[->|Hn]]]; [..|apply elem_of_nil in Hn; contradiction];
      vm_compute; discriminate.
Defined.
End dict_instances.


(** * Dictionaries and records

    On well-formed dictionaries the ranking and the turn on dictionaries do
    what the ranking and the turn on records do: the properties of
    [duo_noodle_bot.play_turn] carry over to [dicts.play_turn]. *)

Section dict_records.
Import order_priority duo_noodle_bot spec props dict_spec.
Variable gc : GameConstants.

Local Ltac skipped :=
  exists None; split; [reflexivity|split; [reflexivity|intros ? Hs; discriminate Hs]].

Lemma score_order_refines wt t tbl o :
  prep_time_by_food wt = Some tbl ->
  well_formed wt t o = true ->
  exists r, dicts.score_order gc wt t o = Ok r /\
    score_order gc wt t (as_record o) = as_scored <$> r /\
    (forall s, r = Some s -> dicts.entry_id s <> None).
Proof.
  intros Htbl. unfold well_formed, passes, dicts.score_order, score_order.
  cbn [completed_turn is_active claimed_by expires_turn required reward penalty
       created_turn as_record].
  destruct (od_completed_turn o) as [c|] eqn:Hc; cbn [bool_decide andb].
  { rewrite (bool_decide_eq_true_2 (Some c ≠ None)) by discriminate. intros _.
    skipped. }
  rewrite (bool_decide_eq_false_2 (None ≠ None)) by (intros H; apply H; reflexivity).
  rewrite (bool_decide_eq_true_2 (None = None)) by reflexivity. cbn [andb].
  destruct (allow_inactive wt), (default false (od_is_active o)) eqn:Hact;
    cbn [negb andb orb];
    try (intros _; skipped).
  all: destruct (od_claimed_by o) as [cl|] eqn:Hcl.
  all: try (rewrite (bool_decide_eq_true_2 (Some cl ≠ None)) by discriminate;
            rewrite (bool_decide_eq_false_2 (Some cl = None)) by discriminate).
  all: try (rewrite (bool_decide_eq_false_2 (None ≠ None))
              by (intros H; apply H; reflexivity);
            rewrite (bool_decide_eq_true_2 (None = None)) by reflexivity).
  all: destruct (allow_claimed wt); cbn [negb andb orb];
    try (intros _; skipped).
  all: unfold overflows; rewrite ?Hact;
    destruct (od_expires_turn o) as [e|] eqn:He; cbn [default negb andb];
    [|discriminate].
  all: change (id e) with e.
  all: destruct (Z.ltb_spec (e - t) 0) as [Hneg|Hpos]; cbn [orb];
    [intros _; skipped|].
  all: rewrite Htbl, estimate_with_table; cbn [mbind dicts.res_bind].
  all: rewrite ?orb_false_r, andb_true_iff, negb_true_iff, !orb_false_iff,
         bool_decide_eq_true.
  all: intros (Hfit & Hid).
  all: repeat match type of Hfit with _ /\ _ => destruct Hfit as [Hfit ?] end.
  all: rewrite (float_of_int_fits (e - t)) by assumption.
  all: rewrite (float_of_int_fits (default 0 (od_reward o))) by assumption.
  all: rewrite (float_of_int_fits (default 0 (od_penalty o))) by assumption.
  all: rewrite (float_of_int_fits (py_maxZ (e - t) 1))
    by (rewrite too_large_max_1 by lia; assumption).
  all: rewrite ?(float_of_int_fits (py_maxZ 0 (default t (od_created_turn o) - t)))
    by assumption.
  all: cbn [mbind dicts.res_bind mret dicts.res_ret].
  all: eexists; split; [reflexivity|]; split;
    [|intros s [= <-]; exact Hid].
  all: destruct (od_reward o), (od_penalty o); reflexivity.
Qed.

Lemma prioritize_refines wt t tbl orders :
  prep_time_by_food wt = Some tbl ->
  (forall o, o ∈ orders -> well_formed wt t o = true) ->
  exists l, dicts.prioritize gc wt t orders = Ok l /\
    prioritize gc wt t (as_record <$> orders) = as_scored <$> l /\
    Forall (fun s => dicts.entry_id s <> None) l.
Proof.
  intros Htbl. induction orders as [|o orders IH]; intros Hall.
  { exists []. repeat split. constructor. }
  destruct (score_order_refines wt t tbl o Htbl) as (r & Hd & Hr & Hid);
    [apply Hall; left|].
  destruct IH as (l & Hl & Hrec & Hids);
    [intros o' Hin; apply Hall; right; exact Hin|].
  rewrite fmap_cons. cbn [dicts.prioritize prioritize].
  rewrite Hd, Hl, Hr, Hrec. cbn [mbind dicts.res_bind mret dicts.res_ret].
  destruct r as [s|]; cbn [fmap option_fmap option_map].
  - exists (s :: l). repeat split. constructor; [apply Hid; reflexivity|exact Hids].
  - exists l. repeat split. exact Hids.
Qed.

Lemma insert_desc_refines x l :
  as_scored <$> dicts.insert_desc x l = insert_desc (as_scored x) (as_scored <$> l).
Proof.
  induction l as [|y l IH]; [reflexivity|].
  rewrite fmap_cons. cbn [dicts.insert_desc insert_desc].
  change (sort_key (as_scored y)) with (dicts.sort_key y).
  change (sort_key (as_scored x)) with (dicts.sort_key x).
  destruct (key_compare (dicts.sort_key y) (dicts.sort_key x));
    rewrite ?fmap_cons, ?IH; reflexivity.
Qed.

Lemma sort_desc_refines l :
  as_scored <$> dicts.sort_desc l = sort_desc (as_scored <$> l).
Proof.
  induction l as [|x l IH]; [reflexivity|].
  change (dicts.sort_desc (x :: l)) with (dicts.insert_desc x (dicts.sort_desc l)).
  rewrite insert_desc_refines, IH. reflexivity.
Qed.

(** The queue of well-formed dictionaries is the queue of their records,
    and each of its entries has an id. *)
Lemma queue_refines wt t tbl orders :
  prep_time_by_food wt = Some tbl ->
  (forall o, o ∈ orders -> well_formed wt t o = true) ->
  exists q, dicts.build_order_priority_queue gc orders t wt = Ok q /\
    build_order_priority_queue gc (as_record <$> orders) t wt = as_scored <$> q /\
    Forall (fun s => dicts.entry_id s <> None) q.
Proof.
  intros Htbl Hall.
  destruct (prioritize_refines wt t tbl orders Htbl Hall) as (l & Hl & Hrec & Hids).
  exists (dicts.sort_desc l). unfold dicts.build_order_priority_queue,
    build_order_priority_queue. rewrite Hl, Hrec, sort_desc_refines.
  repeat split. rewrite dict_sort_desc_perm. exact Hids.
Qed.
End dict_records.

Section dict_turn_records.
Import order_priority duo_noodle_bot spec props dict_spec.
Context {W : Type}.
Local Opaque get_bfs_path find_nearest_tile chebyshev
  dicts.build_order_priority_queue dicts._build_default_prep_time_by_food
  build_order_priority_queue.

Local Ltac split_step :=
  repeat (unfold_turn;
          match goal with
          | |- context [move_towards ?c ?b ?x ?y ?r] =>
              rewrite (move_towards_run c b x y r); cbv zeta
          | |- context [match ?x with _ => _ end] =>
              lazymatch x with
              | context [match _ with _ => _ end] => fail
              | _ => destruct x eqn:?
              end
          end).

Lemma ids_refine (q : list ScoredDict) :
  Forall (fun s => dicts.entry_id s <> None) q ->
  omap dicts.entry_id q = scored_id <$> (as_scored <$> q).
Proof.
  induction 1 as [|s q Hs _ IH]; [reflexivity|].
  rewrite !fmap_cons. cbn [omap list_omap]. fold (omap dicts.entry_id q).
  rewrite IH. unfold dicts.entry_id in *. unfold scored_id.
  cbn [so_order as_scored order_id as_record].
  destruct (od_order_id (sd_order s)); [reflexivity|contradiction].
Qed.

Lemma filter_refine (q : list ScoredDict) :
  List.filter active_flag (as_scored <$> q)
  = as_scored <$> List.filter dicts.entry_active q.
Proof.
  induction q as [|s q IH]; [reflexivity|].
  rewrite fmap_cons. cbn [List.filter].
  change (active_flag (as_scored s)) with (dicts.entry_active s).
  destruct (dicts.entry_active s); rewrite ?fmap_cons, IH; reflexivity.
Qed.

Lemma filter_ids (q : list ScoredDict) :
  Forall (fun s => dicts.entry_id s <> None) q ->
  Forall (fun s => dicts.entry_id s <> None) (List.filter dicts.entry_active q).
Proof.
  induction 1 as [|s q Hs _ IH]; [constructor|].
  cbn [List.filter]. destruct (dicts.entry_active s); [constructor|]; assumption.
Qed.

Lemma find_refine (q : list ScoredDict) :
  List.find active_flag (as_scored <$> q)
  = as_scored <$> List.find dicts.entry_active q.
Proof.
  induction q as [|s q IH]; [reflexivity|].
  rewrite fmap_cons. cbn [List.find].
  change (active_flag (as_scored s)) with (dicts.entry_active s).
  destruct (dicts.entry_active s); [reflexivity|exact IH].
Qed.

(** The FSM step does not read [get_orders], and it carries the output
    along. *)
Lemma fsm_orders_irrelevant gc (ctl : RobotController W) f
    bot_id bx by_ held cx cy kx ky b w t o1 o2 :
  exists res b' w' t',
    fsm gc (with_orders f ctl) bot_id bx by_ held cx cy kx ky
      {| self := b; world := w; trace := t; stdout := o1 |}
    = (res, {| self := b'; world := w'; trace := t'; stdout := o1 |}) /\
    fsm gc ctl bot_id bx by_ held cx cy kx ky
      {| self := b; world := w; trace := t; stdout := o2 |}
    = (res, {| self := b'; world := w'; trace := t'; stdout := o2 |}).
Proof.
  destruct b as [m ac ck id cur hp s sa st].
  unfold fsm. split_step.
  all: do 4 eexists; split; reflexivity.
Qed.

(** The ranking pass on well-formed dictionaries: it completes, and it
    leaves what the pass on their records leaves. *)
Lemma rank_refines gc (ctl : RobotController W) od (r : Run W) :
  (forall ft, ft ∈ food_types gc -> too_large (prep_time_of gc ft) = false) ->
  (forall o, o ∈ od (world r) ->
     well_formed (bot_weights gc) (get_turn ctl (world r)) o = true) ->
  exists b' lines,
    dicts.rank_and_log gc ctl od r
    = (Ok tt, {| self := b'; world := world r; trace := trace r;
                 stdout := stdout r ++ lines |}) /\
    rank_and_log gc (with_orders (fun w => as_record <$> od w) ctl) r
    = (Ok tt, {| self := b'; world := world r; trace := trace r;
                 stdout := stdout r ++ (as_line <$> lines) |}).
Proof.
  intros Htbl Hwf.
  unfold dicts.rank_and_log, rank_and_log, dicts.lift. unfold_turn.
  destruct (default_table_cases gc) as [[_ ->]|[Hex _]].
  2:{ exfalso. apply Exists_exists in Hex as (ft & Hft & Hl).
      rewrite (Htbl ft Hft) in Hl. discriminate. }
  set (tbl := foldl (add_prep_time gc) ∅ (food_types gc)).
  change (bot_weights gc) with (dicts.dict_weights tbl) in *.
  destruct (queue_refines gc (dicts.dict_weights tbl) (get_turn ctl (world r))
              tbl (od (world r)) eq_refl Hwf) as (q & -> & -> & Hids).
  rewrite filter_refine, find_refine.
  rewrite <- (ids_refine q Hids).
  rewrite <- (ids_refine _ (filter_ids q Hids)).
  set (printing := negb (has_printed_priority (self r)) || _ || _).
  assert (Hsel :
    match match List.find dicts.entry_active q with
          | Some o => Some o
          | None => head q
          end with
    | Some o => exists i, dicts.entry_id o = Some i
    | None => True
    end).
  { destruct (List.find dicts.entry_active q) as [o|] eqn:Hf.
    - apply find_some in Hf as [Hin _]. rewrite Forall_forall in Hids.
      apply list_elem_of_In in Hin. specialize (Hids o Hin).
      destruct (dicts.entry_id o) as [i|]; [eauto|contradiction].
    - destruct q as [|o q']; [exact I|]. cbn [head].
      apply Forall_cons in Hids as [Ho _].
      destruct (dicts.entry_id o) as [i|]; [eauto|contradiction]. }
  assert (Hcur :
    scored_id <$> match as_scored <$> List.find dicts.entry_active q with
                  | Some o => Some o
                  | None => head (as_scored <$> q)
                  end
    = match match List.find dicts.entry_active q with
            | Some o => Some o
            | None => head q
            end with
      | Some o => dicts.entry_id o
      | None => None
      end).
  { destruct (List.find dicts.entry_active q) as [o|] eqn:Hf.
    - cbn [fmap option_fmap option_map]. destruct Hsel as (i & Hi).
      rewrite Hi. unfold scored_id, dicts.entry_id in *.
      cbn [so_order as_scored order_id as_record]. rewrite Hi. reflexivity.
    - destruct q as [|o q']; [reflexivity|].
      cbn [fmap option_fmap option_map head list_fmap]. destruct Hsel as (i & Hi).
      rewrite Hi. unfold scored_id, dicts.entry_id in *.
      cbn [so_order as_scored order_id as_record]. rewrite Hi. reflexivity. }
  rewrite Hcur.
  destruct (match List.find dicts.entry_active q with
            | Some o => Some o
            | None => head q
            end) as [o|].
  - destruct Hsel as (i & ->).
    destruct printing; unfold_turn;
      unfold dicts.set_seen, dicts.set_current_order_id, set_order_fields;
      cbn [map assembly_counter cooker_loc my_bot_id current_order_id
           has_printed_priority seen_order_ids seen_active_order_ids state].
    + eexists _, _. split; [reflexivity|].
      rewrite fmap_cons, <- !list_fmap_compose. reflexivity.
    + eexists _, []. rewrite !app_nil_r. split; reflexivity.
  - destruct printing; unfold_turn;
      unfold dicts.set_seen, dicts.set_current_order_id, set_order_fields;
      cbn [map assembly_counter cooker_loc my_bot_id current_order_id
           has_printed_priority seen_order_ids seen_active_order_ids state].
    + eexists _, _. split; [reflexivity|].
      rewrite fmap_cons, <- !list_fmap_compose. reflexivity.
    + eexists _, []. rewrite !app_nil_r. split; reflexivity.
Qed.

Lemma record_turn_run gc (ctl : RobotController W) (r : Run W) bot_id rest :
  get_team_bot_ids ctl (world r) = bot_id :: rest ->
  play_turn gc ctl r =
  match rank_and_log gc ctl r with
  | (Ok _, r') => dicts.stations_and_fsm gc ctl bot_id r'
  | (Raise e, r') => (Raise e, r')
  end.
Proof.
  intros Hbots. unfold play_turn, dicts.stations_and_fsm. unfold_turn.
  rewrite Hbots.
  destruct (rank_and_log gc ctl r) as [[[]|e] r']; reflexivity.
Qed.

(** On well-formed dictionaries the turn on dictionaries ends as the turn
    on their records ends, makes the same calls, leaves the same world and
    the same bot, and prints the same lines. *)
Lemma dict_turn_refines gc (ctl : RobotController W) od b w :
  (forall ft, ft ∈ food_types gc -> too_large (prep_time_of gc ft) = false) ->
  (forall o, o ∈ od w ->
     well_formed (bot_weights gc) (get_turn ctl w) o = true) ->
  let out := dicts.play_turn gc ctl od (start_turn b w) in
  let out' := play_turn gc (with_orders (fun w => as_record <$> od w) ctl)
                (start_turn b w) in
  out.1 = out'.1 /\ self out.2 = self out'.2 /\ world out.2 = world out'.2 /\
  trace out.2 = trace out'.2 /\ stdout out'.2 = as_line <$> stdout out.2.
Proof.
  intros Htbl Hwf. cbv zeta.
  destruct (get_team_bot_ids ctl w) as [|bot_id rest] eqn:Hbots.
  { rewrite (dict_turn_no_bots gc ctl od (start_turn b w) Hbots).
    unfold play_turn. unfold_turn. rewrite Hbots. repeat split; reflexivity. }
  rewrite (dict_turn_run gc ctl od (start_turn b w) bot_id rest Hbots).
  rewrite (record_turn_run gc (with_orders _ ctl) (start_turn b w) bot_id rest Hbots).
  destruct (rank_refines gc ctl od (start_turn b w) Htbl Hwf) as (b' & lines & -> & ->).
  rewrite !stations_and_fsm_split. cbv zeta.
  cbn [self world trace stdout start_turn with_orders get_bot_state get_map app].
  destruct (station_of (assembly_counter b') _ _ _ _) as [c|];
    [destruct (station_of (cooker_loc b') _ _ _ _) as [k|]|];
    try (cbn [fst snd self world trace stdout]; repeat split; reflexivity).
  match goal with
  | |- context [fsm gc ctl ?i ?x ?y ?hd ?cx ?cy ?kx ?ky
                  {| self := ?s; world := ?w0; trace := ?t; stdout := ?o1 |}] =>
      destruct (fsm_orders_irrelevant gc ctl (fun w => as_record <$> od w)
                  i x y hd cx cy kx ky s w0 t (as_line <$> o1) o1)
        as (res & b2 & w2 & t2 & -> & ->)
  end.
  cbn [fst snd self world trace stdout]. repeat split; reflexivity.
Qed.
End dict_turn_records.
